(** * ESPHome integration: reconnect logic, entity reconciliation,
      service synchronisation and enum mapping

    Shallow embedding of [homeassistant/components/esphome/__init__.py].
    Python dictionaries are insertion-ordered association lists
    ([PyDict]), Python integers are [Z], a function that can raise
    returns a [result], and calls into collaborators that live outside
    the file (dispatcher signals, the service registry, the API client)
    are recorded, in order, in the list of calls a function returns. *)

From Stdlib Require Import ZArith QArith Qround Qabs Qminmax Lia Lqa Ascii String.
From stdpp Require Import base decidable option list strings pretty gmap.

Close Scope Q_scope.
Open Scope Z_scope.

(** ** Python dictionaries *)

Module PyDict.
(** A [dict]: the items in insertion order.  Python keeps at most one
    item per key ([wf]). *)
Abbreviation t K V := (list (K * V)) (only parsing).

Section dict.
Context {K V : Type} `{EqDecision K}.

Definition keys (d : t K V) : list K := d.*1.
Definition values (d : t K V) : list V := d.*2.
Definition wf (d : t K V) : Prop := NoDup (keys d).

(** [d.get(k)] *)
Fixpoint get (k : K) (d : t K V) : option V :=
  match d with
  | [] => None
  | (k', v) :: d' => if decide (k = k') then Some v else get k d'
  end.

(** [k in d] *)
Definition contains (k : K) (d : t K V) : bool := bool_decide (k ∈ keys d).

(** [d.pop(k)], the remaining dictionary (the item of [k] is dropped,
    the order of the others is kept). *)
Fixpoint pop (k : K) (d : t K V) : t K V :=
  match d with
  | [] => []
  | (k', v) :: d' => if decide (k = k') then pop k d' else (k', v) :: pop k d'
  end.

(** [d[k] = v]: an existing key keeps its position, a new key goes
    last. *)
Fixpoint set (k : K) (v : V) (d : t K V) : t K V :=
  match d with
  | [] => [(k, v)]
  | (k', v') :: d' =>
      if decide (k = k') then (k, v) :: d' else (k', v') :: set k v d'
  end.
End dict.
End PyDict.

(** A dictionary display or comprehension [{k: v for ...}]: the items are
    stored one after the other, a later item overwrites the value of an
    earlier one with the same key. *)
Definition dict_of_items {K V : Type} `{EqDecision K}
    (items : list (K * V)) : PyDict.t K V :=
  foldl (λ d kv, PyDict.set kv.1 kv.2 d) [] items.

(** ** Exceptions *)

Inductive PyExc := KeyError | ValueError | MaxLengthExceeded.

Inductive result (A : Type) :=
  | Ok (a : A)
  | Raise (e : PyExc).
Arguments Ok {A} a.
Arguments Raise {A} e.

(** [d[k]] as an expression: [KeyError] when the key is missing. *)
Definition subscript {K V : Type} `{EqDecision K}
    (d : PyDict.t K V) (k : K) : result V :=
  match PyDict.get k d with
  | Some v => Ok v
  | None => Raise KeyError
  end.

(** ** [EsphomeEnumMapper] *)

Module EnumMapper.
Section mapper.
(** [_EnumT] is an [APIIntEnum], an integer; a Home Assistant value is
    an [option ValT], where [None] is the Python [None]: the mapping
    given to the constructor may itself have [None] as a value (as in
    [{SensorStateClass.NONE: None, ...}]). *)
Context {ValT : Type} `{EqDecision ValT}.

Record EsphomeEnumMapper := {
  _mapping : PyDict.t (option Z) (option ValT);
  _inverse : PyDict.t (option ValT) (option Z)
}.

(** [__init__]: [augmented_mapping] is the very object [mapping] (an
    assignment, no copy), so the item [None: None] stored through
    [augmented_mapping] is also seen by [mapping.items()] when the
    inverse is built; it comes last there, and overwrites the key of an
    enum value that maps to [None]. *)
Definition __init__ (mapping : PyDict.t Z (option ValT)) : EsphomeEnumMapper :=
  let mapping : PyDict.t (option Z) (option ValT) :=
    (λ kv, (Some kv.1, kv.2)) <$> mapping in
  let augmented_mapping := PyDict.set None None mapping in
  let mapping := augmented_mapping in
  {| _mapping := augmented_mapping;
     _inverse := dict_of_items ((λ kv, (kv.2, kv.1)) <$> mapping) |}.

Definition from_esphome (self : EsphomeEnumMapper) (value : option Z)
    : result (option ValT) :=
  subscript (_mapping self) value.

Definition from_hass (self : EsphomeEnumMapper) (value : option ValT)
    : result (option Z) :=
  subscript (_inverse self) value.

(** The round-trip laws as C10 states them, for the mapper built from
    [mapping]. *)
Definition round_trip_laws (mapping : PyDict.t Z (option ValT)) : Prop :=
  let mapper := __init__ mapping in
  (∀ e, e ∈ PyDict.keys mapping →
     ∃ v, from_esphome mapper (Some e) = Ok v ∧ from_hass mapper v = Ok (Some e)) ∧
  (∀ v, v ∈ PyDict.values mapping →
     ∃ e, from_hass mapper v = Ok e ∧ from_esphome mapper e = Ok v) ∧
  from_esphome mapper None = Ok None.
End mapper.
Arguments EsphomeEnumMapper : clear implicits.
End EnumMapper.

Global Instance result_ret : MRet result := λ A a, Ok a.
Global Instance result_bind : MBind result := λ A B f m,
  match m with
  | Ok a => f a
  | Raise e => Raise e
  end.

(** [m[k]] for the outer, string-keyed dictionaries of the entry data. *)
Definition subscript_map {V : Type} (m : gmap string V) (k : string) : result V :=
  match m !! k with
  | Some v => Ok v
  | None => Raise KeyError
  end.

(** ** Entity descriptors, states and entities *)

(** [isinstance(obj, cls)] for the descriptor and state classes of
    aioesphomeapi, which are pairwise unrelated: an object is an instance
    of the class it was built from. *)
Abbreviation PyClass := string (only parsing).

Module EntityInfo.
Record t := {
  cls : PyClass;
  key : Z;
  name : string;
  unique_id : string;
  disabled_by_default : bool
}.
End EntityInfo.

Inductive StateValue :=
  | VBool (b : bool)
  | VInt (z : Z)
  | VText (s : string)
  | VNan.

Module EntityState.
Record t := {
  cls : PyClass;
  key : Z;
  value : StateValue
}.
End EntityState.

Definition isinstance (obj_cls cls : PyClass) : bool := bool_decide (obj_cls = cls).

(** [EsphomeEntity.__init__(entry_data, component_key, key)]: the entity
    keeps a reference to the entry data and its own identity. *)
Record EsphomeEntity := {
  _component_key : string;
  _key : Z
}.

(** Calls that leave the module, in the order they are made:
    [entry_data.async_remove_entity(hass, component_key, key)], the
    removal notification of one entity;
    [entry_data.async_update_entity(hass, component_key, key)], the update
    notification of one entity; [async_add_entities(add_entities)], the
    batch of new entities. *)
Inductive Effect :=
  | RemoveEntity (component_key : string) (key : Z)
  | UpdateEntity (component_key : string) (key : Z)
  | AddEntities (entities : list EsphomeEntity).

(** Dictionaries are objects: [info] and [old_info] hold references into
    [heap], so that two names of one dictionary see each other's
    updates.  A reference is an index of [heap]; a new object is put at
    the end. *)
Abbreviation ref := nat (only parsing).
Abbreviation Heap := (list (PyDict.t Z EntityInfo.t)) (only parsing).

Definition deref (h : Heap) (r : ref) : PyDict.t Z EntityInfo.t := default [] (h !! r).
Definition alloc (h : Heap) (d : PyDict.t Z EntityInfo.t) : Heap * ref := (h ++ [d], length h).

(** Modelled from the spec: the fields of [RuntimeEntryData]
    (entry_data.py) that the platform callbacks use, the capability
    snapshot: [info] is the current generation of descriptors per
    component kind, [old_info] the previous one, [state] the last known
    state values. *)
Record RuntimeEntryData := {
  heap : Heap;
  info : gmap string ref;
  old_info : gmap string ref;
  state : gmap string (PyDict.t Z EntityState.t)
}.

Definition empty_entry_data : RuntimeEntryData :=
  {| heap := []; info := ∅; old_info := ∅; state := ∅ |}.

(** The current and the previous generation of a component kind, as a
    reader sees them. *)
Definition current (entry_data : RuntimeEntryData) (component_key : string)
    : option (PyDict.t Z EntityInfo.t) :=
  r ← info entry_data !! component_key; heap entry_data !! r.

Definition previous (entry_data : RuntimeEntryData) (component_key : string)
    : option (PyDict.t Z EntityInfo.t) :=
  r ← old_info entry_data !! component_key; heap entry_data !! r.

(** The first statements of [platform_async_setup_entry]: three new empty
    dictionaries for the component kind. *)
Definition platform_async_setup_entry (component_key : string)
    (entry_data : RuntimeEntryData) : RuntimeEntryData :=
  let '(h, r_info) := alloc (heap entry_data) [] in
  let '(h, r_old) := alloc h [] in
  {| heap := h;
     info := <[component_key := r_info]> (info entry_data);
     old_info := <[component_key := r_old]> (old_info entry_data);
     state := <[component_key := []]> (state entry_data) |}.

(** One iteration of the loop of [async_list_entities] over [infos];
    [old_infos] and [new_infos] are references, [add_entities] is the
    local list. *)
Definition list_entities_iter (component_key : string) (info_type : PyClass)
    (old_infos new_infos : ref)
    (acc : Heap * list EsphomeEntity) (info : EntityInfo.t)
    : Heap * list EsphomeEntity :=
  let '(h, add_entities) := acc in
  if negb (isinstance (EntityInfo.cls info) info_type) then (h, add_entities)
  else
    let '(h, add_entities) :=
      if PyDict.contains (EntityInfo.key info) (deref h old_infos)
      then (<[old_infos := PyDict.pop (EntityInfo.key info) (deref h old_infos)]> h,
            add_entities)
      else
        let entity := {| _component_key := component_key;
                         _key := EntityInfo.key info |} in
        (h, add_entities ++ [entity]) in
    (<[new_infos := PyDict.set (EntityInfo.key info) info (deref h new_infos)]> h,
     add_entities).

(** [async_list_entities(infos)], first part: the loop over [infos] and
    the removal notifications.  Returns the entry data, the reference
    [new_infos] and the list [add_entities] with the notifications
    sent. *)
Definition list_entities_diff (component_key : string) (info_type : PyClass)
    (infos : list EntityInfo.t) (entry_data : RuntimeEntryData)
    : result (RuntimeEntryData * ref * list EsphomeEntity * list Effect) :=
  old_infos ← subscript_map (info entry_data) component_key;
  let '(h, new_infos) := alloc (heap entry_data) [] in
  let '(h, add_entities) :=
    foldl (list_entities_iter component_key info_type old_infos new_infos)
          (h, []) infos in
  let removals :=
    (λ info, RemoveEntity component_key (EntityInfo.key info))
      <$> PyDict.values (deref h old_infos) in
  Ok ({| heap := h; info := info entry_data; old_info := old_info entry_data;
         state := state entry_data |},
      new_infos, add_entities, removals).

(** [async_list_entities(infos)], second part: the now-old dictionary
    becomes the backup, [new_infos] becomes the current one, and the new
    entities are handed over in one call. *)
Definition list_entities_commit (component_key : string)
    (new_infos : ref) (add_entities : list EsphomeEntity)
    (entry_data : RuntimeEntryData)
    : result (RuntimeEntryData * list Effect) :=
  now_old ← subscript_map (info entry_data) component_key;
  let entry_data :=
    {| heap := heap entry_data; info := info entry_data;
       old_info := <[component_key := now_old]> (old_info entry_data);
       state := state entry_data |} in
  let entry_data :=
    {| heap := heap entry_data;
       info := <[component_key := new_infos]> (info entry_data);
       old_info := old_info entry_data;
       state := state entry_data |} in
  Ok (entry_data, [AddEntities add_entities]).

(** [async_list_entities(infos)] of the platform [component_key]. *)
Definition async_list_entities (component_key : string) (info_type : PyClass)
    (infos : list EntityInfo.t) (entry_data : RuntimeEntryData)
    : result (RuntimeEntryData * list Effect) :=
  '(entry_data, new_infos, add_entities, removals) ←
    list_entities_diff component_key info_type infos entry_data;
  '(entry_data, added) ←
    list_entities_commit component_key new_infos add_entities entry_data;
  Ok (entry_data, removals ++ added).

(** [async_entity_state(state)] of the platform [component_key]. *)
Definition async_entity_state (component_key : string) (state_type : PyClass)
    (new_state : EntityState.t) (entry_data : RuntimeEntryData)
    : result (RuntimeEntryData * list Effect) :=
  if negb (isinstance (EntityState.cls new_state) state_type)
  then Ok (entry_data, [])
  else
    states ← subscript_map (state entry_data) component_key;
    let states := PyDict.set (EntityState.key new_state) new_state states in
    Ok ({| heap := heap entry_data; info := info entry_data;
           old_info := old_info entry_data;
           state := <[component_key := states]> (state entry_data) |},
        [UpdateEntity component_key (EntityState.key new_state)]).

(** Properties of [EsphomeEntity] that read the snapshot. *)
Definition _has_state (entry_data : RuntimeEntryData) (self : EsphomeEntity)
    : result bool :=
  states ← subscript_map (state entry_data) (_component_key self);
  Ok (PyDict.contains (_key self) states).

Definition _state (entry_data : RuntimeEntryData) (self : EsphomeEntity)
    : result EntityState.t :=
  states ← subscript_map (state entry_data) (_component_key self);
  subscript states (_key self).

Definition _static_info (entry_data : RuntimeEntryData) (self : EsphomeEntity)
    : result EntityInfo.t :=
  r ← subscript_map (info entry_data) (_component_key self);
  match PyDict.get (_key self) (deref (heap entry_data) r) with
  | Some info => Ok info
  | None =>
      r_old ← subscript_map (old_info entry_data) (_component_key self);
      subscript (deref (heap entry_data) r_old) (_key self)
  end.

(** *** The reconciliation in terms of dictionaries

    The descriptors of [infos] that belong to the platform, and the three
    classes of the diff against the current generation [cur]. *)
Definition of_platform (info_type : PyClass) (infos : list EntityInfo.t)
    : list EntityInfo.t :=
  filter (λ info, isinstance (EntityInfo.cls info) info_type = true) infos.

Definition to_add (cur : PyDict.t Z EntityInfo.t) (incoming : list EntityInfo.t)
    : list EntityInfo.t :=
  filter (λ info, EntityInfo.key info ∉ PyDict.keys cur) incoming.

Definition to_keep (cur : PyDict.t Z EntityInfo.t) (incoming : list EntityInfo.t)
    : list EntityInfo.t :=
  filter (λ info, EntityInfo.key info ∈ PyDict.keys cur) incoming.

Definition to_remove (cur : PyDict.t Z EntityInfo.t) (incoming : list EntityInfo.t)
    : list Z :=
  filter (λ k, k ∉ EntityInfo.key <$> incoming) (PyDict.keys cur).

Definition new_entity (component_key : string) (info : EntityInfo.t) : EsphomeEntity :=
  {| _component_key := component_key; _key := EntityInfo.key info |}.

(** Every descriptor is stored under its own key. *)
Definition keyed (d : PyDict.t Z EntityInfo.t) : Prop :=
  ∀ k info, (k, info) ∈ d → EntityInfo.key info = k.

(** The loop of [async_list_entities] on the contents of the two
    dictionaries instead of the heap. *)
Definition reconcile_iter (component_key : string) (info_type : PyClass)
    (acc : PyDict.t Z EntityInfo.t * PyDict.t Z EntityInfo.t * list EsphomeEntity)
    (info : EntityInfo.t)
    : PyDict.t Z EntityInfo.t * PyDict.t Z EntityInfo.t * list EsphomeEntity :=
  let '(old, new, add_entities) := acc in
  if negb (isinstance (EntityInfo.cls info) info_type) then acc
  else if PyDict.contains (EntityInfo.key info) old
  then (PyDict.pop (EntityInfo.key info) old,
        PyDict.set (EntityInfo.key info) info new, add_entities)
  else (old, PyDict.set (EntityInfo.key info) info new,
        add_entities ++ [new_entity component_key info]).

(** A pass that does what the diff says: the removal notifications of
    [to_remove] are sent while the current generation is still the old
    dictionary, then the current generation is replaced by the kept and
    the added descriptors, then the entities of [to_add] are handed over
    in one batch; no entity is built for a kept descriptor. *)
Definition pass_as_classified (component_key : string) (info_type : PyClass)
    (infos : list EntityInfo.t) (entry_data : RuntimeEntryData) : Prop :=
  ∃ cur mid new_infos entry_data' new,
    let incoming := of_platform info_type infos in
    let added := new_entity component_key <$> to_add cur incoming in
    let removals := RemoveEntity component_key <$> to_remove cur incoming in
    current entry_data component_key = Some cur ∧
    list_entities_diff component_key info_type infos entry_data
      = Ok (mid, new_infos, added, removals) ∧
    info mid = info entry_data ∧
    list_entities_commit component_key new_infos added mid
      = Ok (entry_data', [AddEntities added]) ∧
    async_list_entities component_key info_type infos entry_data
      = Ok (entry_data', removals ++ [AddEntities added]) ∧
    current entry_data' component_key = Some new ∧
    (∀ k info, (k, info) ∈ new ↔
       k = EntityInfo.key info ∧
       (info ∈ to_keep cur incoming ∨ info ∈ to_add cur incoming)) ∧
    (∀ info, info ∈ to_keep cur incoming → new_entity component_key info ∉ added).

(** Two passes in a row with the same list: the second one adds nothing
    and removes nothing. *)
Definition second_pass_quiet (component_key : string) (info_type : PyClass)
    (infos : list EntityInfo.t) (entry_data : RuntimeEntryData) : Prop :=
  ∃ entry_data1 effects1 entry_data2,
    async_list_entities component_key info_type infos entry_data
      = Ok (entry_data1, effects1) ∧
    async_list_entities component_key info_type infos entry_data1
      = Ok (entry_data2, [AddEntities []]) ∧
    current entry_data2 component_key = current entry_data1 component_key.

(** Concrete data for the examples: two sensor descriptors and the entry
    data of a session whose sensor platform has been set up. *)
Definition sensor_info (key : Z) (name : string) : EntityInfo.t :=
  {| EntityInfo.cls := "SensorInfo"; EntityInfo.key := key;
     EntityInfo.name := name; EntityInfo.unique_id := name;
     EntityInfo.disabled_by_default := false |}.

Definition sensor_entry_data : RuntimeEntryData :=
  platform_async_setup_entry "sensor" empty_entry_data.

(** The entry data after a pass (unchanged if the pass raised). *)
Definition after_pass (component_key : string) (info_type : PyClass)
    (infos : list EntityInfo.t) (entry_data : RuntimeEntryData) : RuntimeEntryData :=
  match async_list_entities component_key info_type infos entry_data with
  | Ok (entry_data', _) => entry_data'
  | Raise _ => entry_data
  end.

(** *** Invariants of the snapshot *)

(** No key is in the current and in the previous generation of a kind. *)
Definition generations_disjoint (entry_data : RuntimeEntryData) : Prop :=
  ∀ component_key cur prev k,
    current entry_data component_key = Some cur →
    previous entry_data component_key = Some prev →
    ¬ (k ∈ PyDict.keys cur ∧ k ∈ PyDict.keys prev).

(** Every generation of every kind is a dictionary object of its own. *)
Definition heap_separated (entry_data : RuntimeEntryData) : Prop :=
  (∀ c r, info entry_data !! c = Some r → (r < length (heap entry_data))%nat) ∧
  (∀ c r, old_info entry_data !! c = Some r → (r < length (heap entry_data))%nat) ∧
  (∀ c1 c2 r, info entry_data !! c1 = Some r → info entry_data !! c2 = Some r → c1 = c2) ∧
  (∀ c1 c2 r, old_info entry_data !! c1 = Some r → old_info entry_data !! c2 = Some r → c1 = c2) ∧
  (∀ c1 c2 r, info entry_data !! c1 = Some r → old_info entry_data !! c2 = Some r → False).

Definition snapshot_inv (entry_data : RuntimeEntryData) : Prop :=
  heap_separated entry_data ∧ generations_disjoint entry_data.

(** A boolean sensor state, for the examples. *)
Definition sensor_state (key : Z) (value : StateValue) : EntityState.t :=
  {| EntityState.cls := "SensorState"; EntityState.key := key;
     EntityState.value := value |}.

(** ** Backoff of the reconnect logic *)

(** [round(x)] of a float: to the nearest integer, a tie goes to the even
    one. *)
Definition py_round (x : Q) : Z :=
  let f := Qfloor x in
  match ((x - inject_Z f) ?= (1 # 2))%Q with
  | Lt => f
  | Eq => if Z.even f then f else f + 1
  | Gt => f + 1
  end.

(** The real value of [1.8 ** tries]. *)
Definition exact_pow (tries : Z) : Q := ((9 # 5) ^ tries)%Q.

(** [float_pow] stands for the binary64 result of [1.8 ** tries].  All
    that is used of it is that it is within 0.001 of the real power for
    the exponents 0..10 that occur (the rounding error of binary64 there
    is below 1e-12). *)
Definition float_pow_accurate (float_pow : Z → Q) : Prop :=
  ∀ tries, 0 ≤ tries ≤ 10 →
    (Qabs (float_pow tries - exact_pow tries) <= 1 # 1000)%Q.

(** [int(round(min(1.8 ** tries, 60.0)))] with [tries = min(tries, 10)]. *)
Definition wait_time (float_pow : Z → Q) (tries : Z) : Z :=
  let tries := Z.min tries 10 in
  py_round (Qmin (float_pow tries) 60).

(** The formula of the specification, on real numbers. *)
Definition backoff_formula (n : Z) : Z :=
  py_round (Qmin (exact_pow (Z.min n 10)) 60).

(** The table of waits. *)
Definition wait_table (k : Z) : Z :=
  match k with
  | 0 => 1 | 1 => 2 | 2 => 3 | 3 => 6 | 4 => 10 | 5 => 19 | 6 => 34
  | _ => 60
  end.

(** ** [ReconnectLogic] *)

Module ReconnectLogic.

(** The exceptions [self._cli.connect] can raise. *)
Inductive APIConnectionError :=
  | RequiresEncryptionAPIError
  | InvalidEncryptionKeyAPIError
  | OtherAPIConnectionError.

Inductive ConnectOutcome :=
  | Connected
  | ConnectionError (error : APIConnectionError)
  | OtherException.

Inductive LogLevel := WARNING | DEBUG.

(** Where the coroutine [_wait_and_start_reconnect] of the wait task is:
    created and not yet run, or in [asyncio.sleep(wait_time)]. *)
Inductive WaitTask :=
  | Created
  | Sleeping (wait_time : Z).

(** A zeroconf record update: whether [record_update.new] is a
    [DNSPointer], and its alias. *)
Record RecordUpdate := {
  is_pointer : bool;
  alias : string
}.

(** Calls to collaborators, in the order they are made. *)
Inductive Call :=
  | CliConnect
  | StartReauth
  | LogCantConnect (level : LogLevel)
  | LogReconnectInBackground
  | LogException
  | ZcAddListener
  | ZcRemoveListener
  | CreateWaitTask
  | CancelWaitTask
  | Sleep (seconds : Z)
  | OnLogin
  | DisconnectCallbacks
  | DeviceUnavailable.

Global Instance LogLevel_eq_dec : EqDecision LogLevel.
Proof. solve_decision. Defined.

Global Instance Call_eq_dec : EqDecision Call.
Proof. solve_decision. Defined.

Record t := {
  _connected : bool;
  _zc_listening : bool;
  _reconnect_event : bool;
  _loop_task : bool;
  _tries : Z;
  _wait_task : option WaitTask
}.

Definition __init__ : t :=
  {| _connected := true; _zc_listening := false; _reconnect_event := false;
     _loop_task := false; _tries := 0; _wait_task := None |}.

Definition set_connected (v : bool) (self : t) : t :=
  {| _connected := v; _zc_listening := _zc_listening self;
     _reconnect_event := _reconnect_event self; _loop_task := _loop_task self;
     _tries := _tries self; _wait_task := _wait_task self |}.

Definition set_zc_listening (v : bool) (self : t) : t :=
  {| _connected := _connected self; _zc_listening := v;
     _reconnect_event := _reconnect_event self; _loop_task := _loop_task self;
     _tries := _tries self; _wait_task := _wait_task self |}.

Definition set_reconnect_event (v : bool) (self : t) : t :=
  {| _connected := _connected self; _zc_listening := _zc_listening self;
     _reconnect_event := v; _loop_task := _loop_task self;
     _tries := _tries self; _wait_task := _wait_task self |}.

Definition set_loop_task (v : bool) (self : t) : t :=
  {| _connected := _connected self; _zc_listening := _zc_listening self;
     _reconnect_event := _reconnect_event self; _loop_task := v;
     _tries := _tries self; _wait_task := _wait_task self |}.

Definition set_tries (v : Z) (self : t) : t :=
  {| _connected := _connected self; _zc_listening := _zc_listening self;
     _reconnect_event := _reconnect_event self; _loop_task := _loop_task self;
     _tries := v; _wait_task := _wait_task self |}.

Definition set_wait_task (v : option WaitTask) (self : t) : t :=
  {| _connected := _connected self; _zc_listening := _zc_listening self;
     _reconnect_event := _reconnect_event self; _loop_task := _loop_task self;
     _tries := _tries self; _wait_task := v |}.

Definition _start_zc_listen (self : t) : t * list Call :=
  if negb (_zc_listening self)
  then (set_zc_listening true self, [ZcAddListener])
  else (self, []).

Definition _stop_zc_listen (self : t) : t * list Call :=
  if _zc_listening self
  then (set_zc_listening false self, [ZcRemoveListener])
  else (self, []).

(** [_on_disconnect]; [has_entry_data] tells whether [self._entry_data]
    is not [None]. *)
Definition _on_disconnect (has_entry_data : bool) (self : t) : t * list Call :=
  if negb has_entry_data then (self, [])
  else
    let '(self, zc) := _start_zc_listen self in
    let self := set_tries 0 self in
    let self := set_connected false self in
    let self := set_reconnect_event true self in
    (self, [DisconnectCallbacks; DeviceUnavailable] ++ zc).

Section with_float.
Variable float_pow : Z → Q.

(** [_wait_and_start_reconnect] up to [await asyncio.sleep(wait_time)]. *)
Definition _wait_and_start_reconnect_begin (self : t) : t * list Call :=
  let tries := _tries self in
  let tries := Z.min tries 10 in
  let wait_time := py_round (Qmin (float_pow tries) 60) in
  let log := if bool_decide (tries = 1) then [LogReconnectInBackground] else [] in
  (set_wait_task (Some (Sleeping wait_time)) self, log ++ [Sleep wait_time]).

(** [_wait_and_start_reconnect] after the sleep. *)
Definition _wait_and_start_reconnect_end (self : t) : t * list Call :=
  let self := set_wait_task None self in
  (set_reconnect_event true self, []).

Definition is_encryption_error (error : APIConnectionError) : bool :=
  match error with
  | RequiresEncryptionAPIError | InvalidEncryptionKeyAPIError => true
  | OtherAPIConnectionError => false
  end.

(** [_try_connect]; the boolean tells whether an exception leaves the
    function. *)
Definition _try_connect (outcome : ConnectOutcome) (self : t) : t * list Call * bool :=
  let tries := _tries self in
  let self := set_tries (_tries self + 1) self in
  match outcome with
  | ConnectionError error =>
      let reauth := if is_encryption_error error then [StartReauth] else [] in
      let level := if bool_decide (tries = 0) then WARNING else DEBUG in
      let '(self, zc) := _start_zc_listen self in
      let calls := [CliConnect] ++ reauth ++ [LogCantConnect level] ++ zc in
      match _wait_task self with
      | Some _ => (self, calls, false)
      | None => (set_wait_task (Some Created) self, calls ++ [CreateWaitTask], false)
      end
  | Connected =>
      let self := set_tries 0 self in
      let self := set_connected true self in
      let '(self, zc) := _stop_zc_listen self in
      (self, [CliConnect] ++ zc ++ [OnLogin], false)
  | OtherException => (self, [CliConnect], true)
  end.

(** [_reconnect_once] from the point where [self._reconnect_event.wait()]
    has returned; [entry_loaded] and [device_disabled] are what the
    registries answer. *)
Definition _reconnect_once (entry_loaded device_disabled : bool)
    (outcome : ConnectOutcome) (self : t) : t * list Call * bool :=
  let self := set_reconnect_event false self in
  if _connected self then (self, [], false)
  else if negb entry_loaded then (self, [], false)
  else if device_disabled then (self, [], false)
  else _try_connect outcome self.

(** One turn of [_reconnect_loop], taken by the task stored in
    [self._loop_task]: nothing happens while the task is cancelled or
    the event is not set. *)
Definition _reconnect_loop_turn (entry_loaded device_disabled : bool)
    (outcome : ConnectOutcome) (self : t) : t * list Call :=
  if negb (_loop_task self && _reconnect_event self) then (self, [])
  else
    let '(self, calls, raised) :=
      _reconnect_once entry_loaded device_disabled outcome self in
    (self, calls ++ if raised then [LogException] else []).

(** [start()] and [stop()] as far as the fields of the object go:
    [_loop_task] tells whether [self._loop_task] is not [None].  The
    tasks themselves, also those that [start()] replaces without
    cancelling them, are kept in [LoopTasks] below. *)
Definition start (self : t) : t * list Call :=
  let self := set_loop_task true self in
  let self := set_connected false self in
  (set_reconnect_event true self, []).

Definition stop (self : t) : t * list Call :=
  let self := set_loop_task false self in
  let cancel := match _wait_task self with Some _ => [CancelWaitTask] | None => [] end in
  let self := set_wait_task None self in
  let '(self, zc) := _stop_zc_listen self in
  (self, cancel ++ zc).

(** [async_update_records]; [device_name] is
    [self._entry_data.device_info.name] when both exist. *)
Definition async_update_records (device_name : option string)
    (records : list RecordUpdate) (self : t) : t * list Call :=
  match device_name with
  | None => (self, [])
  | Some name =>
      if _connected self || _reconnect_event self then (self, [])
      else
        let filter_alias := (name +:+ "._esphomelib._tcp.local.")%string in
        if existsb (λ r, is_pointer r && bool_decide (alias r = filter_alias)) records
        then (set_reconnect_event true self, [])
        else (self, [])
  end.

(** What can happen to the object. *)
Inductive Event :=
  | EvStart
  | EvStop
  | EvLoopTurn (entry_loaded device_disabled : bool) (outcome : ConnectOutcome)
  | EvDisconnect (has_entry_data : bool)
  | EvWaitTaskRuns
  | EvSleepOver
  | EvZeroconf (device_name : option string) (records : list RecordUpdate).

Definition step (ev : Event) (self : t) : t * list Call :=
  match ev with
  | EvStart => start self
  | EvStop => stop self
  | EvLoopTurn entry_loaded device_disabled outcome =>
      _reconnect_loop_turn entry_loaded device_disabled outcome self
  | EvDisconnect has_entry_data => _on_disconnect has_entry_data self
  | EvWaitTaskRuns =>
      match _wait_task self with
      | Some Created => _wait_and_start_reconnect_begin self
      | _ => (self, [])
      end
  | EvSleepOver =>
      match _wait_task self with
      | Some (Sleeping _) => _wait_and_start_reconnect_end self
      | _ => (self, [])
      end
  | EvZeroconf device_name records => async_update_records device_name records self
  end.

(** A sequence of events, with all the calls made. *)
Definition run (evs : list Event) (self : t) : t * list Call :=
  foldl (λ acc ev, let '(self, calls) := step ev acc.1 in (self, acc.2 ++ calls))
        (self, []) evs.

(** The outcome of the connection attempt an event makes, if it makes
    one. *)
Definition attempt (ev : Event) (self : t) : option ConnectOutcome :=
  match ev with
  | EvLoopTurn _ _ outcome =>
      if bool_decide (CliConnect ∈ (step ev self).2) then Some outcome else None
  | _ => None
  end.

(** The seconds slept by the wait tasks. *)
Definition sleeps (calls : list Call) : list Z :=
  omap (λ c, match c with Sleep w => Some w | _ => None end) calls.
End with_float.

(** One failed attempt followed by its wait. *)
Definition failure_cycle : list Event :=
  [EvLoopTurn true false (ConnectionError OtherAPIConnectionError);
   EvWaitTaskRuns; EvSleepOver].

(** [n] failure cycles. *)
Definition failure_cycles (n : nat) : list Event :=
  mjoin (replicate n failure_cycle).
End ReconnectLogic.

Module RL := ReconnectLogic.

(** The object after [start()], and after [n] failed attempts in a row:
    not connected, the loop running, the event set, no wait task. *)
Definition started (zc_listening : bool) (tries : Z) : RL.t :=
  {| RL._connected := false; RL._zc_listening := zc_listening;
     RL._reconnect_event := true; RL._loop_task := true;
     RL._tries := tries; RL._wait_task := None |}.

(** A failed attempt that is surfaced and not retried: the
    re-authentication is requested and no wait task is created for a
    later attempt. *)
Definition surfaced_not_retried (error : RL.APIConnectionError) (self : RL.t) : Prop :=
  let calls := (RL._try_connect (RL.ConnectionError error) self).1.2 in
  RL.StartReauth ∈ calls ∧ RL.CreateWaitTask ∉ calls.

(** The number of connection attempts among the calls. *)
Definition connects (calls : list RL.Call) : nat :=
  length (filter (λ c, c = RL.CliConnect) calls).

(** ** User-defined services *)

Module UserServiceArgType.
(** The enum of aioesphomeapi; [UNKNOWN raw] is a value the enum does not
    name (a newer device). *)
Inductive t :=
  | BOOL | INT | FLOAT | STRING
  | BOOL_ARRAY | INT_ARRAY | FLOAT_ARRAY | STRING_ARRAY
  | UNKNOWN (raw : Z).

Global Instance eq_dec : EqDecision t.
Proof. solve_decision. Defined.
End UserServiceArgType.

Module UserServiceArg.
Record t := {
  name : string;
  type : UserServiceArgType.t
}.

Global Instance eq_dec : EqDecision t.
Proof. solve_decision. Defined.
End UserServiceArg.

Module UserService.
Record t := {
  name : string;
  key : Z;
  args : list UserServiceArg.t
}.

Global Instance eq_dec : EqDecision t.
Proof. solve_decision. Defined.
End UserService.

Module DeviceInfo.
Record t := {
  name : string
}.
End DeviceInfo.

Inductive Validator :=
  | cv_boolean
  | Coerce_int
  | Coerce_float
  | cv_string
  | ListOf (item : Validator).

Inductive Selector :=
  | SelectBoolean
  | SelectNumberBox
  | SelectNumberBoxStep
  | SelectText
  | SelectObject.

Record ServiceMetadata := {
  validator : Validator;
  example : string;
  selector : Selector;
  description : option string
}.

Definition ARG_TYPE_METADATA : PyDict.t UserServiceArgType.t ServiceMetadata :=
  [ (UserServiceArgType.BOOL,
     {| validator := cv_boolean; example := "False";
        selector := SelectBoolean; description := None |});
    (UserServiceArgType.INT,
     {| validator := Coerce_int; example := "42";
        selector := SelectNumberBox; description := None |});
    (UserServiceArgType.FLOAT,
     {| validator := Coerce_float; example := "12.3";
        selector := SelectNumberBoxStep; description := None |});
    (UserServiceArgType.STRING,
     {| validator := cv_string; example := "Example text";
        selector := SelectText; description := None |});
    (UserServiceArgType.BOOL_ARRAY,
     {| validator := ListOf cv_boolean; example := "[True, False]";
        selector := SelectObject;
        description := Some "A list of boolean values."%string |});
    (UserServiceArgType.INT_ARRAY,
     {| validator := ListOf Coerce_int; example := "[42, 34]";
        selector := SelectObject;
        description := Some "A list of integer values."%string |});
    (UserServiceArgType.FLOAT_ARRAY,
     {| validator := ListOf Coerce_float; example := "[ 12.3, 34.5 ]";
        selector := SelectObject;
        description := Some "A list of floating point numbers."%string |});
    (UserServiceArgType.STRING_ARRAY,
     {| validator := ListOf cv_string; example := "['Example text', 'Another example']";
        selector := SelectObject;
        description := Some "A list of strings."%string |}) ].

Record FieldDescription := {
  field_name : string;
  field_required : bool;
  field_description : option string;
  field_example : string;
  field_selector : Selector
}.

(** Calls to [hass.services], to [async_set_service_schema] and to the
    logger. *)
Inductive ServiceCall :=
  | LogUnknownType (service_name arg_name : string) (arg_type : UserServiceArgType.t)
  | AsyncRegister (domain service_name : string) (service : UserService.t)
      (schema : PyDict.t string Validator)
  | AsyncSetServiceSchema (domain service_name : string) (service : UserService.t)
      (fields : PyDict.t string FieldDescription)
  | AsyncRemove (domain service_name : string).

Definition DOMAIN : string := "esphome".

(** Modelled from the spec: the two fields of [RuntimeEntryData]
    (entry_data.py) the service synchronisation uses, the device
    information (absent until the device has connected once) and the
    previously registered actions by key. *)
Module EntryData.
Record t := {
  device_info : option DeviceInfo.t;
  services : PyDict.t Z UserService.t
}.
End EntryData.

(** [s.replace(old, new)] for one-character [old] and [new]. *)
Fixpoint str_replace (old new : ascii) (s : string) : string :=
  match s with
  | EmptyString => EmptyString
  | String c s' =>
      String (if decide (c = old) then new else c) (str_replace old new s')
  end.

(** The loop of [_register_service] over [service.args]: the schema and
    the fields, or the error logged at the first argument of unknown
    type. *)
Fixpoint register_args (service_name : string) (args : list UserServiceArg.t)
    (schema : PyDict.t string Validator) (fields : PyDict.t string FieldDescription)
    : ServiceCall + (PyDict.t string Validator * PyDict.t string FieldDescription) :=
  match args with
  | [] => inr (schema, fields)
  | arg :: args =>
      match PyDict.get (UserServiceArg.type arg) ARG_TYPE_METADATA with
      | None =>
          inl (LogUnknownType service_name (UserServiceArg.name arg)
                              (UserServiceArg.type arg))
      | Some metadata =>
          let schema := PyDict.set (UserServiceArg.name arg) (validator metadata) schema in
          let fields :=
            PyDict.set (UserServiceArg.name arg)
              {| field_name := UserServiceArg.name arg;
                 field_required := true;
                 field_description := description metadata;
                 field_example := example metadata;
                 field_selector := selector metadata |} fields in
          register_args service_name args schema fields
      end
  end.

Definition _register_service (entry_data : EntryData.t) (service : UserService.t)
    : result (list ServiceCall) :=
  match EntryData.device_info entry_data with
  | None => Raise ValueError
  | Some device_info =>
      let service_name :=
        (str_replace "-"%char "_"%char (DeviceInfo.name device_info) +:+ "_"
           +:+ UserService.name service)%string in
      match register_args service_name (UserService.args service) [] [] with
      | inl logged => Ok [logged]
      | inr (schema, fields) =>
          Ok [AsyncRegister DOMAIN service_name service schema;
              AsyncSetServiceSchema DOMAIN service_name service fields]
      end
  end.

(** The first loop of [_setup_services] over [services], then the loop
    over what is left of [old_services]. *)
Definition setup_services_iter
    (acc : PyDict.t Z UserService.t * list UserService.t * list UserService.t)
    (service : UserService.t)
    : PyDict.t Z UserService.t * list UserService.t * list UserService.t :=
  let '(old_services, to_unregister, to_register) := acc in
  match PyDict.get (UserService.key service) old_services with
  | Some matching =>
      let old_services := PyDict.pop (UserService.key service) old_services in
      if decide (matching ≠ service)
      then (old_services, to_unregister ++ [matching], to_register ++ [service])
      else (old_services, to_unregister, to_register)
  | None => (old_services, to_unregister, to_register ++ [service])
  end.

Definition services_diff (old_services : PyDict.t Z UserService.t)
    (services : list UserService.t) : list UserService.t * list UserService.t :=
  let '(old_services, to_unregister, to_register) :=
    foldl setup_services_iter (old_services, [], []) services in
  (to_unregister ++ PyDict.values old_services, to_register).

(** The last loop of [_setup_services]: an exception of
    [_register_service] ends it. *)
Fixpoint register_all (entry_data : EntryData.t) (to_register : list UserService.t)
    : result (list ServiceCall) :=
  match to_register with
  | [] => Ok []
  | service :: to_register =>
      calls ← _register_service entry_data service;
      rest ← register_all entry_data to_register;
      Ok (calls ++ rest)
  end.

Definition _setup_services (entry_data : EntryData.t) (services : list UserService.t)
    : result (EntryData.t * list ServiceCall) :=
  match EntryData.device_info entry_data with
  | None => Ok (entry_data, [])
  | Some device_info =>
      let old_services := EntryData.services entry_data in
      let '(to_unregister, to_register) := services_diff old_services services in
      let entry_data :=
        {| EntryData.device_info := Some device_info;
           EntryData.services :=
             dict_of_items ((λ serv, (UserService.key serv, serv)) <$> services) |} in
      let removals :=
        (λ service,
           AsyncRemove DOMAIN
             (DeviceInfo.name device_info +:+ "_" +:+ UserService.name service)%string)
          <$> to_unregister in
      registrations ← register_all entry_data to_register;
      Ok (entry_data, removals ++ registrations)
  end.

(** Modelled from the spec: the external action-invocation surface
    ([hass.services], homeassistant/core.py), as far as the register and
    unregister instructions go: a registration makes the action callable
    under its name (replacing an action of that name), an unregistration
    of a name removes the action of that name and no other. *)
Definition apply_service_call (registry : gmap string UserService.t)
    (call : ServiceCall) : gmap string UserService.t :=
  match call with
  | AsyncRegister _ service_name service _ => <[service_name := service]> registry
  | AsyncRemove _ service_name => delete service_name registry
  | _ => registry
  end.

(** The services registered by a list of calls, in order. *)
Definition registered (calls : list ServiceCall) : list UserService.t :=
  omap (λ c, match c with AsyncRegister _ _ service _ => Some service | _ => None end) calls.

(** The services skipped with an error by a list of calls, by name. *)
Definition skipped (calls : list ServiceCall) : list string :=
  omap (λ c, match c with LogUnknownType service_name _ _ => Some service_name | _ => None end)
       calls.

(** All arguments of the service have one of the eight types of
    [ARG_TYPE_METADATA]. *)
Definition recognized (service : UserService.t) : Prop :=
  Forall (λ arg, UserServiceArg.type arg ∈ PyDict.keys ARG_TYPE_METADATA)
         (UserService.args service).

(** The name [_register_service] registers a service under, and the name
    [_setup_services] removes it under. *)
Definition registered_name (device_info : DeviceInfo.t) (service : UserService.t) : string :=
  (str_replace "-"%char "_"%char (DeviceInfo.name device_info) +:+ "_"
     +:+ UserService.name service)%string.

Definition removed_name (device_info : DeviceInfo.t) (service : UserService.t) : string :=
  (DeviceInfo.name device_info +:+ "_" +:+ UserService.name service)%string.

(** The names removed by a list of calls, in order. *)
Definition removed (calls : list ServiceCall) : list string :=
  omap (λ c, match c with AsyncRemove _ service_name => Some service_name | _ => None end)
       calls.

Global Instance recognized_dec service : Decision (recognized service).
Proof. unfold recognized. apply _. Defined.

(** Two services for the examples: one with a string argument and one
    with an argument of a type the integration does not know. *)
Definition play_service : UserService.t :=
  {| UserService.name := "play"; UserService.key := 1;
     UserService.args :=
       [{| UserServiceArg.name := "song"; UserServiceArg.type := UserServiceArgType.STRING |}] |}.

Definition odd_service : UserService.t :=
  {| UserService.name := "odd"; UserService.key := 2;
     UserService.args :=
       [{| UserServiceArg.name := "x"; UserServiceArg.type := UserServiceArgType.UNKNOWN 8 |}] |}.

Definition ring_service : UserService.t :=
  {| UserService.name := "ring"; UserService.key := 3; UserService.args := [] |}.

Definition entry_of (device_name : string) : EntryData.t :=
  {| EntryData.device_info := Some {| DeviceInfo.name := device_name |};
     EntryData.services := [] |}.

(** The diff of the incoming services against the registered ones, in
    words of the specification: the registered service a changed
    incoming service replaces, the registered services no incoming
    service has the key of, and the incoming services that are new or
    changed. *)
Definition replaced_by (old_services : PyDict.t Z UserService.t)
    (service : UserService.t) : option UserService.t :=
  match PyDict.get (UserService.key service) old_services with
  | Some matching => if decide (matching ≠ service) then Some matching else None
  | None => None
  end.

Definition absent_services (old_services : PyDict.t Z UserService.t)
    (services : list UserService.t) : list UserService.t :=
  PyDict.values (filter (λ kv, kv.1 ∉ UserService.key <$> services) old_services).

Definition new_or_changed (old_services : PyDict.t Z UserService.t)
    (services : list UserService.t) : list UserService.t :=
  filter (λ service,
            PyDict.get (UserService.key service) old_services ≠ Some service) services.

(** *** Sessions

    What happens to the snapshot of one config entry: platforms are set
    up, descriptor lists and states arrive.  A callback that raises
    leaves the entry data as it was. *)
Inductive SnapshotOp :=
  | OpSetup (component_key : string)
  | OpListEntities (component_key : string) (info_type : PyClass)
      (infos : list EntityInfo.t)
  | OpEntityState (component_key : string) (state_type : PyClass)
      (new_state : EntityState.t).

Definition apply_op (entry_data : RuntimeEntryData) (op : SnapshotOp) : RuntimeEntryData :=
  match op with
  | OpSetup component_key => platform_async_setup_entry component_key entry_data
  | OpListEntities component_key info_type infos =>
      after_pass component_key info_type infos entry_data
  | OpEntityState component_key state_type new_state =>
      match async_entity_state component_key state_type new_state entry_data with
      | Ok (entry_data', _) => entry_data'
      | Raise _ => entry_data
      end
  end.

Definition session (ops : list SnapshotOp) : RuntimeEntryData :=
  foldl apply_op empty_entry_data ops.

(** Every dictionary object holds each descriptor under its own key. *)
Definition heap_keyed (entry_data : RuntimeEntryData) : Prop :=
  Forall keyed (heap entry_data).

(** ** Further notions for the reconnect logic *)

(** How often a call occurs among the calls. *)
Definition count_call (c : RL.Call) (calls : list RL.Call) : nat :=
  length (filter (λ x, x = c) calls).

(** The conditions under which a turn of the loop tries to connect. *)
Definition turn_attempts (entry_loaded device_disabled : bool) (self : RL.t) : bool :=
  RL._loop_task self && RL._reconnect_event self && negb (RL._connected self)
  && entry_loaded && negb device_disabled.

(** A record update that names the device: a pointer record with the
    alias of the device. *)
Definition names_device (device_name : string) (record : RL.RecordUpdate) : bool :=
  RL.is_pointer record
  && bool_decide (RL.alias record = (device_name +:+ "._esphomelib._tcp.local.")%string).

(** Events that do not bring a stopped or connected object back to
    connecting: everything but [start()] and a disconnect that finds the
    entry data. *)
Definition quiet_event (ev : RL.Event) : bool :=
  match ev with
  | RL.EvStart => false
  | RL.EvDisconnect has_entry_data => negb has_entry_data
  | _ => true
  end.


(** ** The loop tasks of a [ReconnectLogic]

    [start()] stores a new task in [self._loop_task] and does not cancel
    the task stored there before; [stop()] cancels the stored task only.
    So several tasks can run [_reconnect_loop] on one object.  Here they
    are kept beside the fields of the object: [RL._loop_task] tells
    whether [self._loop_task] is not [None], and the task it refers to is
    the one created last. *)

Module LoopTasks.

(** Where a loop task is: created and not yet run; blocked in
    [self._reconnect_event.wait()]; or released from the wait by
    [set()], which lets it go on even if the event is cleared before it
    runs. *)
Inductive LoopTask :=
  | NotStarted
  | Waiting
  | Released.

(** The object and its loop tasks that are not cancelled, in the order
    of their creation. *)
Record t := {
  self : RL.t;
  tasks : list LoopTask
}.

Definition __init__ : t := {| self := RL.__init__; tasks := [] |}.

(** The events of [RL.Event]; a turn names the task that takes it. *)
Inductive Event :=
  | EvStart
  | EvStop
  | EvLoopTurn (task : nat) (entry_loaded device_disabled : bool)
      (outcome : RL.ConnectOutcome)
  | EvDisconnect (has_entry_data : bool)
  | EvWaitTaskRuns
  | EvSleepOver
  | EvZeroconf (device_name : option string) (records : list RL.RecordUpdate).

Definition object_event (ev : Event) : RL.Event :=
  match ev with
  | EvStart => RL.EvStart
  | EvStop => RL.EvStop
  | EvLoopTurn _ entry_loaded device_disabled outcome =>
      RL.EvLoopTurn entry_loaded device_disabled outcome
  | EvDisconnect has_entry_data => RL.EvDisconnect has_entry_data
  | EvWaitTaskRuns => RL.EvWaitTaskRuns
  | EvSleepOver => RL.EvSleepOver
  | EvZeroconf device_name records => RL.EvZeroconf device_name records
  end.

(** [Event.set()] on an event that is not set releases the tasks blocked
    in [wait()]; on an event that is set it does nothing. *)
Definition release (task : LoopTask) : LoopTask :=
  match task with
  | Waiting => Released
  | task => task
  end.

Definition wake (before after : RL.t) (tasks : list LoopTask) : list LoopTask :=
  if negb (RL._reconnect_event before) && RL._reconnect_event after
  then release <$> tasks
  else tasks.

(** Whether [await self._reconnect_event.wait()] returns for the task. *)
Definition passes_wait (task : LoopTask) (self : RL.t) : bool :=
  match task with
  | NotStarted => RL._reconnect_event self
  | Waiting => false
  | Released => true
  end.

Section with_float.
Variable float_pow : Z → Q.

(** A turn of a task that is not cancelled runs [_reconnect_once] once
    its wait returns, logs an exception that leaves it, and comes back
    to [wait()] with the event cleared.  [start()] adds a task,
    [stop()] cancels the stored one; they and the other events act on
    the object as in [RL.step]. *)
Definition step (ev : Event) (s : t) : t * list RL.Call :=
  match ev with
  | EvLoopTurn task entry_loaded device_disabled outcome =>
      match tasks s !! task with
      | None => (s, [])
      | Some state =>
          if passes_wait state (self s) then
            let '(self', calls, raised) :=
              RL._reconnect_once entry_loaded device_disabled outcome (self s) in
            ({| self := self'; tasks := <[task := Waiting]> (tasks s) |},
             calls ++ if raised then [RL.LogException] else [])
          else ({| self := self s; tasks := <[task := Waiting]> (tasks s) |}, [])
      end
  | _ =>
      let '(self', calls) := RL.step float_pow (object_event ev) (self s) in
      let tasks :=
        match ev with
        | EvStart => tasks s ++ [NotStarted]
        | EvStop => if RL._loop_task (self s) then removelast (tasks s) else tasks s
        | _ => tasks s
        end in
      ({| self := self'; tasks := wake (self s) self' tasks |}, calls)
  end.

Fixpoint run (evs : list Event) (s : t) : t * list RL.Call :=
  match evs with
  | [] => (s, [])
  | ev :: evs =>
      let '(s, calls) := step ev s in
      let '(s, calls') := run evs s in
      (s, calls ++ calls')
  end.

(** No [start()] while a task is stored in [self._loop_task]. *)
Fixpoint starts_apart (evs : list Event) (s : t) : bool :=
  match evs with
  | [] => true
  | ev :: evs =>
      match ev with
      | EvStart => negb (RL._loop_task (self s))
      | _ => true
      end && starts_apart evs (step ev s).1
  end.
End with_float.



(** Every turn is taken by the task created first. *)
Definition turn_of_first (ev : Event) : bool :=
  match ev with
  | EvLoopTurn task _ _ _ => bool_decide (task = 0%nat)
  | _ => true
  end.

(** There is no loop task and none is stored, or there is one, it is
    the stored one, and its wait returns exactly if the event is set:
    the case in which the flags [RL._loop_task] and [RL._reconnect_event]
    tell all about the loop. *)
Definition single_task (s : t) : Prop :=
  match tasks s with
  | [] => RL._loop_task (self s) = false
  | [task] =>
      RL._loop_task (self s) = true ∧
      passes_wait task (self s) = RL._reconnect_event (self s)
  | _ => False
  end.
End LoopTasks.

(** ** [DomainData] *)

Module DomainData.
(** [Store(hass, STORAGE_VERSION, f"esphome.{entry.entry_id}", ...)]: the
    version and the key of the store. *)
Record Store := {
  store_version : Z;
  store_key : string
}.

Definition STORAGE_VERSION : Z := 1.

Section domain.
(** The runtime data of a config entry, whatever it holds. *)
Context {EntryData : Type}.

(** The two dictionaries are keyed by [entry.entry_id] and never
    iterated. *)
Record t := {
  _entry_datas : gmap string EntryData;
  _stores : gmap string Store
}.

Definition new : t := {| _entry_datas := ∅; _stores := ∅ |}.

Definition get_entry_data (self : t) (entry_id : string) : result EntryData :=
  subscript_map (_entry_datas self) entry_id.

Definition set_entry_data (self : t) (entry_id : string) (entry_data : EntryData)
    : result t :=
  if bool_decide (is_Some (_entry_datas self !! entry_id)) then Raise ValueError
  else Ok {| _entry_datas := <[entry_id := entry_data]> (_entry_datas self);
             _stores := _stores self |}.

Definition pop_entry_data (self : t) (entry_id : string) : result (EntryData * t) :=
  match _entry_datas self !! entry_id with
  | Some entry_data =>
      Ok (entry_data,
          {| _entry_datas := delete entry_id (_entry_datas self);
             _stores := _stores self |})
  | None => Raise KeyError
  end.

Definition is_entry_loaded (self : t) (entry_id : string) : bool :=
  bool_decide (is_Some (_entry_datas self !! entry_id)).

(** [self._stores.setdefault(entry.entry_id, Store(...))] *)
Definition get_or_create_store (self : t) (entry_id : string) : Store * t :=
  let store := {| store_version := STORAGE_VERSION;
                  store_key := ("esphome." +:+ entry_id)%string |} in
  match _stores self !! entry_id with
  | Some existing => (existing, self)
  | None =>
      (store, {| _entry_datas := _entry_datas self;
                 _stores := <[entry_id := store]> (_stores self) |})
  end.

(** [DomainData.get(hass)]; [hass_data] is [hass.data.get(DOMAIN)]. *)
Definition get (hass_data : option t) : t * option t :=
  match hass_data with
  | Some domain_data => (domain_data, hass_data)
  | None => (new, Some new)
  end.
End domain.
Arguments t : clear implicits.
End DomainData.

(** [ReconnectLogic._entry_data]: the entry data, or [None] when the
    entry is not loaded. *)
Definition _entry_data {EntryData : Type} (domain_data : DomainData.t EntryData)
    (entry_id : string) : option EntryData :=
  match DomainData.get_entry_data domain_data entry_id with
  | Ok entry_data => Some entry_data
  | Raise _ => None
  end.

(** [_on_disconnect] and a turn of the loop of the reconnect logic of the
    entry [entry_id], with what they read from the domain data. *)
Definition on_disconnect_in {EntryData : Type} (domain_data : DomainData.t EntryData)
    (entry_id : string) (self : RL.t) : RL.t * list RL.Call :=
  RL._on_disconnect
    (match _entry_data domain_data entry_id with Some _ => true | None => false end) self.

Definition loop_turn_in {EntryData : Type} (domain_data : DomainData.t EntryData)
    (entry_id : string) (device_disabled : bool) (outcome : RL.ConnectOutcome)
    (self : RL.t) : RL.t * list RL.Call :=
  RL._reconnect_loop_turn (DomainData.is_entry_loaded domain_data entry_id)
    device_disabled outcome self.

(** ** Reading the snapshot *)

(** [esphome_state_property(func)]: the wrapped property of an entity.
    [func] is the property being wrapped; [VNan] is the float NaN. *)
Definition esphome_state_property
    (func : RuntimeEntryData → EsphomeEntity → result StateValue)
    (entry_data : RuntimeEntryData) (self : EsphomeEntity)
    : result (option StateValue) :=
  has_state ← _has_state entry_data self;
  if negb has_state then Ok None
  else
    val ← func entry_data self;
    match val with
    | VNan => Ok None
    | _ => Ok (Some val)
    end.

(** A property as the platforms write it: [self._state.state]. *)
Definition state_value (entry_data : RuntimeEntryData) (self : EsphomeEntity)
    : result StateValue :=
  new_state ← _state entry_data self;
  Ok (EntityState.value new_state).

(** The states of a platform arriving one after the other. *)
Definition receive_states (component_key : string) (state_type : PyClass)
    (states : list EntityState.t) (entry_data : RuntimeEntryData) : RuntimeEntryData :=
  foldl (λ entry_data new_state,
           apply_op entry_data (OpEntityState component_key state_type new_state))
        entry_data states.

(** The states of the list that are of the platform and for the key. *)
Definition states_for (state_type : PyClass) (key : Z) (states : list EntityState.t)
    : list EntityState.t :=
  filter (λ st, isinstance (EntityState.cls st) state_type = true
                ∧ EntityState.key st = key) states.

(** The notifications of a pass (none if the pass raised). *)
Definition pass_effects (component_key : string) (info_type : PyClass)
    (infos : list EntityInfo.t) (entry_data : RuntimeEntryData) : list Effect :=
  match async_list_entities component_key info_type infos entry_data with
  | Ok (_, effects) => effects
  | Raise _ => []
  end.

(** ** Service calls and events sent by the device: [async_on_service_call] *)

(** [s.split(sep, 1)] for a one-character [sep]: the text before the
    first [sep] and the text after it, or [s] alone when it has no
    [sep]. *)
Fixpoint str_cut (sep : ascii) (s : string) : option (string * string) :=
  match s with
  | EmptyString => None
  | String c s' =>
      if decide (c = sep) then Some (EmptyString, s')
      else prod_map (String c) id <$> str_cut sep s'
  end.

Definition str_split_once (sep : ascii) (s : string) : list string :=
  match str_cut sep s with
  | Some (head, rest) => [head; rest]
  | None => [s]
  end.

(** [d.update(other)] *)
Definition dict_update {K V : Type} `{EqDecision K}
    (d other : PyDict.t K V) : PyDict.t K V :=
  foldl (λ d kv, PyDict.set kv.1 kv.2 d) d other.

Module HomeassistantServiceCall.
Record t {Value : Type} := {
  service : string;
  is_event : bool;
  data : PyDict.t string Value;
  data_template : PyDict.t string string;
  variables : PyDict.t string string
}.
Arguments t : clear implicits.
End HomeassistantServiceCall.

(** What [async_on_service_call] does to Home Assistant: the two errors
    it logs (for [host]), the native tag scan, an event on the bus and a
    blocking service call. *)
Inductive HassCall {Value : Type} :=
  | LogTemplateError (host : string)
  | LogEventDomainError (host : string)
  | AsyncScanTag (tag_id : Value) (device_id : option string)
  | BusAsyncFire (event_type : string) (event_data : PyDict.t string Value)
  | ServicesAsyncCall (domain service_name : string)
      (service_data : PyDict.t string Value).
Arguments HassCall : clear implicits.

Section service_call.
(** The values of the service data, and the template engine:
    [Template(value)] for every item of [data_template], [template.attach]
    and [template.render_complex(data_template, variables)], with [None]
    for a [TemplateError]. *)
Context {Value : Type}.
Variable render_complex :
  PyDict.t string string → PyDict.t string string → option (PyDict.t string Value).

(** The event bus of the core, which is not part of this file:
    whether [hass.bus.async_fire(event_type, event_data)] raises instead
    of firing the event.  It does so for an event type that is too long
    for it, with [MaxLengthExceeded]; nothing in the callback catches
    the exception. *)
Variable async_fire_raises : string → PyDict.t string Value → bool.

(** [service_data] after the [if service.data_template:] block, [None]
    when the block returns after a [TemplateError]. *)
Definition rendered_service_data (service : HomeassistantServiceCall.t Value)
    : option (PyDict.t string Value) :=
  let service_data := HomeassistantServiceCall.data service in
  match HomeassistantServiceCall.data_template service with
  | [] => Some service_data
  | data_template =>
      dict_update service_data
        <$> render_complex data_template (HomeassistantServiceCall.variables service)
  end.

(** [host] and [device_id] are the variables of [async_setup_entry] the
    closure reads. *)
Definition async_on_service_call (host : string) (device_id : option string)
    (service : HomeassistantServiceCall.t Value) : result (list (HassCall Value)) :=
  match str_split_once "."%char (HomeassistantServiceCall.service service) with
  | [domain; service_name] =>
      match rendered_service_data service with
      | None => Ok [LogTemplateError host]
      | Some service_data =>
          if HomeassistantServiceCall.is_event service then
            if decide (domain ≠ "esphome"%string) then Ok [LogEventDomainError host]
            else if decide (service_name = "tag_scanned"%string) then
              tag_id ← subscript service_data "tag_id"%string;
              Ok [AsyncScanTag tag_id device_id]
            else if async_fire_raises (HomeassistantServiceCall.service service) service_data
            then Raise MaxLengthExceeded
            else
              Ok [BusAsyncFire (HomeassistantServiceCall.service service) service_data]
          else Ok [ServicesAsyncCall domain service_name service_data]
      end
  | _ => Raise ValueError
  end.
End service_call.

(** The event types fired on the bus by a list of calls. *)
Definition fired_events {Value : Type} (calls : list (HassCall Value)) : list string :=
  omap (λ c, match c with BusAsyncFire event_type _ => Some event_type | _ => None end)
       calls.

(** ** Forwarding Home Assistant states to the device *)

(** The values of a state attribute: [None], a [bool], an [int] or a
    [str]. *)
Inductive AttrValue :=
  | ANone
  | ABool (b : bool)
  | AInt (z : Z)
  | AStr (s : string).

Global Instance AttrValue_eq_dec : EqDecision AttrValue.
Proof. solve_decision. Defined.

(** [a == b]: a [bool] is an [int] ([True == 1]). *)
Definition py_eq (a b : AttrValue) : bool :=
  match a, b with
  | ANone, ANone => true
  | ABool x, ABool y => bool_decide (x = y)
  | ABool x, AInt z | AInt z, ABool x => bool_decide (Z.b2z x = z)
  | AInt x, AInt y => bool_decide (x = y)
  | AStr x, AStr y => bool_decide (x = y)
  | _, _ => false
  end.

(** [str(v)] *)
Definition py_str (v : AttrValue) : string :=
  match v with
  | ANone => "None"
  | ABool true => "True"
  | ABool false => "False"
  | AInt z => pretty z
  | AStr s => s
  end.

Module State.
Record t := {
  state : string;
  attributes : PyDict.t string AttrValue
}.
End State.

Module StateEvent.
(** The data of a [state_changed] event: a key can be missing, and the
    value of [old_state] and of [new_state] can be [None]. *)
Record t := {
  old_state : option (option State.t);
  new_state : option (option State.t);
  entity_id : option string
}.

Inductive Exc := KeyError | AttributeError.

Inductive CliCall :=
  | SendHomeAssistantState (entity_id : string) (attribute : option string)
      (state : string).

(** [attribute] where it counts as true: neither [None] nor the empty
    string. *)
Definition truthy (attribute : option string) : option string :=
  match attribute with
  | Some a => if decide (a = EmptyString) then None else Some a
  | None => None
  end.

Definition _send_home_assistant_state (entity_id : string)
    (attribute : option string) (state : option State.t) : Exc + list CliCall :=
  match state with
  | None => inr []
  | Some state =>
      match truthy attribute with
      | Some a =>
          if negb (PyDict.contains a (State.attributes state)) then inr []
          else
            match PyDict.get a (State.attributes state) with
            | None => inl KeyError
            | Some attr_val =>
                let send_state :=
                  match attr_val with
                  | ABool b => if b then "on"%string else "off"%string
                  | _ => py_str attr_val
                  end in
                inr [SendHomeAssistantState entity_id attribute send_state]
            end
      | None =>
          inr [SendHomeAssistantState entity_id attribute (State.state state)]
      end
  end.

(** The condition of [send_home_assistant_state_event]; [.state] and
    [.attributes] of a [None] raise [AttributeError]. *)
Definition tracked_unchanged (attribute : option string) (event : t) : Exc + bool :=
  match old_state event with
  | Some (Some old) =>
      match new_state event with
      | None => inr false
      | Some new =>
          match truthy attribute with
          | None =>
              match new with
              | None => inl AttributeError
              | Some new => inr (bool_decide (State.state old = State.state new))
              end
          | Some a =>
              if PyDict.contains a (State.attributes old) then
                match new with
                | None => inl AttributeError
                | Some new =>
                    if PyDict.contains a (State.attributes new) then
                      match PyDict.get a (State.attributes old),
                            PyDict.get a (State.attributes new) with
                      | Some x, Some y => inr (py_eq x y)
                      | _, _ => inl KeyError
                      end
                    else inr false
                end
              else inr false
          end
      end
  | _ => inr false
  end.

Definition send_home_assistant_state_event (attribute : option string)
    (event : t) : Exc + list CliCall :=
  match tracked_unchanged attribute event with
  | inl e => inl e
  | inr true => inr []
  | inr false =>
      match entity_id event with
      | None => inl KeyError
      | Some entity_id =>
          _send_home_assistant_state entity_id attribute (mjoin (new_state event))
      end
  end.
End StateEvent.

(** * Properties *)

Section pydict_lemmas.
Context {K V : Type} `{EqDecision K}.
Implicit Types (d : PyDict.t K V) (k : K) (v : V).

Lemma pydict_contains_true k d : PyDict.contains k d = true ↔ k ∈ PyDict.keys d.
  Proof. unfold PyDict.contains. by rewrite bool_decide_eq_true. Qed.

Lemma pydict_contains_false k d : PyDict.contains k d = false ↔ k ∉ PyDict.keys d.
  Proof. unfold PyDict.contains. by rewrite bool_decide_eq_false. Qed.

Lemma pydict_get_None k d : PyDict.get k d = None ↔ k ∉ PyDict.keys d.
  Proof.
    induction d as [|[k' v'] d IH]; simpl.
    - split; [intros _; apply not_elem_of_nil | done].
    - case_decide as Hk.
      + subst. split; [done | intros Hn; destruct Hn; left].
      + rewrite IH, not_elem_of_cons. tauto.
  Qed.

Lemma pydict_get_Some_elem k v d : PyDict.get k d = Some v → (k, v) ∈ d.
  Proof.
    induction d as [|[k' v'] d IH]; simpl; [done|].
    case_decide as Hk.
    - intros [= <-]. subst. left.
    - intros Hg. right. by apply IH.
  Qed.

Lemma pydict_elem_get k v d : PyDict.wf d → (k, v) ∈ d → PyDict.get k d = Some v.
  Proof.
    unfold PyDict.wf, PyDict.keys.
    induction d as [|[k' v'] d IH]; simpl; intros Hnd Hin.
    - by apply elem_of_nil in Hin.
    - apply NoDup_cons in Hnd as [Hk' Hnd].
      apply elem_of_cons in Hin as [[= -> ->] | Hin].
      + by rewrite decide_True.
      + rewrite decide_False; [by apply IH|].
        intros ->. apply Hk'. apply list_elem_of_fmap. by exists (k', v).
  Qed.

Lemma pydict_keys_pop k d :
    PyDict.keys (PyDict.pop k d) = filter (λ k', k' ≠ k) (PyDict.keys d).
  Proof.
    unfold PyDict.keys.
    induction d as [|[k' v'] d IH]; simpl; [done|].
    rewrite filter_cons. simpl. destruct (decide (k = k')) as [->|Hk].
    - rewrite decide_False by (intros Hne; by apply Hne). done.
    - rewrite decide_True by congruence. simpl. f_equal. apply IH.
  Qed.

Lemma pydict_elem_pop k k' v d :
    (k', v) ∈ PyDict.pop k d ↔ (k', v) ∈ d ∧ k' ≠ k.
  Proof.
    induction d as [|[k1 v1] d IH]; simpl.
    - split; [intros Hin; by apply elem_of_nil in Hin | intros [Hin _]; by apply elem_of_nil in Hin].
    - case_decide as Hk.
      + subst. rewrite IH, elem_of_cons. split; [tauto|].
        intros [[[= -> ->]|Hin] Hne]; [done | tauto].
      + rewrite !elem_of_cons, IH. split.
        * intros [[= -> ->]|[Hin Hne]]; [split; [by left | congruence] | tauto].
        * intros [[[= -> ->]|Hin] Hne]; [by left | right; tauto].
  Qed.

Lemma pydict_pop_notin k d : k ∉ PyDict.keys d → PyDict.pop k d = d.
  Proof.
    unfold PyDict.keys.
    induction d as [|[k' v'] d IH]; simpl; [done|].
    intros Hn. apply not_elem_of_cons in Hn as [Hne Hn].
    rewrite decide_False by done. by rewrite IH.
  Qed.

Lemma pydict_wf_pop k d : PyDict.wf d → PyDict.wf (PyDict.pop k d).
  Proof.
    unfold PyDict.wf. rewrite pydict_keys_pop. apply NoDup_filter.
  Qed.

Lemma pydict_keys_set k v d :
    PyDict.keys (PyDict.set k v d) =
      if PyDict.contains k d then PyDict.keys d else PyDict.keys d ++ [k].
  Proof.
    unfold PyDict.contains, PyDict.keys.
    induction d as [|[k' v'] d IH]; simpl; [done|].
    destruct (decide (k = k')) as [->|Hk].
    - rewrite bool_decide_eq_true_2 by left. done.
    - change ((k', v') :: PyDict.set k v d).*1 with (k' :: (PyDict.set k v d).*1).
      rewrite IH. destruct (bool_decide (k ∈ d.*1)) eqn:Hb.
      + apply bool_decide_eq_true in Hb.
        rewrite bool_decide_eq_true_2; [done|]. by right.
      + apply bool_decide_eq_false in Hb.
        rewrite bool_decide_eq_false_2; [done|].
        apply not_elem_of_cons. done.
  Qed.

Lemma pydict_elem_keys_set k k' v d :
    k' ∈ PyDict.keys (PyDict.set k v d) ↔ k' = k ∨ k' ∈ PyDict.keys d.
  Proof.
    rewrite pydict_keys_set. destruct (PyDict.contains k d) eqn:Hc.
    - apply pydict_contains_true in Hc. split; [tauto|]. intros [->|]; done.
    - rewrite elem_of_app, list_elem_of_singleton. tauto.
  Qed.

Lemma pydict_wf_set k v d : PyDict.wf d → PyDict.wf (PyDict.set k v d).
  Proof.
    unfold PyDict.wf. rewrite pydict_keys_set.
    destruct (PyDict.contains k d) eqn:Hc; [done|].
    apply pydict_contains_false in Hc. intros Hnd.
    apply NoDup_app. split; [done|]. split.
    - intros x Hx Hx'. apply list_elem_of_singleton in Hx'. by subst.
    - apply NoDup_singleton.
  Qed.

Lemma pydict_get_set_eq k v d : PyDict.get k (PyDict.set k v d) = Some v.
  Proof.
    induction d as [|[k' v'] d IH]; simpl.
    - by rewrite decide_True.
    - case_decide as Hk; simpl; [by rewrite decide_True|].
      by rewrite decide_False.
  Qed.

Lemma pydict_get_set_ne k k' v d :
    k' ≠ k → PyDict.get k' (PyDict.set k v d) = PyDict.get k' d.
  Proof.
    intros Hne. induction d as [|[k1 v1] d IH]; simpl.
    - by rewrite decide_False.
    - case_decide as Hk; simpl.
      + subst. by rewrite !decide_False.
      + case_decide; [done | apply IH].
  Qed.

Lemma pydict_get_pop_ne k k' d :
    k' ≠ k → PyDict.get k' (PyDict.pop k d) = PyDict.get k' d.
  Proof.
    intros Hne. induction d as [|[k1 v1] d IH]; simpl; [done|].
    case_decide as Hk; simpl.
    - subst. by rewrite decide_False.
    - case_decide; [done | apply IH].
  Qed.
End pydict_lemmas.

Section dict_of_items_lemmas.
Context {K V : Type} `{EqDecision K}.
Implicit Types (d : PyDict.t K V) (items : list (K * V)).

Lemma foldl_set_get_notin k d items :
    k ∉ items.*1 →
    PyDict.get k (foldl (λ d kv, PyDict.set kv.1 kv.2 d) d items) = PyDict.get k d.
  Proof.
    revert d. induction items as [|[k1 v1] items IH]; intros d Hn; simpl; [done|].
    change (((k1, v1) :: items).*1) with (k1 :: items.*1) in Hn.
    apply not_elem_of_cons in Hn as [Hne Hn].
    rewrite IH by done. by apply pydict_get_set_ne.
  Qed.

Lemma foldl_set_get_in k v d items :
    NoDup items.*1 → (k, v) ∈ items →
    PyDict.get k (foldl (λ d kv, PyDict.set kv.1 kv.2 d) d items) = Some v.
  Proof.
    revert d. induction items as [|[k1 v1] items IH]; intros d Hnd Hin; simpl.
    - by apply elem_of_nil in Hin.
    - change (((k1, v1) :: items).*1) with (k1 :: items.*1) in Hnd.
      apply NoDup_cons in Hnd as [Hk1 Hnd].
      apply elem_of_cons in Hin as [[= -> ->]|Hin].
      + rewrite foldl_set_get_notin by done. apply pydict_get_set_eq.
      + by apply IH.
  Qed.

Lemma foldl_set_keys k d items :
    k ∈ PyDict.keys (foldl (λ d kv, PyDict.set kv.1 kv.2 d) d items) ↔
    k ∈ PyDict.keys d ∨ k ∈ items.*1.
  Proof.
    revert d. induction items as [|[k1 v1] items IH]; intros d; simpl.
    - split; [by left | intros [?|Hin]; [done | by apply elem_of_nil in Hin]].
    - rewrite IH, pydict_elem_keys_set.
      change (((k1, v1) :: items).*1) with (k1 :: items.*1).
      rewrite elem_of_cons. tauto.
  Qed.

Lemma foldl_set_wf d items :
    PyDict.wf d → PyDict.wf (foldl (λ d kv, PyDict.set kv.1 kv.2 d) d items).
  Proof.
    revert d. induction items as [|[k1 v1] items IH]; intros d Hwf; simpl; [done|].
    apply IH. by apply pydict_wf_set.
  Qed.

Lemma dict_of_items_get k v items :
    NoDup items.*1 → (k, v) ∈ items → PyDict.get k (dict_of_items items) = Some v.
  Proof. apply foldl_set_get_in. Qed.

Lemma dict_of_items_keys k items :
    k ∈ PyDict.keys (dict_of_items items) ↔ k ∈ items.*1.
  Proof.
    unfold dict_of_items. rewrite foldl_set_keys. split; [|by right].
    intros [Hin|]; [|done]. by apply elem_of_nil in Hin.
  Qed.

Lemma dict_of_items_wf items : PyDict.wf (dict_of_items items).
  Proof. apply foldl_set_wf. apply NoDup_nil_2. Qed.
End dict_of_items_lemmas.


Lemma pydict_set_notin {K V : Type} `{EqDecision K} (k : K) (v : V) (d : PyDict.t K V) :
  k ∉ PyDict.keys d → PyDict.set k v d = d ++ [(k, v)].
Proof.
  unfold PyDict.keys.
  induction d as [|[k' v'] d IH]; simpl; [done|].
  intros Hn. apply not_elem_of_cons in Hn as [Hne Hn].
  rewrite decide_False by done. by rewrite IH.
Qed.

Lemma subscript_Ok {K V : Type} `{EqDecision K} (d : PyDict.t K V) (k : K) (v : V) :
  PyDict.get k d = Some v → subscript d k = Ok v.
Proof. unfold subscript. by intros ->. Qed.

(** ** [EsphomeEnumMapper] *)

Lemma foldl_set_last {K V : Type} `{EqDecision K} (k : K) (v : V)
    (items1 items2 d : list (K * V)) :
  k ∉ items2.*1 →
  PyDict.get k (foldl (λ d kv, PyDict.set kv.1 kv.2 d) d (items1 ++ (k, v) :: items2))
    = Some v.
Proof.
  intros Hno. rewrite foldl_app. cbn [foldl fst snd].
  rewrite foldl_set_get_notin by done. apply pydict_get_set_eq.
Qed.

Section enum_mapper.
Context {ValT : Type} `{EqDecision ValT}.
Implicit Types (mapping : PyDict.t Z (option ValT)).

Lemma enum_mapper_mapping_items mapping :
  EnumMapper._mapping (EnumMapper.__init__ mapping) =
    ((λ kv, (Some kv.1, kv.2)) <$> mapping) ++ [(None, None)].
Proof.
  simpl. apply pydict_set_notin. unfold PyDict.keys.
  rewrite <- list_fmap_compose. intros Hin.
  apply list_elem_of_fmap in Hin as [[k v] [Heq _]]. discriminate.
Qed.

Lemma enum_mapper_mapping_wf mapping :
  PyDict.wf mapping → PyDict.wf (EnumMapper._mapping (EnumMapper.__init__ mapping)).
Proof.
  intros Hwf. simpl. apply pydict_wf_set.
  unfold PyDict.wf, PyDict.keys in *. rewrite <- list_fmap_compose.
  change (fst ∘ (λ kv : Z * option ValT, (Some kv.1, kv.2)))
    with (Some ∘ (fst : Z * option ValT → Z)).
  rewrite list_fmap_compose. apply NoDup_fmap_2; [|done].
  intros x y [= ->]. done.
Qed.

Lemma enum_mapper_inverse_items mapping :
  EnumMapper._inverse (EnumMapper.__init__ mapping) =
  dict_of_items (((λ kv, (kv.2, Some kv.1)) <$> mapping) ++ [(None, None)]).
Proof.
  unfold EnumMapper.__init__, EnumMapper._inverse.
  change (PyDict.set None None ((λ kv : Z * option ValT, (Some kv.1, kv.2)) <$> mapping))
    with (EnumMapper._mapping (EnumMapper.__init__ mapping)).
  rewrite enum_mapper_mapping_items, fmap_app, <- list_fmap_compose. reflexivity.
Qed.

Lemma enum_mapper_from_esphome mapping e v :
  PyDict.wf mapping → (e, v) ∈ mapping →
  EnumMapper.from_esphome (EnumMapper.__init__ mapping) (Some e) = Ok v.
Proof.
  intros Hwf Hin. unfold EnumMapper.from_esphome. apply subscript_Ok.
  apply pydict_elem_get; [by apply enum_mapper_mapping_wf|].
  rewrite enum_mapper_mapping_items. apply elem_of_app. left.
  apply list_elem_of_fmap. by exists (e, v).
Qed.

Lemma enum_mapper_from_esphome_None mapping :
  EnumMapper.from_esphome (EnumMapper.__init__ mapping) None = Ok None.
Proof.
  unfold EnumMapper.from_esphome. apply subscript_Ok. simpl.
  apply pydict_get_set_eq.
Qed.

Lemma enum_mapper_from_hass_None mapping :
  EnumMapper.from_hass (EnumMapper.__init__ mapping) None = Ok None.
Proof.
  unfold EnumMapper.from_hass. apply subscript_Ok.
  rewrite enum_mapper_inverse_items. unfold dict_of_items.
  apply (foldl_set_last None None _ [] []). apply not_elem_of_nil.
Qed.

(** [from_hass] of a value other than [None] gives the last enum key of
    the mapping with that value. *)
Lemma enum_mapper_from_hass_last (mapping1 mapping2 : list (Z * option ValT)) e (v : ValT) :
  Some v ∉ PyDict.values mapping2 →
  EnumMapper.from_hass (EnumMapper.__init__ (mapping1 ++ (e, Some v) :: mapping2)) (Some v)
    = Ok (Some e).
Proof.
  intros Hv. unfold EnumMapper.from_hass. apply subscript_Ok.
  rewrite enum_mapper_inverse_items. unfold dict_of_items.
  rewrite fmap_app, fmap_cons, <- app_assoc. cbn [app fst snd].
  apply foldl_set_last.
  rewrite fmap_app, <- list_fmap_compose. intros Hin.
  apply elem_of_app in Hin as [Hin|Hin].
  - apply list_elem_of_fmap in Hin as ([e' v'] & Heq & Hin). cbn in Heq.
    apply Hv. apply list_elem_of_fmap. exists (e', v'). by split.
  - apply list_elem_of_singleton in Hin. discriminate.
Qed.

Lemma enum_mapper_from_hass mapping e (v : ValT) :
  NoDup (PyDict.values mapping) → (e, Some v) ∈ mapping →
  EnumMapper.from_hass (EnumMapper.__init__ mapping) (Some v) = Ok (Some e).
Proof.
  intros Hinj Hin. apply list_elem_of_split in Hin as (mapping1 & mapping2 & ->).
  apply enum_mapper_from_hass_last.
  unfold PyDict.values in *. rewrite fmap_app, fmap_cons in Hinj.
  apply NoDup_app in Hinj as (_ & _ & Hinj). by apply NoDup_cons in Hinj as [? _].
Qed.

(** C10, amended: for an injective mapping, [from_esphome] of an enum
    key gives its value, and [from_hass] of that value gives the key
    back unless the value is [None], for which it gives [None];
    [from_esphome] undoes [from_hass] on every value of the mapping, and
    [from_esphome(None)] is [None]. *)
Theorem enum_mapper_round_trip mapping :
  PyDict.wf mapping →
  NoDup (PyDict.values mapping) →
  let mapper := EnumMapper.__init__ mapping in
  (∀ e v, (e, v) ∈ mapping →
     EnumMapper.from_esphome mapper (Some e) = Ok v ∧
     EnumMapper.from_hass mapper v = Ok (match v with Some _ => Some e | None => None end)) ∧
  (∀ v, v ∈ PyDict.values mapping →
     ∃ e, EnumMapper.from_hass mapper v = Ok e ∧
          EnumMapper.from_esphome mapper e = Ok v) ∧
  EnumMapper.from_esphome mapper None = Ok None.
Proof.
  intros Hwf Hinj mapper. split; [|split].
  - intros e v Hin. split; [by apply enum_mapper_from_esphome|].
    destruct v as [v|]; [by apply enum_mapper_from_hass|].
    apply enum_mapper_from_hass_None.
  - intros v Hv. apply list_elem_of_fmap in Hv as [[e v'] [-> Hin]]. cbn [snd].
    destruct v' as [v|].
    + exists (Some e). split; [by apply enum_mapper_from_hass|].
      by apply enum_mapper_from_esphome.
    + exists None. split; [apply enum_mapper_from_hass_None|].
      apply enum_mapper_from_esphome_None.
  - apply enum_mapper_from_esphome_None.
Qed.
End enum_mapper.

(** The mapper of the sensor state classes,
    [{0: None, 1: "measurement"}]. *)
Lemma enum_mapper_round_trip_witness :
  let mapping : PyDict.t Z (option string) := [(0, None); (1, Some "measurement"%string)] in
  let mapper := EnumMapper.__init__ mapping in
  (PyDict.wf mapping ∧ NoDup (PyDict.values mapping)) ∧
  (∀ e v, (e, v) ∈ mapping →
     EnumMapper.from_esphome mapper (Some e) = Ok v ∧
     EnumMapper.from_hass mapper v = Ok (match v with Some _ => Some e | None => None end)) ∧
  (∀ v, v ∈ PyDict.values mapping →
     ∃ e, EnumMapper.from_hass mapper v = Ok e ∧
          EnumMapper.from_esphome mapper e = Ok v) ∧
  EnumMapper.from_esphome mapper None = Ok None.
Proof.
  intros mapping mapper.
  assert (Hwf : PyDict.wf mapping).
  { unfold PyDict.wf, PyDict.keys. apply (bool_decide_unpack _). vm_compute. reflexivity. }
  assert (Hinj : NoDup (PyDict.values mapping)).
  { unfold PyDict.values. apply (bool_decide_unpack _). vm_compute. reflexivity. }
  split; [by split|]. exact (enum_mapper_round_trip mapping Hwf Hinj).
Defined.

(** C10 as stated fails for an injective mapping with the value [None]:
    in [{0: None, 1: "measurement"}] the enum key 0 maps to [None], and
    [from_hass(None)] is [None], not 0, because the item [None: None]
    overwrites the key of [None] in the inverse. *)
Lemma enum_mapper_none_value_counterexample :
  let mapping : PyDict.t Z (option string) := [(0, None); (1, Some "measurement"%string)] in
  ¬ (PyDict.wf mapping → NoDup (PyDict.values mapping) → EnumMapper.round_trip_laws mapping).
Proof.
  intros mapping Hlaws.
  assert (Hwf : PyDict.wf mapping).
  { unfold PyDict.wf, PyDict.keys. apply (bool_decide_unpack _). vm_compute. reflexivity. }
  assert (Hinj : NoDup (PyDict.values mapping)).
  { unfold PyDict.values. apply (bool_decide_unpack _). vm_compute. reflexivity. }
  destruct (Hlaws Hwf Hinj) as (Hkeys & _).
  destruct (Hkeys 0) as (v & Hv & Hback).
  { apply (bool_decide_unpack _). vm_compute. reflexivity. }
  vm_compute in Hv. injection Hv as <-. vm_compute in Hback. discriminate Hback.
Qed.

(** ** Lists *)

Lemma filter_ext_in {A : Type} (P Q : A → Prop)
    `{!∀ x, Decision (P x), !∀ x, Decision (Q x)} (l : list A) :
  (∀ x, x ∈ l → P x ↔ Q x) → filter P l = filter Q l.
Proof.
  induction l as [|a l IH]; intros Hext; [done|].
  assert (Hl : filter P l = filter Q l).
  { apply IH. intros x Hx. apply Hext. by right. }
  destruct (decide (P a)) as [Ha|Ha].
  - rewrite (filter_cons_True P) by done.
    rewrite (filter_cons_True Q) by (apply Hext; [left | done]).
    by rewrite Hl.
  - rewrite (filter_cons_False P) by done.
    rewrite (filter_cons_False Q); [done|].
    intros HQ. apply Ha. apply Hext; [left | done].
Qed.

Lemma filter_none {A : Type} (P : A → Prop) `{!∀ x, Decision (P x)} (l : list A) :
  (∀ x, x ∈ l → ¬ P x) → filter P l = [].
Proof.
  induction l as [|a l IH]; intros Hno; [done|].
  rewrite filter_cons_False by (apply Hno; left).
  apply IH. intros x Hx. apply Hno. by right.
Qed.

Lemma filter_all {A : Type} (P : A → Prop) `{!∀ x, Decision (P x)} (l : list A) :
  (∀ x, x ∈ l → P x) → filter P l = l.
Proof.
  induction l as [|a l IH]; intros Hall; [done|].
  rewrite filter_cons_True by (apply Hall; left).
  f_equal. apply IH. intros x Hx. apply Hall. by right.
Qed.

Lemma pydict_pop_filter {K V : Type} `{EqDecision K} (k : K) (d : PyDict.t K V) :
  PyDict.pop k d = filter (λ kv, kv.1 ≠ k) d.
Proof.
  induction d as [|[k' v'] d IH]; [done|]. cbn [PyDict.pop].
  destruct (decide (k = k')) as [->|Hk].
  - rewrite filter_cons_False by (simpl; intros Hne; by apply Hne). done.
  - rewrite filter_cons_True by (simpl; congruence). by rewrite IH.
Qed.

Lemma pydict_keys_filter {K V : Type} (P : K → Prop) `{!∀ k, Decision (P k)}
    (d : PyDict.t K V) :
  PyDict.keys (filter (λ kv, P kv.1) d) = filter P (PyDict.keys d).
Proof.
  unfold PyDict.keys. induction d as [|[k v] d IH]; [done|].
  change (((k, v) :: d).*1) with (k :: d.*1).
  destruct (decide (P k)) as [Hk|Hk].
  - rewrite !filter_cons_True by done.
    change (((k, v) :: filter (λ kv, P kv.1) d).*1)
      with (k :: (filter (λ kv, P kv.1) d).*1).
    by rewrite IH.
  - rewrite !filter_cons_False by done. done.
Qed.

(** ** Entity reconciliation *)

Section reconcile.
Variables (component_key : string) (info_type : PyClass).
Implicit Types (old new cur : PyDict.t Z EntityInfo.t) (h : Heap).
Implicit Types (infos : list EntityInfo.t) (add : list EsphomeEntity).

Lemma of_platform_cons_in info infos :
  isinstance (EntityInfo.cls info) info_type = true →
  of_platform info_type (info :: infos) = info :: of_platform info_type infos.
Proof. intros Hi. unfold of_platform. by rewrite filter_cons_True. Qed.

Lemma of_platform_cons_out info infos :
  isinstance (EntityInfo.cls info) info_type = false →
  of_platform info_type (info :: infos) = of_platform info_type infos.
Proof.
  intros Hi. unfold of_platform. rewrite filter_cons_False; [done|].
  by rewrite Hi.
Qed.

(** The loop on the heap does to the two dictionary objects what
    [reconcile_iter] does to their contents. *)
Lemma list_entities_iter_step old_infos new_infos h old new add info :
  old_infos ≠ new_infos →
  h !! old_infos = Some old →
  h !! new_infos = Some new →
  list_entities_iter component_key info_type old_infos new_infos (h, add) info =
  (<[new_infos := (reconcile_iter component_key info_type (old, new, add) info).1.2]>
     (<[old_infos := (reconcile_iter component_key info_type (old, new, add) info).1.1]> h),
   (reconcile_iter component_key info_type (old, new, add) info).2).
Proof.
  intros Hne Hold Hnew.
  assert (Hlo : (old_infos < length h)%nat) by (by eapply lookup_lt_Some).
  unfold list_entities_iter, reconcile_iter, deref.
  destruct (negb (isinstance (EntityInfo.cls info) info_type)); cbn [fst snd].
  { rewrite (list_insert_id h old_infos old) by done. by rewrite list_insert_id. }
  rewrite Hold. change (default [] (Some old)) with old.
  destruct (PyDict.contains (EntityInfo.key info) old); cbn [fst snd].
  - rewrite list_lookup_insert_ne by done. rewrite Hnew. done.
  - rewrite Hnew. change (default [] (Some new)) with new.
    rewrite (list_insert_id h old_infos old) by done. done.
Qed.

Lemma list_entities_loop old_infos new_infos infos : ∀ h old new add,
  old_infos ≠ new_infos →
  h !! old_infos = Some old →
  h !! new_infos = Some new →
  foldl (list_entities_iter component_key info_type old_infos new_infos)
        (h, add) infos =
  (<[new_infos := (foldl (reconcile_iter component_key info_type) (old, new, add) infos).1.2]>
     (<[old_infos := (foldl (reconcile_iter component_key info_type) (old, new, add) infos).1.1]> h),
   (foldl (reconcile_iter component_key info_type) (old, new, add) infos).2).
Proof.
  induction infos as [|info infos IH]; intros h old new add Hne Hold Hnew.
  - simpl. rewrite (list_insert_id h old_infos old) by done.
    by rewrite list_insert_id.
  - assert (Hlo : (old_infos < length h)%nat) by (by eapply lookup_lt_Some).
    assert (Hln : (new_infos < length h)%nat) by (by eapply lookup_lt_Some).
    cbn [foldl].
    rewrite (list_entities_iter_step old_infos new_infos h old new add info) by done.
    destruct (reconcile_iter component_key info_type (old, new, add) info)
      as [[old1 new1] add1]. cbn [fst snd].
    rewrite (IH _ old1 new1 add1); [| done | |].
    + rewrite (list_insert_insert_ne _ old_infos new_infos) by done.
      by rewrite !list_insert_insert_eq.
    + rewrite list_lookup_insert_ne by done.
      apply list_lookup_insert_eq. done.
    + apply list_lookup_insert_eq. by rewrite length_insert.
Qed.

(** The three components of the result of the loop. *)
Lemma reconcile_fold_old infos : ∀ old new add,
  (foldl (reconcile_iter component_key info_type) (old, new, add) infos).1.1 =
  filter (λ kv, kv.1 ∉ EntityInfo.key <$> of_platform info_type infos) old.
Proof.
  induction infos as [|info infos IH]; intros old new add.
  - simpl. symmetry. apply filter_all. intros x _. apply not_elem_of_nil.
  - cbn [foldl]. unfold reconcile_iter at 2.
    destruct (isinstance (EntityInfo.cls info) info_type) eqn:Hi; cbn [negb].
    + rewrite of_platform_cons_in by done. rewrite fmap_cons.
      destruct (PyDict.contains (EntityInfo.key info) old) eqn:Hc; rewrite IH.
      * rewrite pydict_pop_filter, list_filter_filter.
        apply list_filter_iff. intros [k v]. simpl.
        rewrite not_elem_of_cons. tauto.
      * apply pydict_contains_false in Hc.
        apply filter_ext_in. intros [k v] Hin. simpl.
        rewrite not_elem_of_cons. split; [|tauto].
        intros Hk. split; [|done]. intros ->. apply Hc.
        apply list_elem_of_fmap. by exists (EntityInfo.key info, v).
    + rewrite of_platform_cons_out by done. apply IH.
Qed.

Lemma reconcile_fold_new infos : ∀ old new add,
  (foldl (reconcile_iter component_key info_type) (old, new, add) infos).1.2 =
  foldl (λ d kv, PyDict.set kv.1 kv.2 d) new
        ((λ info, (EntityInfo.key info, info)) <$> of_platform info_type infos).
Proof.
  induction infos as [|info infos IH]; intros old new add; [done|].
  cbn [foldl]. unfold reconcile_iter at 2.
  destruct (isinstance (EntityInfo.cls info) info_type) eqn:Hi; cbn [negb].
  - rewrite of_platform_cons_in by done. rewrite fmap_cons. cbn [foldl].
    destruct (PyDict.contains (EntityInfo.key info) old); by rewrite IH.
  - rewrite of_platform_cons_out by done. apply IH.
Qed.

Lemma reconcile_fold_add infos : ∀ old new add,
  NoDup (EntityInfo.key <$> of_platform info_type infos) →
  (foldl (reconcile_iter component_key info_type) (old, new, add) infos).2 =
  add ++ (new_entity component_key <$> to_add old (of_platform info_type infos)).
Proof.
  induction infos as [|info infos IH]; intros old new add Hnd.
  - simpl. by rewrite app_nil_r.
  - cbn [foldl]. unfold reconcile_iter at 2.
    destruct (isinstance (EntityInfo.cls info) info_type) eqn:Hi; cbn [negb].
    + rewrite of_platform_cons_in in Hnd |- * by done.
      rewrite fmap_cons in Hnd. apply NoDup_cons in Hnd as [Hk Hnd].
      unfold to_add.
      destruct (PyDict.contains (EntityInfo.key info) old) eqn:Hc; rewrite IH by done.
      * apply pydict_contains_true in Hc.
        rewrite filter_cons_False by (intros Hn; by apply Hn).
        f_equal. f_equal. unfold to_add. apply filter_ext_in. intros x Hx.
        rewrite pydict_keys_pop, list_elem_of_filter.
        split; [|tauto]. intros Hn Hin. apply Hn. split; [|done].
        intros Heq. apply Hk. rewrite <- Heq.
        apply list_elem_of_fmap. by exists x.
      * apply pydict_contains_false in Hc.
        rewrite filter_cons_True by done.
        rewrite fmap_cons, <- app_assoc. reflexivity.
    + rewrite of_platform_cons_out in Hnd |- * by done. by apply IH.
Qed.
End reconcile.

Section reconcile_pass.
Variables (component_key : string) (info_type : PyClass).
Implicit Types (old new cur : list (Z * EntityInfo.t)).
Implicit Types (infos : list EntityInfo.t) (entry_data : RuntimeEntryData).

Lemma current_Some entry_data cur :
  current entry_data component_key = Some cur ↔
  ∃ r, info entry_data !! component_key = Some r ∧ heap entry_data !! r = Some cur.
Proof.
  unfold current. destruct (info entry_data !! component_key) as [r|]; simpl.
  - split; [intros Hr; by exists r | intros (r' & [= <-] & Hr); done].
  - split; [done | intros (r' & [=] & _)].
Qed.

Lemma previous_Some entry_data prev :
  previous entry_data component_key = Some prev ↔
  ∃ r, old_info entry_data !! component_key = Some r ∧ heap entry_data !! r = Some prev.
Proof.
  unfold previous. destruct (old_info entry_data !! component_key) as [r|]; simpl.
  - split; [intros Hr; by exists r | intros (r' & [= <-] & Hr); done].
  - split; [done | intros (r' & [=] & _)].
Qed.

(** What the first part of a pass computes and leaves on the heap. *)
Lemma list_entities_diff_run infos entry_data r cur :
  info entry_data !! component_key = Some r →
  heap entry_data !! r = Some cur →
  list_entities_diff component_key info_type infos entry_data =
  Ok ({| heap :=
           <[length (heap entry_data) :=
               (foldl (reconcile_iter component_key info_type) (cur, [], []) infos).1.2]>
             (<[r := (foldl (reconcile_iter component_key info_type) (cur, [], []) infos).1.1]>
                (heap entry_data ++ [[]]));
         info := info entry_data;
         old_info := old_info entry_data;
         state := state entry_data |},
      length (heap entry_data),
      (foldl (reconcile_iter component_key info_type) (cur, [], []) infos).2,
      (λ info, RemoveEntity component_key (EntityInfo.key info)) <$>
        PyDict.values (foldl (reconcile_iter component_key info_type) (cur, [], []) infos).1.1).
Proof.
  intros Hr Hcur.
  assert (Hlt : (r < length (heap entry_data))%nat) by (by eapply lookup_lt_Some).
  unfold list_entities_diff, subscript_map, alloc. rewrite Hr. cbn [mbind result_bind].
  rewrite (list_entities_loop component_key info_type r (length (heap entry_data))
             infos _ cur [] []).
  - unfold deref.
    rewrite list_lookup_insert_ne by lia.
    rewrite list_lookup_insert_eq by (rewrite length_app; simpl; lia).
    reflexivity.
  - lia.
  - by rewrite lookup_app_l.
  - by rewrite list_lookup_middle.
Qed.

Lemma async_list_entities_run infos entry_data r cur :
  info entry_data !! component_key = Some r →
  heap entry_data !! r = Some cur →
  async_list_entities component_key info_type infos entry_data =
  Ok ({| heap :=
           <[length (heap entry_data) :=
               (foldl (reconcile_iter component_key info_type) (cur, [], []) infos).1.2]>
             (<[r := (foldl (reconcile_iter component_key info_type) (cur, [], []) infos).1.1]>
                (heap entry_data ++ [[]]));
         info := <[component_key := length (heap entry_data)]> (info entry_data);
         old_info := <[component_key := r]> (old_info entry_data);
         state := state entry_data |},
      ((λ info, RemoveEntity component_key (EntityInfo.key info)) <$>
         PyDict.values (foldl (reconcile_iter component_key info_type) (cur, [], []) infos).1.1)
      ++ [AddEntities (foldl (reconcile_iter component_key info_type) (cur, [], []) infos).2]).
Proof.
  intros Hr Hcur. unfold async_list_entities.
  rewrite (list_entities_diff_run infos entry_data r cur) by done.
  cbn [mbind result_bind]. unfold list_entities_commit, subscript_map.
  cbn [info heap old_info state]. rewrite Hr. reflexivity.
Qed.

(** A pass succeeds as soon as the platform has been set up. *)
Lemma async_list_entities_total infos entry_data :
  is_Some (current entry_data component_key) →
  ∃ entry_data' effects,
    async_list_entities component_key info_type infos entry_data = Ok (entry_data', effects).
Proof.
  intros [cur Hcur]. apply current_Some in Hcur as (r & Hr & Hcur).
  eexists _, _. by apply async_list_entities_run.
Qed.
End reconcile_pass.

Lemma foldl_set_fresh {K V : Type} `{EqDecision K} (items d : list (K * V)) :
  NoDup (d.*1 ++ items.*1) →
  foldl (λ d kv, PyDict.set kv.1 kv.2 d) d items = d ++ items.
Proof.
  revert d. induction items as [|[k v] items IH]; intros d Hnd.
  - by rewrite app_nil_r.
  - cbn [foldl fst snd]. rewrite fmap_cons in Hnd. cbn [fst] in Hnd.
    rewrite pydict_set_notin.
    + rewrite IH; [by rewrite <- app_assoc|].
      rewrite fmap_app. cbn [fmap list_fmap fst]. by rewrite <- app_assoc.
    + apply NoDup_app in Hnd as (_ & Hdis & _). intros Hin.
      apply (Hdis k Hin). left.
Qed.

Lemma dict_of_items_fresh {K V : Type} `{EqDecision K} (items : list (K * V)) :
  NoDup items.*1 → dict_of_items items = items.
Proof. intros Hnd. unfold dict_of_items. by rewrite foldl_set_fresh. Qed.

Lemma keyed_values_keys (d : list (Z * EntityInfo.t)) :
  keyed d → EntityInfo.key <$> PyDict.values d = PyDict.keys d.
Proof.
  unfold PyDict.values, PyDict.keys.
  induction d as [|[k i] d IH]; intros Hk; [done|].
  rewrite !fmap_cons. cbn [fst snd]. f_equal.
  - apply Hk. left.
  - apply IH. intros k' i' Hin. apply Hk. by right.
Qed.

Lemma keyed_filter (P : Z * EntityInfo.t → Prop) `{!∀ x, Decision (P x)}
    (d : list (Z * EntityInfo.t)) :
  keyed d → keyed (filter P d).
Proof.
  intros Hk k i Hin. apply list_elem_of_filter in Hin as [_ Hin]. by apply Hk.
Qed.

Lemma keyed_items (incoming : list EntityInfo.t) :
  keyed ((λ info, (EntityInfo.key info, info)) <$> incoming).
Proof.
  intros k i Hin. apply list_elem_of_fmap in Hin as (i' & [= -> ->] & _). done.
Qed.

Lemma items_keys (incoming : list EntityInfo.t) :
  ((λ info, (EntityInfo.key info, info)) <$> incoming).*1 = EntityInfo.key <$> incoming.
Proof. by rewrite <- list_fmap_compose. Qed.

Section classified.
Variables (component_key : string) (info_type : PyClass).
Implicit Types (cur : list (Z * EntityInfo.t)).
Implicit Types (infos incoming : list EntityInfo.t) (entry_data : RuntimeEntryData).

Lemma reconcile_fold_removals cur infos :
  keyed cur →
  (λ info, RemoveEntity component_key (EntityInfo.key info)) <$>
    PyDict.values (foldl (reconcile_iter component_key info_type) (cur, [], []) infos).1.1 =
  RemoveEntity component_key <$> to_remove cur (of_platform info_type infos).
Proof.
  intros Hk. rewrite reconcile_fold_old.
  rewrite (list_fmap_compose EntityInfo.key (RemoveEntity component_key)).
  rewrite keyed_values_keys by (by apply keyed_filter).
  unfold to_remove. f_equal.
  exact (pydict_keys_filter (λ k, k ∉ EntityInfo.key <$> of_platform info_type infos) cur).
Qed.

Lemma reconcile_fold_new_fresh cur infos :
  NoDup (EntityInfo.key <$> of_platform info_type infos) →
  (foldl (reconcile_iter component_key info_type) (cur, [], []) infos).1.2 =
  (λ info, (EntityInfo.key info, info)) <$> of_platform info_type infos.
Proof.
  intros Hnd. rewrite reconcile_fold_new.
  apply (dict_of_items_fresh ((λ info, (EntityInfo.key info, info)) <$> of_platform info_type infos)).
  by rewrite items_keys.
Qed.

Lemma keep_or_add cur incoming info :
  info ∈ incoming ↔ info ∈ to_keep cur incoming ∨ info ∈ to_add cur incoming.
Proof.
  unfold to_keep, to_add. rewrite !list_elem_of_filter.
  destruct (decide (EntityInfo.key info ∈ PyDict.keys cur)); tauto.
Qed.

Lemma kept_not_added cur incoming info :
  info ∈ to_keep cur incoming →
  new_entity component_key info ∉ new_entity component_key <$> to_add cur incoming.
Proof.
  unfold to_keep, to_add. rewrite list_elem_of_filter. intros [Hin _] Hadd.
  apply list_elem_of_fmap in Hadd as (info' & Heq & Hin').
  apply list_elem_of_filter in Hin' as [Hnot _]. apply Hnot.
  injection Heq as <-. done.
Qed.
End classified.

(** A pass from a state whose current generation is keyed. *)
Lemma pass_classified_keyed component_key info_type infos entry_data cur :
  current entry_data component_key = Some cur →
  keyed cur →
  NoDup (EntityInfo.key <$> of_platform info_type infos) →
  pass_as_classified component_key info_type infos entry_data.
Proof.
  intros Hcur Hkeyed Hnd.
  pose proof Hcur as Hcur'. apply current_Some in Hcur' as (r & Hr & Hh).
  assert (Hlt : (r < length (heap entry_data))%nat) by (by eapply lookup_lt_Some).
  pose proof (list_entities_diff_run component_key info_type infos entry_data r cur Hr Hh) as Hdiff.
  pose proof (async_list_entities_run component_key info_type infos entry_data r cur Hr Hh) as Hrun.
  rewrite (reconcile_fold_removals component_key info_type cur infos Hkeyed) in Hdiff, Hrun.
  rewrite (reconcile_fold_add component_key info_type infos cur [] [] Hnd) in Hdiff, Hrun.
  rewrite (reconcile_fold_new_fresh component_key info_type cur infos Hnd) in Hdiff, Hrun.
  rewrite app_nil_l in Hdiff, Hrun.
  unfold pass_as_classified.
  eexists cur, _, _, _, _. cbv zeta.
  split; [exact Hcur|]. split; [exact Hdiff|]. split; [reflexivity|].
  split.
  { unfold list_entities_commit, subscript_map. cbn [info heap old_info state].
    rewrite Hr. reflexivity. }
  split; [exact Hrun|]. split.
  { unfold current. cbn [info heap]. rewrite lookup_insert_eq. cbn [mbind option_bind].
    apply list_lookup_insert_eq. rewrite length_insert, length_app. simpl. lia. }
  split.
  - intros k info. rewrite list_elem_of_fmap. rewrite <- keep_or_add. split.
    + intros (info' & [= -> ->] & Hin). done.
    + intros [-> Hin]. by exists info.
  - intros info. apply kept_not_added.
Qed.

(** The scenario of the specification: one removal notification for key
    1, then one batch with the entity of key 4. *)
Example reconnect_scenario_effects :
  let infos1 := [sensor_info 1 "a"; sensor_info 2 "b"; sensor_info 3 "c"] in
  let infos2 := [sensor_info 2 "b"; sensor_info 3 "c"; sensor_info 4 "d"] in
  let entry_data := after_pass "sensor" "SensorInfo" infos1 sensor_entry_data in
  ∃ entry_data',
    async_list_entities "sensor" "SensorInfo" infos2 entry_data =
    Ok (entry_data',
        [RemoveEntity "sensor" 1;
         AddEntities [{| _component_key := "sensor"; _key := 4 |}]]).
Proof. eexists. vm_compute. reflexivity. Qed.

(** C3 (amended): for a list of descriptors with pairwise distinct keys,
    a second pass with the same list builds no entity and sends no
    removal notification, and leaves the current generation as it is. *)
Theorem second_pass_idempotent component_key info_type infos entry_data :
  is_Some (current entry_data component_key) →
  NoDup (EntityInfo.key <$> of_platform info_type infos) →
  second_pass_quiet component_key info_type infos entry_data.
Proof.
  intros [cur Hcur] Hnd. apply current_Some in Hcur as (r & Hr & Hh).
  assert (Hlt : (r < length (heap entry_data))%nat) by (by eapply lookup_lt_Some).
  pose proof (async_list_entities_run component_key info_type infos entry_data r cur Hr Hh) as Hrun.
  rewrite (reconcile_fold_new_fresh component_key info_type cur infos Hnd) in Hrun.
  set (incoming := of_platform info_type infos) in *.
  set (items := (λ info, (EntityInfo.key info, info)) <$> incoming) in *.
  match type of Hrun with _ = Ok (?e, ?eff) => set (entry_data1 := e) in *; set (effects1 := eff) in * end.
  assert (Hr1 : info entry_data1 !! component_key = Some (length (heap entry_data))).
  { unfold entry_data1. cbn [info]. apply lookup_insert_eq. }
  assert (Hh1 : heap entry_data1 !! length (heap entry_data) = Some items).
  { unfold entry_data1. cbn [heap]. apply list_lookup_insert_eq.
    rewrite length_insert, length_app. simpl. lia. }
  pose proof (async_list_entities_run component_key info_type infos entry_data1 _ items Hr1 Hh1) as Hrun2.
  rewrite (reconcile_fold_new_fresh component_key info_type items infos Hnd) in Hrun2.
  rewrite (reconcile_fold_add component_key info_type infos items [] [] Hnd) in Hrun2.
  rewrite reconcile_fold_old in Hrun2.
  fold incoming in Hrun2. fold items in Hrun2.
  assert (Hold : filter (λ kv : Z * EntityInfo.t, kv.1 ∉ EntityInfo.key <$> incoming) items = []).
  { apply filter_none. intros [k i] Hin Hnot. apply Hnot.
    apply list_elem_of_fmap in Hin as (i' & [= -> ->] & Hin).
    apply list_elem_of_fmap. by exists i'. }
  assert (Hadd : to_add items incoming = []).
  { unfold to_add. apply filter_none. intros i Hin Hnot. apply Hnot.
    unfold PyDict.keys, items. rewrite items_keys.
    apply list_elem_of_fmap. by exists i. }
  rewrite Hold, Hadd in Hrun2. cbn [PyDict.values fmap list_fmap app] in Hrun2.
  unfold second_pass_quiet. eexists entry_data1, effects1, _.
  split; [exact Hrun|]. split; [exact Hrun2|].
  unfold current. cbn [info heap]. rewrite lookup_insert_eq, Hr1.
  cbn [mbind option_bind]. rewrite Hh1.
  apply list_lookup_insert_eq. rewrite length_insert, length_app.
  simpl. lia.
Qed.

Lemma second_pass_idempotent_witness :
  let infos := [sensor_info 1 "a"; sensor_info 2 "b"; sensor_info 3 "c"] in
  (is_Some (current sensor_entry_data "sensor") ∧
   NoDup (EntityInfo.key <$> of_platform "SensorInfo" infos)) ∧
  second_pass_quiet "sensor" "SensorInfo" infos sensor_entry_data.
Proof.
  intros infos.
  assert (H1 : is_Some (current sensor_entry_data "sensor")).
  { exists []. vm_compute. reflexivity. }
  assert (H2 : NoDup (EntityInfo.key <$> of_platform "SensorInfo" infos)).
  { apply (bool_decide_unpack _). vm_compute. reflexivity. }
  split; [done|].
  exact (second_pass_idempotent "sensor" "SensorInfo" infos sensor_entry_data H1 H2).
Defined.

(** C3 as stated fails when the list names a key twice: in the second
    pass the first occurrence pops the key and the second occurrence is
    taken for a new entity. *)
Lemma second_pass_duplicate_key_counterexample :
  ¬ second_pass_quiet "sensor" "SensorInfo"
      [sensor_info 1 "a"; sensor_info 1 "a"] sensor_entry_data.
Proof.
  intros (entry_data1 & effects1 & entry_data2 & Hfirst & Hsecond & _).
  vm_compute in Hfirst. injection Hfirst as <- <-.
  vm_compute in Hsecond. discriminate Hsecond.
Qed.

(** ** The two generations *)

Lemma heap_separated_empty : heap_separated empty_entry_data.
Proof.
  unfold heap_separated, empty_entry_data. cbn [info old_info heap].
  repeat split; intros *; rewrite lookup_empty; done.
Qed.

Lemma generations_disjoint_empty : generations_disjoint empty_entry_data.
Proof.
  intros c cur prev k Hcur. unfold current, empty_entry_data in Hcur.
  cbn [info] in Hcur. by rewrite lookup_empty in Hcur.
Qed.

Lemma heap_separated_setup component_key entry_data :
  heap_separated entry_data →
  heap_separated (platform_async_setup_entry component_key entry_data).
Proof.
  intros (Ha & Hb & Hc & Hd & He).
  unfold heap_separated, platform_async_setup_entry, alloc. cbn [info old_info heap].
  rewrite !length_app. cbn [length].
  split; [|split; [|split; [|split]]].
  - intros c r. rewrite lookup_insert. case_decide.
    + intros [= <-]. lia.
    + intros Hr. apply Ha in Hr. lia.
  - intros c r. rewrite lookup_insert. case_decide.
    + intros [= <-]. lia.
    + intros Hr. apply Hb in Hr. lia.
  - intros c1 c2 r. rewrite !lookup_insert. repeat case_decide; subst.
    + done.
    + intros [= <-] Hr. apply Ha in Hr. lia.
    + intros Hr [= <-]. apply Ha in Hr. lia.
    + apply Hc.
  - intros c1 c2 r. rewrite !lookup_insert. repeat case_decide; subst.
    + done.
    + intros [= <-] Hr. apply Hb in Hr. lia.
    + intros Hr [= <-]. apply Hb in Hr. lia.
    + apply Hd.
  - intros c1 c2 r. rewrite !lookup_insert. repeat case_decide; subst.
    + intros [= <-]. intros [=]. lia.
    + intros [= <-] Hr. apply Hb in Hr. lia.
    + intros Hr [= <-]. apply Ha in Hr. lia.
    + apply He.
Qed.

Section generations.
Variables (component_key : string) (info_type : PyClass).
Implicit Types (cur prev : list (Z * EntityInfo.t)).
Implicit Types (infos : list EntityInfo.t) (entry_data : RuntimeEntryData).

(** The state a pass leaves behind, written out. *)
Lemma pass_heap_separated infos entry_data entry_data' effects :
  heap_separated entry_data →
  async_list_entities component_key info_type infos entry_data = Ok (entry_data', effects) →
  heap_separated entry_data'.
Proof.
  intros (Ha & Hb & Hc & Hd & He) Hrun.
  destruct (info entry_data !! component_key) as [r|] eqn:Hr.
  2:{ unfold async_list_entities, list_entities_diff, subscript_map in Hrun.
      rewrite Hr in Hrun. discriminate. }
  pose proof (Ha _ _ Hr) as Hlt.
  destruct (lookup_lt_is_Some_2 (heap entry_data) r Hlt) as [cur Hh].
  rewrite (async_list_entities_run component_key info_type infos entry_data r cur Hr Hh) in Hrun.
  injection Hrun as <- _.
  unfold heap_separated. cbn [info old_info heap].
  rewrite !length_insert, length_app. cbn [length].
  split; [|split; [|split; [|split]]].
  - intros c r'. rewrite lookup_insert. case_decide.
    + intros [= <-]. lia.
    + intros Hr'. apply Ha in Hr'. lia.
  - intros c r'. rewrite lookup_insert. case_decide.
    + intros [= <-]. lia.
    + intros Hr'. apply Hb in Hr'. lia.
  - intros c1 c2 r'. rewrite !lookup_insert. repeat case_decide; subst.
    + done.
    + intros [= <-] Hr'. apply Ha in Hr'. lia.
    + intros Hr' [= <-]. apply Ha in Hr'. lia.
    + apply Hc.
  - intros c1 c2 r'. rewrite !lookup_insert. repeat case_decide; subst.
    + done.
    + intros [= <-] Hr'. destruct (He _ _ _ Hr Hr').
    + intros Hr' [= <-]. destruct (He _ _ _ Hr Hr').
    + apply Hd.
  - intros c1 c2 r'. rewrite !lookup_insert. repeat case_decide; subst.
    + intros [= <-] [= ->]. lia.
    + intros [= <-] Hr'. apply Hb in Hr'. lia.
    + intros Hr' [= <-]. pose proof (Hc _ _ _ Hr Hr'). congruence.
    + apply He.
Qed.

(** A pass leaves the generations of the other kinds alone. *)
Lemma pass_frame infos entry_data entry_data' effects c :
  heap_separated entry_data →
  async_list_entities component_key info_type infos entry_data = Ok (entry_data', effects) →
  c ≠ component_key →
  current entry_data' c = current entry_data c ∧
  previous entry_data' c = previous entry_data c.
Proof.
  intros (Ha & Hb & Hc & Hd & He) Hrun Hne.
  destruct (info entry_data !! component_key) as [r|] eqn:Hr.
  2:{ unfold async_list_entities, list_entities_diff, subscript_map in Hrun.
      rewrite Hr in Hrun. discriminate. }
  pose proof (Ha _ _ Hr) as Hlt.
  destruct (lookup_lt_is_Some_2 (heap entry_data) r Hlt) as [cur Hh].
  rewrite (async_list_entities_run component_key info_type infos entry_data r cur Hr Hh) in Hrun.
  injection Hrun as <- _.
  unfold current, previous. cbn [info old_info heap].
  rewrite !lookup_insert_ne by done. split.
  - destruct (info entry_data !! c) as [r'|] eqn:Hr'; [|done]. cbn [mbind option_bind].
    pose proof (Ha _ _ Hr') as Hlt'.
    assert (r' ≠ r) by (intros ->; apply Hne; by eapply Hc).
    rewrite list_lookup_insert_ne by lia.
    rewrite list_lookup_insert_ne by done.
    by rewrite lookup_app_l.
  - destruct (old_info entry_data !! c) as [r'|] eqn:Hr'; [|done]. cbn [mbind option_bind].
    pose proof (Hb _ _ Hr') as Hlt'.
    assert (r' ≠ r) by (intros ->; by eapply He).
    rewrite list_lookup_insert_ne by lia.
    rewrite list_lookup_insert_ne by done.
    by rewrite lookup_app_l.
Qed.

(** The generations of the kind of the pass. *)
Lemma pass_generations infos entry_data cur :
  current entry_data component_key = Some cur →
  ∃ entry_data' effects cur' prev',
    async_list_entities component_key info_type infos entry_data = Ok (entry_data', effects) ∧
    current entry_data' component_key = Some cur' ∧
    previous entry_data' component_key = Some prev' ∧
    PyDict.keys prev' = to_remove cur (of_platform info_type infos) ∧
    (∀ k, k ∈ PyDict.keys cur' ↔ k ∈ EntityInfo.key <$> of_platform info_type infos).
Proof.
  intros Hcur. apply current_Some in Hcur as (r & Hr & Hh).
  assert (Hlt : (r < length (heap entry_data))%nat) by (by eapply lookup_lt_Some).
  eexists _, _, _, _. split; [by apply async_list_entities_run|].
  unfold current, previous. cbn [info old_info heap].
  rewrite !lookup_insert_eq. cbn [mbind option_bind].
  split; [|split; [|split]].
  - apply list_lookup_insert_eq. rewrite length_insert, length_app. simpl. lia.
  - rewrite list_lookup_insert_ne by lia.
    apply list_lookup_insert_eq. rewrite length_app. simpl. lia.
  - rewrite reconcile_fold_old. unfold to_remove.
    exact (pydict_keys_filter (λ k, k ∉ EntityInfo.key <$> of_platform info_type infos) cur).
  - intros k. rewrite reconcile_fold_new, foldl_set_keys, items_keys.
    split; [|by right]. intros [Hin|]; [|done]. by apply elem_of_nil in Hin.
Qed.
End generations.

Lemma snapshot_inv_empty : snapshot_inv empty_entry_data.
Proof. split; [apply heap_separated_empty | apply generations_disjoint_empty]. Qed.

Lemma snapshot_inv_setup component_key entry_data :
  snapshot_inv entry_data →
  snapshot_inv (platform_async_setup_entry component_key entry_data).
Proof.
  intros [Hsep Hdis]. split; [by apply heap_separated_setup|].
  destruct Hsep as (Ha & Hb & _).
  intros c cur prev k. unfold current, previous, platform_async_setup_entry, alloc.
  cbn [info old_info heap]. rewrite !lookup_insert.
  case_decide as Hc.
  - cbn [mbind option_bind]. rewrite lookup_app_l by (rewrite length_app; simpl; lia).
    rewrite list_lookup_middle by done. intros [= <-] _ [Hin _].
    by apply elem_of_nil in Hin.
  - intros Hcur Hprev. apply (Hdis c cur prev k).
    + unfold current. destruct (info entry_data !! c) as [r|] eqn:Hr; [|done].
      cbn [mbind option_bind] in *. pose proof (Ha _ _ Hr).
      rewrite lookup_app_l in Hcur by (rewrite length_app; simpl; lia).
      by rewrite lookup_app_l in Hcur.
    + unfold previous. destruct (old_info entry_data !! c) as [r|] eqn:Hr; [|done].
      cbn [mbind option_bind] in *. pose proof (Hb _ _ Hr).
      rewrite lookup_app_l in Hprev by (rewrite length_app; simpl; lia).
      by rewrite lookup_app_l in Hprev.
Qed.

(** A pass keeps the invariant of the snapshot. *)
Lemma pass_keeps_invariant component_key info_type infos entry_data cur :
  snapshot_inv entry_data →
  current entry_data component_key = Some cur →
  ∃ entry_data' effects cur' prev',
    async_list_entities component_key info_type infos entry_data = Ok (entry_data', effects) ∧
    snapshot_inv entry_data' ∧
    current entry_data' component_key = Some cur' ∧
    previous entry_data' component_key = Some prev' ∧
    PyDict.keys prev' = to_remove cur (of_platform info_type infos) ∧
    (∀ k, k ∈ PyDict.keys cur' ↔ k ∈ EntityInfo.key <$> of_platform info_type infos) ∧
    (∀ k, ¬ (k ∈ PyDict.keys cur' ∧ k ∈ PyDict.keys prev')).
Proof.
  intros [Hsep Hdis] Hcur.
  destruct (pass_generations component_key info_type infos entry_data cur Hcur)
    as (entry_data' & effects & cur' & prev' & Hrun & Hcur' & Hprev' & Hkp & Hkc).
  assert (Hapart : ∀ k, ¬ (k ∈ PyDict.keys cur' ∧ k ∈ PyDict.keys prev')).
  { intros k [Hc Hp]. rewrite Hkp in Hp. apply Hkc in Hc.
    unfold to_remove in Hp. apply list_elem_of_filter in Hp as [Hnot _]. by apply Hnot. }
  exists entry_data', effects, cur', prev'.
  split; [done|]. split; [|done].
  split; [by eapply pass_heap_separated|].
  intros c cur2 prev2 k Hc2 Hp2.
  destruct (decide (c = component_key)) as [->|Hne].
  - rewrite Hcur' in Hc2. rewrite Hprev' in Hp2.
    injection Hc2 as <-. injection Hp2 as <-. apply Hapart.
  - destruct (pass_frame component_key info_type infos entry_data entry_data' effects c
                Hsep Hrun Hne) as [Hfc Hfp].
    rewrite Hfc in Hc2. rewrite Hfp in Hp2. by apply (Hdis c).
Qed.

(** After the second pass of the scenario the previous generation holds
    key 1 and the current one the keys 2, 3, 4. *)
Example reconnect_scenario_generations :
  let infos1 := [sensor_info 1 "a"; sensor_info 2 "b"; sensor_info 3 "c"] in
  let infos2 := [sensor_info 2 "b"; sensor_info 3 "c"; sensor_info 4 "d"] in
  let entry_data :=
    after_pass "sensor" "SensorInfo" infos2
      (after_pass "sensor" "SensorInfo" infos1 sensor_entry_data) in
  PyDict.keys <$> previous entry_data "sensor" = Some [1] ∧
  PyDict.keys <$> current entry_data "sensor" = Some [2; 3; 4].
Proof. split; vm_compute; reflexivity. Qed.

(** ** State updates *)

Lemma pass_keeps_state component_key info_type infos entry_data entry_data' effects :
  async_list_entities component_key info_type infos entry_data = Ok (entry_data', effects) →
  state entry_data' = state entry_data.
Proof.
  unfold async_list_entities, list_entities_diff, list_entities_commit, subscript_map, alloc.
  destruct (info entry_data !! component_key) as [r|] eqn:Hr; [|discriminate].
  cbn [mbind result_bind].
  destruct (foldl _ _ infos) as [h add]. cbn [mbind result_bind info].
  rewrite Hr. cbn [mbind result_bind]. intros [= <- _]. reflexivity.
Qed.

(** C6: a state update of the platform's state class is stored whatever
    the descriptors are (nothing is read from [info]): it replaces the
    value stored for the key, sends one update notification for the
    entity, and the value is still there after any later pass over the
    descriptor lists. *)
Theorem state_update_always_legal component_key state_type new_state entry_data states :
  state entry_data !! component_key = Some states →
  isinstance (EntityState.cls new_state) state_type = true →
  let entity := {| _component_key := component_key;
                   _key := EntityState.key new_state |} in
  ∃ entry_data',
    async_entity_state component_key state_type new_state entry_data =
      Ok (entry_data', [UpdateEntity component_key (EntityState.key new_state)]) ∧
    state entry_data' =
      <[component_key := PyDict.set (EntityState.key new_state) new_state states]>
        (state entry_data) ∧
    info entry_data' = info entry_data ∧
    old_info entry_data' = old_info entry_data ∧
    heap entry_data' = heap entry_data ∧
    _has_state entry_data' entity = Ok true ∧
    _state entry_data' entity = Ok new_state ∧
    (∀ key', key' ≠ EntityState.key new_state →
       _state entry_data' {| _component_key := component_key; _key := key' |} =
       _state entry_data {| _component_key := component_key; _key := key' |}) ∧
    (∀ info_type infos entry_data'' effects,
       async_list_entities component_key info_type infos entry_data' =
         Ok (entry_data'', effects) →
       _has_state entry_data'' entity = Ok true ∧
       _state entry_data'' entity = Ok new_state).
Proof.
  intros Hstates Hcls entity.
  assert (Hhas : ∀ ed,
    state ed = <[component_key := PyDict.set (EntityState.key new_state) new_state states]>
                 (state entry_data) →
    _has_state ed entity = Ok true ∧ _state ed entity = Ok new_state).
  { intros ed Hed. unfold _has_state, _state, subscript_map, entity.
    cbn [_component_key _key]. rewrite Hed, lookup_insert_eq. cbn [mbind result_bind].
    split.
    - f_equal. apply pydict_contains_true, pydict_elem_keys_set. by left.
    - apply subscript_Ok, pydict_get_set_eq. }
  eexists. split.
  { unfold async_entity_state, subscript_map. rewrite Hcls, Hstates. reflexivity. }
  cbn [state info old_info heap].
  split; [done|]. split; [done|]. split; [done|]. split; [done|].
  split; [by apply Hhas|]. split; [by apply Hhas|]. split.
  - intros key' Hne. unfold _state, subscript_map. cbn [_component_key _key state].
    rewrite lookup_insert_eq, Hstates. cbn [mbind result_bind].
    unfold subscript. by rewrite pydict_get_set_ne.
  - intros info_type infos entry_data'' effects Hpass.
    apply Hhas. by rewrite (pass_keeps_state _ _ _ _ _ _ Hpass).
Qed.

(** A state for key 7 arrives while the sensor platform has no
    descriptor at all; the descriptor of key 7 is listed afterwards. *)
Lemma state_update_always_legal_witness :
  let new_state := sensor_state 7 (VInt 21) in
  let entity := {| _component_key := "sensor"; _key := 7 |} in
  (state sensor_entry_data !! "sensor" = Some [] ∧
   isinstance (EntityState.cls new_state) "SensorState" = true ∧
   current sensor_entry_data "sensor" = Some []) ∧
  ∃ entry_data',
    async_entity_state "sensor" "SensorState" new_state sensor_entry_data =
      Ok (entry_data', [UpdateEntity "sensor" 7]) ∧
    _state entry_data' entity = Ok new_state ∧
    _state (after_pass "sensor" "SensorInfo" [sensor_info 7 "g"] entry_data') entity
      = Ok new_state.
Proof.
  intros new_state entity.
  assert (H1 : state sensor_entry_data !! "sensor" = Some ([] : list (Z * EntityState.t)))
    by (vm_compute; reflexivity).
  assert (H2 : isinstance (EntityState.cls new_state) "SensorState" = true) by reflexivity.
  assert (H3 : current sensor_entry_data "sensor" = Some []) by (vm_compute; reflexivity).
  split; [done|].
  destruct (state_update_always_legal "sensor" "SensorState" new_state sensor_entry_data [] H1 H2)
    as (entry_data' & Hrun & Hst & Hinfo & Hold & Hheap & _ & Hget & _ & Hlater).
  exists entry_data'. split; [exact Hrun|]. split; [exact Hget|].
  assert (Hcur : is_Some (current entry_data' "sensor")).
  { exists []. unfold current. rewrite Hinfo, Hheap. exact H3. }
  destruct (async_list_entities_total "sensor" "SensorInfo" [sensor_info 7 "g"] entry_data' Hcur)
    as (entry_data'' & effects & Hpass).
  unfold after_pass. rewrite Hpass.
  exact (proj2 (Hlater _ _ _ _ Hpass)).
Defined.

(** ** Backoff arithmetic *)

Lemma py_round_near (x : Q) (c : Z) :
  (inject_Z c - (1 # 2) < x)%Q → (x < inject_Z c + (1 # 2))%Q → py_round x = c.
Proof.
  intros Hlo Hhi. unfold py_round.
  pose proof (Qfloor_le x) as Hfl. pose proof (Qlt_floor x) as Hfu.
  set (f := Qfloor x) in *.
  assert (Hf1 : (inject_Z f < inject_Z c + (1 # 2))%Q) by lra.
  assert (Hf2 : (inject_Z c - (1 # 2) < inject_Z (f + 1))%Q) by lra.
  assert (Hf : f = c ∨ f = c - 1).
  { unfold Qlt, Qplus, Qminus, Qopp, inject_Z in Hf1, Hf2. simpl in Hf1, Hf2. lia. }
  destruct Hf as [-> | ->].
  - destruct (Qcompare_spec (x - inject_Z c) (1 # 2)) as [Hr|Hr|Hr]; [lra | done | lra].
  - assert (Heq : (inject_Z (c - 1) == inject_Z c - 1)%Q).
    { unfold Qeq, Qminus, Qplus, Qopp, inject_Z. simpl. lia. }
    destruct (Qcompare_spec (x - inject_Z (c - 1)) (1 # 2)) as [Hr|Hr|Hr]; [lra | lra | lia].
Qed.

Lemma Qmin_between (x lo hi : Q) :
  (lo < x)%Q → (lo < 60)%Q → (x < hi ∨ 60 < hi)%Q →
  (lo < Qmin x 60)%Q ∧ (Qmin x 60 < hi)%Q.
Proof.
  intros Hlo Hlo' Hhi.
  destruct (Q.min_spec x 60) as [[Hlt Heq] | [Hle Heq]]; rewrite Heq; lra.
Qed.

(** The rounded value is the same for every float within 0.001 of the
    real power [e], as long as both stay off the rounding boundaries of
    [c]. *)
Lemma wait_near (p e : Q) (c : Z) :
  (Qabs (p - e) <= 1 # 1000)%Q →
  (inject_Z c - (1 # 2) + (1 # 1000) < e)%Q →
  (inject_Z c - (1 # 2) < 60)%Q →
  (e < inject_Z c + (1 # 2) - (1 # 1000) ∨ 60 < inject_Z c + (1 # 2))%Q →
  py_round (Qmin p 60) = c.
Proof.
  intros Habs Hlo Hlo' Hhi.
  apply Qabs_Qle_condition in Habs as [Hl Hu].
  destruct (Qmin_between p (inject_Z c - (1 # 2)) (inject_Z c + (1 # 2))) as [H1 H2].
  - lra.
  - lra.
  - destruct Hhi as [Hhi|Hhi]; [left|right]; lra.
  - by apply py_round_near.
Qed.

Lemma wait_exact (e : Q) (c : Z) :
  (inject_Z c - (1 # 2) + (1 # 1000) < e)%Q →
  (inject_Z c - (1 # 2) < 60)%Q →
  (e < inject_Z c + (1 # 2) - (1 # 1000) ∨ 60 < inject_Z c + (1 # 2))%Q →
  py_round (Qmin e 60) = c.
Proof.
  intros. apply (wait_near e e c); try done.
  assert (Hz : (e - e == 0)%Q) by ring. rewrite Hz. done.
Qed.

Lemma exact_pow_bounds (k : Z) :
  0 ≤ k ≤ 10 →
  (inject_Z (wait_table k) - (1 # 2) + (1 # 1000) < exact_pow k)%Q ∧
  (inject_Z (wait_table k) - (1 # 2) < 60)%Q ∧
  (exact_pow k < inject_Z (wait_table k) + (1 # 2) - (1 # 1000) ∨
   60 < inject_Z (wait_table k) + (1 # 2))%Q.
Proof.
  intros Hk.
  assert (Hcases : k = 0 ∨ k = 1 ∨ k = 2 ∨ k = 3 ∨ k = 4 ∨ k = 5 ∨ k = 6 ∨
                   k = 7 ∨ k = 8 ∨ k = 9 ∨ k = 10) by lia.
  repeat (destruct Hcases as [-> | Hcases]); try subst k;
    (split; [|split]);
    try (vm_compute; reflexivity);
    try (left; vm_compute; reflexivity);
    try (right; vm_compute; reflexivity).
Qed.

Lemma wait_time_table float_pow n :
  float_pow_accurate float_pow → 0 ≤ n → wait_time float_pow n = wait_table (Z.min n 10).
Proof.
  intros Hacc Hn. unfold wait_time.
  assert (Hk : 0 ≤ Z.min n 10 ≤ 10) by lia.
  destruct (exact_pow_bounds _ Hk) as (H1 & H2 & H3).
  by apply (wait_near _ (exact_pow (Z.min n 10))); [apply Hacc | | |].
Qed.

Lemma backoff_formula_table n :
  0 ≤ n → backoff_formula n = wait_table (Z.min n 10).
Proof.
  intros Hn. unfold backoff_formula.
  assert (Hk : 0 ≤ Z.min n 10 ≤ 10) by lia.
  destruct (exact_pow_bounds _ Hk) as (H1 & H2 & H3).
  by apply wait_exact.
Qed.

Lemma exact_pow_accurate : float_pow_accurate exact_pow.
Proof.
  intros k _. assert (Hz : (exact_pow k - exact_pow k == 0)%Q) by ring.
  rewrite Hz. done.
Qed.

(** ** The reconnect state machine *)

Section reconnect.
Variable float_pow : Z → Q.

Lemma run_from (evs : list RL.Event) : ∀ self calls,
  foldl (λ acc ev, let '(self, calls) := RL.step float_pow ev acc.1 in (self, acc.2 ++ calls))
        (self, calls) evs =
  ((RL.run float_pow evs self).1, calls ++ (RL.run float_pow evs self).2).
Proof.
  unfold RL.run.
  induction evs as [|ev evs IH]; intros self calls.
  - simpl. by rewrite app_nil_r.
  - cbn [foldl fst snd]. destruct (RL.step float_pow ev self) as [self1 calls1].
    rewrite IH. rewrite (IH self1 ([] ++ calls1)). cbn [fst snd].
    by rewrite app_nil_l, app_assoc.
Qed.

Lemma run_app (evs1 evs2 : list RL.Event) (self : RL.t) :
  RL.run float_pow (evs1 ++ evs2) self =
  ((RL.run float_pow evs2 (RL.run float_pow evs1 self).1).1,
   (RL.run float_pow evs1 self).2 ++ (RL.run float_pow evs2 (RL.run float_pow evs1 self).1).2).
Proof.
  unfold RL.run at 1. rewrite foldl_app.
  fold (RL.run float_pow evs1 self).
  destruct (RL.run float_pow evs1 self) as [self1 calls1]. cbn [fst snd].
  apply run_from.
Qed.

Lemma sleeps_app (calls1 calls2 : list RL.Call) :
  RL.sleeps (calls1 ++ calls2) = RL.sleeps calls1 ++ RL.sleeps calls2.
Proof. unfold RL.sleeps. apply omap_app. Qed.

(** One failed attempt and its wait, from a state with [k] failures. *)
Lemma failure_cycle_run zc k :
  (RL.run float_pow RL.failure_cycle (started zc k)).1 = started true (k + 1) ∧
  RL.sleeps (RL.run float_pow RL.failure_cycle (started zc k)).2 =
    [wait_time float_pow (k + 1)].
Proof.
  destruct zc; (split; [reflexivity|]).
  all: unfold RL.run, RL.failure_cycle, started; cbn [foldl fst snd RL.step];
    unfold RL._reconnect_loop_turn, RL._reconnect_once, RL._try_connect,
      RL._start_zc_listen, RL._wait_and_start_reconnect_begin,
      RL._wait_and_start_reconnect_end;
    cbn [RL._loop_task RL._reconnect_event RL._connected RL._wait_task RL._tries
         RL._zc_listening RL.set_reconnect_event RL.set_tries RL.set_wait_task
         RL.set_zc_listening RL.is_encryption_error andb negb fst snd app];
    destruct (bool_decide (Z.min (k + 1) 10 = 1)); reflexivity.
Qed.

Lemma failure_cycles_run (n : nat) : ∀ zc k,
  RL._tries (RL.run float_pow (RL.failure_cycles n) (started zc k)).1 = k + Z.of_nat n ∧
  RL.sleeps (RL.run float_pow (RL.failure_cycles n) (started zc k)).2 =
    (λ i, wait_time float_pow (k + Z.of_nat i)) <$> seq 1 n.
Proof.
  induction n as [|n IH]; intros zc k.
  - split; [simpl; lia | reflexivity].
  - change (RL.failure_cycles (S n)) with (RL.failure_cycle ++ RL.failure_cycles n).
    rewrite run_app. cbn [fst snd].
    destruct (failure_cycle_run zc k) as [-> Hs].
    destruct (IH true (k + 1)) as [Ht Hs']. split.
    + rewrite Ht. lia.
    + rewrite sleeps_app, Hs, Hs'.
      change (seq 1 (S n)) with (1%nat :: seq 2 n). rewrite fmap_cons.
      cbn [app]. f_equal.
      rewrite <- (fmap_S_seq 1 n), <- list_fmap_compose.
      apply list_fmap_ext. intros i x _. cbn. f_equal. lia.
Qed.
End reconnect.

(** C2: the wait task sleeps [wait_time] of the attempt counter it reads;
    for every count [n >= 1] of consecutive failures this is
    [round(min(1.8^min(n,10), 60))], the [n]-th of [n] consecutive
    failures sleeps that long, [n = 10] and [n = 50] give 60, and five
    failures in a row give the waits 2, 3, 6, 10, 19. *)
Theorem backoff_wait_time float_pow :
  float_pow_accurate float_pow →
  (∀ self, RL._wait_task self = Some RL.Created →
     RL.sleeps (RL.step float_pow RL.EvWaitTaskRuns self).2 =
       [wait_time float_pow (RL._tries self)] ∧
     RL._wait_task (RL.step float_pow RL.EvWaitTaskRuns self).1 =
       Some (RL.Sleeping (wait_time float_pow (RL._tries self)))) ∧
  (∀ n, 1 ≤ n → wait_time float_pow n = backoff_formula n) ∧
  (∀ n : nat,
     RL.sleeps (RL.run float_pow (RL.EvStart :: RL.failure_cycles n) RL.__init__).2 =
       (λ i, backoff_formula (Z.of_nat i)) <$> seq 1 n) ∧
  wait_time float_pow 10 = 60 ∧
  wait_time float_pow 50 = 60 ∧
  RL.sleeps (RL.run float_pow (RL.EvStart :: RL.failure_cycles 5) RL.__init__).2 =
    [2; 3; 6; 10; 19].
Proof.
  intros Hacc.
  assert (Hform : ∀ n, 0 ≤ n → wait_time float_pow n = backoff_formula n).
  { intros n Hn. by rewrite wait_time_table, backoff_formula_table. }
  assert (Hrun : ∀ n : nat,
     RL.sleeps (RL.run float_pow (RL.EvStart :: RL.failure_cycles n) RL.__init__).2 =
       (λ i, backoff_formula (Z.of_nat i)) <$> seq 1 n).
  { intros n. change (RL.EvStart :: RL.failure_cycles n) with ([RL.EvStart] ++ RL.failure_cycles n).
    rewrite run_app. change (RL.run float_pow [RL.EvStart] RL.__init__) with (started false 0, @nil RL.Call).
    cbn [fst snd app].
    destruct (failure_cycles_run float_pow n false 0) as [_ ->].
    apply list_fmap_ext. intros i x _. rewrite Z.add_0_l. apply Hform. lia. }
  split; [|split; [|split; [|split; [|split]]]].
  - intros self Hw. cbn [RL.step]. rewrite Hw.
    unfold RL._wait_and_start_reconnect_begin. cbn [fst snd RL._wait_task RL.set_wait_task].
    split; [|reflexivity].
    destruct (bool_decide (Z.min (RL._tries self) 10 = 1)); reflexivity.
  - intros n Hn. apply Hform. lia.
  - exact Hrun.
  - by rewrite wait_time_table.
  - by rewrite wait_time_table.
  - rewrite Hrun. cbn [seq fmap list_fmap].
    rewrite !backoff_formula_table by lia. reflexivity.
Qed.

(** The exact power is a float model of its own. *)
Lemma backoff_wait_time_witness :
  float_pow_accurate exact_pow ∧
  (∀ n, 1 ≤ n → wait_time exact_pow n = backoff_formula n) ∧
  wait_time exact_pow 10 = 60 ∧
  wait_time exact_pow 50 = 60 ∧
  RL.sleeps (RL.run exact_pow (RL.EvStart :: RL.failure_cycles 5) RL.__init__).2 =
    [2; 3; 6; 10; 19].
Proof.
  split; [exact exact_pow_accurate|].
  destruct (backoff_wait_time exact_pow exact_pow_accurate)
    as (_ & Hformula & _ & H10 & H50 & Hfive).
  repeat split; assumption.
Defined.

(** C4: after any sequence of events, an event that makes a connection
    attempt leaves the attempt counter at 0 if the attempt succeeds and
    one higher if it fails; apart from attempts only a disconnect touches
    the counter (it resets it).  After [n] failed attempts in a row the
    counter is [n]. *)
Theorem tries_counter float_pow (evs : list RL.Event) (ev : RL.Event) :
  let self := (RL.run float_pow evs RL.__init__).1 in
  let self' := (RL.step float_pow ev self).1 in
  match RL.attempt float_pow ev self with
  | Some RL.Connected => RL._tries self' = 0
  | Some _ => RL._tries self' = RL._tries self + 1
  | None =>
      match ev with
      | RL.EvDisconnect true => RL._tries self' = 0
      | _ => RL._tries self' = RL._tries self
      end
  end ∧
  ∀ n : nat,
    RL._tries (RL.run float_pow (RL.EvStart :: RL.failure_cycles n) RL.__init__).1
      = Z.of_nat n.
Proof.
  intros self self'. split.
  - subst self'. generalize self. clear self evs. intros self.
    destruct self as [connected zc event loop tries wait].
    destruct ev as [| |loaded disabled outcome|has| | |name records];
      unfold RL.attempt; cbn [RL.step].
    + reflexivity.
    + unfold RL.stop. cbn. by destruct zc.
    + unfold RL._reconnect_loop_turn, RL._reconnect_once.
      cbn [RL._loop_task RL._reconnect_event RL._connected RL.set_reconnect_event].
      destruct loop, event; cbn [andb negb fst snd];
        try (rewrite bool_decide_eq_false_2 by apply not_elem_of_nil; reflexivity).
      destruct connected; cbn [fst snd app];
        try (rewrite bool_decide_eq_false_2 by apply not_elem_of_nil; reflexivity).
      destruct loaded; cbn [negb fst snd app];
        try (rewrite bool_decide_eq_false_2 by apply not_elem_of_nil; reflexivity).
      destruct disabled; cbn [negb fst snd app];
        try (rewrite bool_decide_eq_false_2 by apply not_elem_of_nil; reflexivity).
      unfold RL._try_connect, RL._start_zc_listen, RL._stop_zc_listen.
      cbn [RL._tries RL.set_tries RL._zc_listening RL._wait_task RL.set_connected].
      destruct outcome as [|error|]; destruct zc, wait; cbn [negb fst snd app];
        rewrite bool_decide_eq_true_2 by (apply list_elem_of_here); reflexivity.
    + unfold RL._on_disconnect, RL._start_zc_listen. cbn.
      destruct has; [by destruct zc | reflexivity].
    + destruct wait as [[|w]|]; reflexivity.
    + destruct wait as [[|w]|]; reflexivity.
    + unfold RL.async_update_records. cbn.
      destruct name; [|reflexivity].
      destruct connected, event; cbn; try reflexivity.
      by destruct (existsb _ records).
  - intros n.
    change (RL.EvStart :: RL.failure_cycles n) with ([RL.EvStart] ++ RL.failure_cycles n).
    rewrite run_app.
    change (RL.run float_pow [RL.EvStart] RL.__init__) with (started false 0, @nil RL.Call).
    cbn [fst snd].
    destruct (failure_cycles_run float_pow n false 0) as [-> _]. lia.
Qed.

(** C9 (amended): a failed attempt requests the re-authentication
    exactly when the error is one of the two encryption errors; apart
    from that request it is handled like any other connection failure:
    the same calls, the same state with the counter one higher, and a
    wait task for the next attempt unless one is pending already.  No
    other outcome of an attempt requests the re-authentication. *)
Theorem encryption_error_requests_reauth (error : RL.APIConnectionError) (self : RL.t) :
  let r := RL._try_connect (RL.ConnectionError error) self in
  let other := RL._try_connect (RL.ConnectionError RL.OtherAPIConnectionError) self in
  (RL.StartReauth ∈ r.1.2 ↔
     error = RL.RequiresEncryptionAPIError ∨ error = RL.InvalidEncryptionKeyAPIError) ∧
  r.1.1 = other.1.1 ∧
  r.2 = false ∧
  filter (λ c, c ≠ RL.StartReauth) r.1.2 = other.1.2 ∧
  RL._tries r.1.1 = RL._tries self + 1 ∧
  (RL._wait_task self = None →
     RL._wait_task r.1.1 = Some RL.Created ∧ RL.CreateWaitTask ∈ r.1.2) ∧
  (RL.StartReauth ∉ (RL._try_connect RL.Connected self).1.2) ∧
  (RL.StartReauth ∉ (RL._try_connect RL.OtherException self).1.2) ∧
  (RL.StartReauth ∉ other.1.2).
Proof.
  destruct self as [connected zc event loop tries wait].
  unfold RL._try_connect, RL._start_zc_listen, RL._stop_zc_listen.
  cbn [RL._tries RL.set_tries RL._zc_listening RL._wait_task RL.set_connected].
  destruct (bool_decide (tries = 0)).
  all: destruct error, zc, wait; cbn.
  all: split; [split; [intros Hin | intros [H|H]]|].
  all: try discriminate.
  all: try (by left). all: try (by right).
  all: try (apply (bool_decide_unpack _); vm_compute; reflexivity).
  all: try (exfalso; apply (bool_decide_pack _) in Hin; vm_compute in Hin; exact Hin).
  all: split; [reflexivity|]; split; [reflexivity|]; split; [reflexivity|];
       split; [reflexivity|].
  all: split; [intros Hw; first [discriminate Hw |
               split; [reflexivity | apply (bool_decide_unpack _); vm_compute; reflexivity]]|].
  all: repeat split; apply (bool_decide_unpack _); vm_compute; reflexivity.
Qed.

(** C9 as stated fails: after an [InvalidEncryptionKeyAPIError] the wait
    task for the next attempt is created all the same. *)
Lemma encryption_error_retry_counterexample :
  ¬ surfaced_not_retried RL.InvalidEncryptionKeyAPIError (started false 0).
Proof. intros [_ Hno]. apply Hno. apply (bool_decide_unpack _). vm_compute. reflexivity. Qed.

(** The retry happens: two encryption failures in a row make two
    connection attempts, two re-authentication requests and a wait of 2
    seconds between them. *)
Example encryption_error_is_retried :
  let calls :=
    (RL.run exact_pow
       [RL.EvStart;
        RL.EvLoopTurn true false (RL.ConnectionError RL.InvalidEncryptionKeyAPIError);
        RL.EvWaitTaskRuns; RL.EvSleepOver;
        RL.EvLoopTurn true false (RL.ConnectionError RL.InvalidEncryptionKeyAPIError)]
       RL.__init__).2 in
  connects calls = 2%nat ∧
  length (filter (λ c, c = RL.StartReauth) calls) = 2%nat ∧
  RL.sleeps calls = [2].
Proof. repeat split; vm_compute; reflexivity. Qed.

(** ** User-defined services *)

Lemma register_args_recognized service_name args : ∀ schema fields,
  Forall (λ arg, UserServiceArg.type arg ∈ PyDict.keys ARG_TYPE_METADATA) args →
  ∃ sf, register_args service_name args schema fields = inr sf.
Proof.
  induction args as [|arg args IH]; intros schema fields Hall.
  - by eexists.
  - apply Forall_cons in Hall as [Harg Hall]. cbn [register_args].
    destruct (PyDict.get (UserServiceArg.type arg) ARG_TYPE_METADATA) as [metadata|] eqn:Hget.
    + by apply IH.
    + by apply pydict_get_None in Hget.
Qed.

Lemma register_args_unrecognized service_name args : ∀ schema fields,
  ¬ Forall (λ arg, UserServiceArg.type arg ∈ PyDict.keys ARG_TYPE_METADATA) args →
  ∃ arg_name arg_type,
    register_args service_name args schema fields =
      inl (LogUnknownType service_name arg_name arg_type).
Proof.
  induction args as [|arg args IH]; intros schema fields Hnot.
  - destruct Hnot. constructor.
  - cbn [register_args].
    destruct (PyDict.get (UserServiceArg.type arg) ARG_TYPE_METADATA) as [metadata|] eqn:Hget.
    + apply IH. intros Hall. apply Hnot. constructor; [|done].
      destruct (decide (UserServiceArg.type arg ∈ PyDict.keys ARG_TYPE_METADATA)) as [|Hn]; [done|].
      apply pydict_get_None in Hn. congruence.
    + by eexists _, _.
Qed.

Lemma register_service_calls entry_data device_info service :
  EntryData.device_info entry_data = Some device_info →
  ∃ calls,
    _register_service entry_data service = Ok calls ∧
    registered calls = (if decide (recognized service) then [service] else []) ∧
    skipped calls =
      (if decide (recognized service) then [] else [registered_name device_info service]) ∧
    removed calls = [].
Proof.
  intros Hdi. unfold _register_service. rewrite Hdi.
  fold (registered_name device_info service).
  destruct (decide (recognized service)) as [Hrec|Hrec].
  - destruct (register_args_recognized (registered_name device_info service)
                (UserService.args service) [] [] Hrec) as [[schema fields] ->].
    by eexists.
  - destruct (register_args_unrecognized (registered_name device_info service)
                (UserService.args service) [] [] Hrec) as (arg_name & arg_type & ->).
    by eexists.
Qed.

Lemma register_all_calls entry_data device_info to_register :
  EntryData.device_info entry_data = Some device_info →
  ∃ calls,
    register_all entry_data to_register = Ok calls ∧
    registered calls = filter recognized to_register ∧
    skipped calls =
      registered_name device_info <$> filter (λ service, ¬ recognized service) to_register ∧
    removed calls = [].
Proof.
  intros Hdi. induction to_register as [|service to_register IH].
  - by exists [].
  - destruct IH as (rest & Hrest & Hreg & Hskip & Hrem).
    destruct (register_service_calls entry_data device_info service Hdi)
      as (calls & Hcalls & Hreg1 & Hskip1 & Hrem1).
    exists (calls ++ rest). cbn [register_all]. rewrite Hcalls, Hrest.
    split; [reflexivity|].
    unfold registered, skipped, removed in *. rewrite !omap_app.
    rewrite Hreg, Hskip, Hrem, Hreg1, Hskip1, Hrem1.
    destruct (decide (recognized service)) as [Hrec|Hrec].
    + rewrite filter_cons_True by done.
      rewrite filter_cons_False by (intros Hn; by apply Hn). done.
    + rewrite filter_cons_False by done.
      rewrite filter_cons_True by done. done.
Qed.

Lemma removals_only (device_info : DeviceInfo.t) (to_unregister : list UserService.t) :
  let removals :=
    (λ service,
       AsyncRemove DOMAIN
         (DeviceInfo.name device_info +:+ "_" +:+ UserService.name service)%string)
      <$> to_unregister in
  registered removals = [] ∧ skipped removals = [] ∧
  removed removals = removed_name device_info <$> to_unregister.
Proof.
  induction to_unregister as [|service to_unregister (IH1 & IH2 & IH3)]; [done|].
  cbn zeta in *. rewrite !fmap_cons. unfold registered, skipped, removed in *.
  cbn [omap list_omap]. fold (@omap list _).
  repeat split; [exact IH1 | exact IH2 |]. f_equal. exact IH3.
Qed.

(** C8: a batch never aborts.  [_setup_services] always returns; the
    services it registers are exactly the services to register whose
    arguments all have one of the eight types of [ARG_TYPE_METADATA], in
    order; each of the others is skipped with one error in the log. *)
Theorem service_batch_never_aborts (entry_data : EntryData.t) (services : list UserService.t) :
  PyDict.keys ARG_TYPE_METADATA =
    [UserServiceArgType.BOOL; UserServiceArgType.INT; UserServiceArgType.FLOAT;
     UserServiceArgType.STRING; UserServiceArgType.BOOL_ARRAY;
     UserServiceArgType.INT_ARRAY; UserServiceArgType.FLOAT_ARRAY;
     UserServiceArgType.STRING_ARRAY] ∧
  ∃ entry_data' calls,
    _setup_services entry_data services = Ok (entry_data', calls) ∧
    ∀ device_info, EntryData.device_info entry_data = Some device_info →
      let to_register := (services_diff (EntryData.services entry_data) services).2 in
      registered calls = filter recognized to_register ∧
      skipped calls =
        registered_name device_info <$> filter (λ service, ¬ recognized service) to_register.
Proof.
  split; [reflexivity|].
  unfold _setup_services.
  destruct (EntryData.device_info entry_data) as [device_info|] eqn:Hdi.
  2:{ eexists _, _. split; [reflexivity|]. intros ? [=]. }
  destruct (services_diff (EntryData.services entry_data) services)
    as [to_unregister to_register] eqn:Hdiff.
  set (entry_data1 := {| EntryData.device_info := Some device_info;
                         EntryData.services := _ |}).
  destruct (register_all_calls entry_data1 device_info to_register eq_refl)
    as (regs & Hregs & Hreg & Hskip & _).
  rewrite Hregs. cbn [mbind result_bind].
  eexists _, _. split; [reflexivity|].
  intros device_info' [= <-]. cbn [snd].
  destruct (removals_only device_info to_unregister) as (Hr1 & Hr2 & _).
  cbn zeta in Hr1, Hr2.
  unfold registered, skipped in *. rewrite !omap_app, Hr1, Hr2, Hreg, Hskip. done.
Qed.

(** A batch of three new services; the second has an argument of an
    unknown type. *)
Lemma service_batch_never_aborts_witness :
  let entry_data := entry_of "node" in
  let batch := [play_service; odd_service; ring_service] in
  EntryData.device_info entry_data = Some {| DeviceInfo.name := "node" |} ∧
  ∃ entry_data' calls,
    _setup_services entry_data batch = Ok (entry_data', calls) ∧
    registered calls = [play_service; ring_service] ∧
    skipped calls = ["node_odd"%string].
Proof.
  intros entry_data batch. split; [reflexivity|].
  destruct (service_batch_never_aborts entry_data batch)
    as (_ & entry_data' & calls & Hrun & Hcalls).
  exists entry_data', calls. split; [exact Hrun|].
  destruct (Hcalls _ eq_refl) as [Hreg Hskip].
  split; [rewrite Hreg | rewrite Hskip]; vm_compute; reflexivity.
Defined.

Lemma omap_ext_in {A B : Type} (f g : A → option B) (l : list A) :
  (∀ x, x ∈ l → f x = g x) → omap f l = omap g l.
Proof.
  induction l as [|a l IH]; intros Hext; [done|].
  cbn [omap list_omap]. rewrite (Hext a) by left.
  fold (@omap list _ A B f l). fold (@omap list _ A B g l).
  rewrite IH; [done|]. intros x Hx. apply Hext. by right.
Qed.

Lemma omap_cons_match {A B : Type} (f : A → option B) (x : A) (l : list A) :
  omap f (x :: l) = match f x with Some y => y :: omap f l | None => omap f l end.
Proof. reflexivity. Qed.

Lemma setup_services_loop (services : list UserService.t) : ∀ old to_unregister to_register,
  NoDup (UserService.key <$> services) →
  foldl setup_services_iter (old, to_unregister, to_register) services =
  (filter (λ kv, kv.1 ∉ UserService.key <$> services) old,
   to_unregister ++ omap (replaced_by old) services,
   to_register ++ new_or_changed old services).
Proof.
  induction services as [|service services IH]; intros old tu tr Hnd.
  - cbn [foldl]. unfold new_or_changed. cbn [omap list_omap].
    rewrite filter_nil, !app_nil_r. f_equal. f_equal.
    symmetry. apply filter_all. intros x _. apply not_elem_of_nil.
  - rewrite fmap_cons in Hnd. apply NoDup_cons in Hnd as [Hk Hnd].
    assert (Hrest : ∀ s, s ∈ services →
              PyDict.get (UserService.key s) (PyDict.pop (UserService.key service) old) =
              PyDict.get (UserService.key s) old).
    { intros s Hs. apply pydict_get_pop_ne. intros Heq. apply Hk. rewrite <- Heq.
      apply list_elem_of_fmap. by exists s. }
    assert (Hold : filter (λ kv : Z * UserService.t, kv.1 ∉ UserService.key <$> services)
                     (PyDict.pop (UserService.key service) old) =
                   filter (λ kv, kv.1 ∉ UserService.key <$> service :: services) old).
    { rewrite pydict_pop_filter, list_filter_filter. apply list_filter_iff.
      intros [k v]. cbn [fst]. rewrite fmap_cons, not_elem_of_cons. tauto. }
    assert (Hrep : omap (replaced_by (PyDict.pop (UserService.key service) old)) services =
                   omap (replaced_by old) services).
    { apply omap_ext_in. intros s Hs. unfold replaced_by. by rewrite Hrest. }
    assert (Hnew : new_or_changed (PyDict.pop (UserService.key service) old) services =
                   new_or_changed old services).
    { unfold new_or_changed. apply filter_ext_in. intros s Hs. by rewrite Hrest. }
    cbn [foldl]. unfold setup_services_iter at 2.
    rewrite omap_cons_match. unfold replaced_by at 1.
    unfold new_or_changed at 1.
    destruct (PyDict.get (UserService.key service) old) as [matching|] eqn:Hget.
    + destruct (decide (matching ≠ service)) as [Hne|Heq].
      * rewrite IH by done. rewrite Hold, Hrep, Hnew.
        rewrite filter_cons_True by congruence.
        by rewrite <- !app_assoc.
      * rewrite IH by done. rewrite Hold, Hrep, Hnew.
        assert (matching = service) as -> by (by destruct (decide (matching = service))).
        rewrite filter_cons_False by (intros Hn; by apply Hn). done.
    + assert (Hpop : PyDict.pop (UserService.key service) old = old).
      { apply pydict_pop_notin. by apply pydict_get_None. }
      rewrite Hpop in Hold. rewrite IH by done. rewrite Hold.
      rewrite filter_cons_True by (by rewrite Hget).
      by rewrite <- !app_assoc.
Qed.

(** The classification of [_setup_services], for incoming services with
    pairwise distinct keys. *)
Lemma services_diff_classifies (old : list (Z * UserService.t))
    (services : list UserService.t) :
  NoDup (UserService.key <$> services) →
  services_diff old services =
  (omap (replaced_by old) services ++ absent_services old services,
   new_or_changed old services).
Proof.
  intros Hnd. unfold services_diff. by rewrite setup_services_loop.
Qed.

(** The calls of [_setup_services]: first one removal per service to
    unregister, then the registrations. *)
Lemma setup_services_calls entry_data device_info services :
  EntryData.device_info entry_data = Some device_info →
  ∃ entry_data' registrations,
    _setup_services entry_data services =
      Ok (entry_data',
          (AsyncRemove DOMAIN ∘ removed_name device_info
             <$> (services_diff (EntryData.services entry_data) services).1)
          ++ registrations) ∧
    removed registrations = [] ∧
    registered registrations =
      filter recognized (services_diff (EntryData.services entry_data) services).2.
Proof.
  intros Hdi. unfold _setup_services. rewrite Hdi.
  destruct (services_diff (EntryData.services entry_data) services)
    as [to_unregister to_register].
  set (entry_data1 := {| EntryData.device_info := Some device_info;
                         EntryData.services := _ |}).
  destruct (register_all_calls entry_data1 device_info to_register eq_refl)
    as (regs & Hregs & Hreg & _ & Hrem).
  rewrite Hregs. cbn [mbind result_bind fst snd].
  by eexists _, regs.
Qed.

(** Without a dash in the device name both names agree. *)
Lemma str_replace_absent (old new : ascii) (s : string) :
  old ∉ list_ascii_of_string s → str_replace old new s = s.
Proof.
  induction s as [|c s IH]; intros Hno; [done|].
  cbn [list_ascii_of_string] in Hno. apply not_elem_of_cons in Hno as [Hne Hno].
  cbn [str_replace]. rewrite decide_False by congruence. by rewrite IH.
Qed.

Lemma names_agree_without_dash device_info service :
  "-"%char ∉ list_ascii_of_string (DeviceInfo.name device_info) →
  removed_name device_info service = registered_name device_info service.
Proof.
  intros Hno. unfold removed_name, registered_name. by rewrite str_replace_absent.
Qed.

(** C7 fails on the code: the service is registered under the device
    name with dashes replaced, and removed under the device name as it
    is.  For the device "my-node" the service "ring" is registered as
    "my_node_ring"; when the device no longer reports it, the name
    "my-node_ring" is removed, and "my_node_ring" stays registered. *)
Theorem removal_name_mismatch :
  let entry_data := entry_of "my-node" in
  ∃ entry_data1 calls1 entry_data2 calls2,
    _setup_services entry_data [ring_service] = Ok (entry_data1, calls1) ∧
    calls1 = [AsyncRegister DOMAIN "my_node_ring" ring_service [];
              AsyncSetServiceSchema DOMAIN "my_node_ring" ring_service []] ∧
    _setup_services entry_data1 [] = Ok (entry_data2, calls2) ∧
    calls2 = [AsyncRemove DOMAIN "my-node_ring"] ∧
    EntryData.services entry_data2 = [] ∧
    foldl apply_service_call ∅ (calls1 ++ calls2) !! "my_node_ring"%string
      = Some ring_service.
Proof.
  intros entry_data. eexists _, _, _, _.
  split; [vm_compute; reflexivity|]. split; [reflexivity|].
  split; [vm_compute; reflexivity|]. split; [reflexivity|].
  split; [reflexivity|]. vm_compute. reflexivity.
Qed.

(** ** Sessions *)

Lemma pydict_elem_set {K V : Type} `{EqDecision K} (k k' : K) (v v' : V) (d : list (K * V)) :
  (k', v') ∈ PyDict.set k v d → (k', v') = (k, v) ∨ (k', v') ∈ d.
Proof.
  induction d as [|[k1 v1] d IH]; cbn [PyDict.set].
  - intros Hin. apply list_elem_of_singleton in Hin. by left.
  - destruct (decide (k = k1)) as [->|Hne].
    + intros Hin. apply elem_of_cons in Hin as [Heq|Hin]; [by left|].
      right. by right.
    + intros Hin. apply elem_of_cons in Hin as [Heq|Hin].
      * right. rewrite Heq. left.
      * destruct (IH Hin) as [Heq|Hin']; [by left|]. right. by right.
Qed.

Lemma keyed_set (d : list (Z * EntityInfo.t)) (info : EntityInfo.t) :
  keyed d → keyed (PyDict.set (EntityInfo.key info) info d).
Proof.
  intros Hk k i Hin. apply pydict_elem_set in Hin as [[= -> ->]|Hin]; [done|].
  by apply Hk.
Qed.

Lemma keyed_foldl_set (incoming : list EntityInfo.t) : ∀ d,
  keyed d →
  keyed (foldl (λ d kv, PyDict.set kv.1 kv.2 d) d
               ((λ info, (EntityInfo.key info, info)) <$> incoming)).
Proof.
  induction incoming as [|info incoming IH]; intros d Hk; [done|].
  rewrite fmap_cons. cbn [foldl fst snd]. apply IH. by apply keyed_set.
Qed.

Lemma keyed_nil : keyed [].
Proof. intros k i Hin. by apply elem_of_nil in Hin. Qed.

Lemma pass_heap_keyed component_key info_type infos entry_data entry_data' effects :
  heap_separated entry_data →
  heap_keyed entry_data →
  async_list_entities component_key info_type infos entry_data = Ok (entry_data', effects) →
  heap_keyed entry_data'.
Proof.
  intros (Ha & _) Hkeyed Hrun.
  destruct (info entry_data !! component_key) as [r|] eqn:Hr.
  2:{ unfold async_list_entities, list_entities_diff, subscript_map in Hrun.
      rewrite Hr in Hrun. discriminate. }
  pose proof (Ha _ _ Hr) as Hlt.
  destruct (lookup_lt_is_Some_2 (heap entry_data) r Hlt) as [cur Hh].
  rewrite (async_list_entities_run component_key info_type infos entry_data r cur Hr Hh) in Hrun.
  injection Hrun as <- _. unfold heap_keyed in *. cbn [heap].
  apply Forall_insert; [apply Forall_insert|].
  - apply Forall_app. split; [done|]. apply Forall_singleton, keyed_nil.
  - rewrite reconcile_fold_old. apply keyed_filter.
    by apply (Forall_lookup_1 _ _ _ _ Hkeyed Hh).
  - rewrite reconcile_fold_new. apply keyed_foldl_set, keyed_nil.
Qed.

Lemma pass_snapshot_inv component_key info_type infos entry_data entry_data' effects :
  snapshot_inv entry_data →
  async_list_entities component_key info_type infos entry_data = Ok (entry_data', effects) →
  snapshot_inv entry_data'.
Proof.
  intros Hinv Hrun. pose proof Hinv as [(Ha & _) _].
  destruct (info entry_data !! component_key) as [r|] eqn:Hr.
  2:{ unfold async_list_entities, list_entities_diff, subscript_map in Hrun.
      rewrite Hr in Hrun. discriminate. }
  destruct (lookup_lt_is_Some_2 (heap entry_data) r (Ha _ _ Hr)) as [cur Hh].
  assert (Hcur : current entry_data component_key = Some cur).
  { apply current_Some. by exists r. }
  destruct (pass_keeps_invariant component_key info_type infos entry_data cur Hinv Hcur)
    as (entry_data'' & effects' & _ & _ & Hrun' & Hinv' & _).
  rewrite Hrun in Hrun'. by injection Hrun' as -> _.
Qed.

Lemma entity_state_frame component_key state_type new_state entry_data entry_data' effects :
  async_entity_state component_key state_type new_state entry_data = Ok (entry_data', effects) →
  heap entry_data' = heap entry_data ∧ info entry_data' = info entry_data ∧
  old_info entry_data' = old_info entry_data.
Proof.
  unfold async_entity_state, subscript_map.
  destruct (negb _); [by intros [= <- _]|].
  destruct (state entry_data !! component_key); [|discriminate].
  by intros [= <- _].
Qed.

Lemma snapshot_inv_ext entry_data entry_data' :
  heap entry_data' = heap entry_data →
  info entry_data' = info entry_data →
  old_info entry_data' = old_info entry_data →
  snapshot_inv entry_data ∧ heap_keyed entry_data →
  snapshot_inv entry_data' ∧ heap_keyed entry_data'.
Proof.
  unfold snapshot_inv, heap_separated, generations_disjoint, heap_keyed, current, previous.
  intros -> -> ->. done.
Qed.

Lemma session_inv_step entry_data op :
  snapshot_inv entry_data ∧ heap_keyed entry_data →
  snapshot_inv (apply_op entry_data op) ∧ heap_keyed (apply_op entry_data op).
Proof.
  intros [Hinv Hkeyed]. destruct op as [ck|ck ty infos|ck ty st]; cbn [apply_op].
  - split; [by apply snapshot_inv_setup|].
    unfold heap_keyed, platform_async_setup_entry, alloc in *. cbn [heap].
    rewrite !Forall_app. repeat split; [done | |]; apply Forall_singleton, keyed_nil.
  - unfold after_pass.
    destruct (async_list_entities ck ty infos entry_data) as [[entry_data' effects]|e] eqn:Hrun;
      [|done].
    split; [by eapply pass_snapshot_inv|].
    eapply pass_heap_keyed; [| done | done]. by destruct Hinv.
  - destruct (async_entity_state ck ty st entry_data) as [[entry_data' effects]|e] eqn:Hrun;
      [|done].
    destruct (entity_state_frame _ _ _ _ _ _ Hrun) as (H1 & H2 & H3).
    by apply (snapshot_inv_ext entry_data).
Qed.

Lemma session_inv (ops : list SnapshotOp) :
  snapshot_inv (session ops) ∧ heap_keyed (session ops).
Proof.
  unfold session. induction ops as [|op ops IH] using rev_ind.
  - split; [apply snapshot_inv_empty | constructor].
  - rewrite foldl_app. cbn [foldl]. by apply session_inv_step.
Qed.

(** C1 (amended): in every session, for a list of descriptors with
    pairwise distinct keys, a pass classifies the descriptors of the
    platform into [to_add] (key not in the current generation),
    [to_keep] (key in it; no entity is built for them) and the keys
    [to_remove] (in the current generation, not in the list); it sends
    one removal notification per removed key before the current
    generation is replaced by the kept and added descriptors, and hands
    the new entities over in one batch after the removals. *)
Theorem list_entities_classifies (ops : list SnapshotOp)
    (component_key : string) (info_type : PyClass) (infos : list EntityInfo.t) :
  is_Some (current (session ops) component_key) →
  NoDup (EntityInfo.key <$> of_platform info_type infos) →
  pass_as_classified component_key info_type infos (session ops).
Proof.
  intros [cur Hcur] Hnd.
  apply (pass_classified_keyed component_key info_type infos (session ops) cur); [done | | done].
  destruct (session_inv ops) as [_ Hkeyed].
  apply current_Some in Hcur as (r & _ & Hh).
  by apply (Forall_lookup_1 _ _ _ _ Hkeyed Hh).
Qed.

(** The device reported the sensors 1, 2, 3 and reports 2, 3, 4 after a
    reconnect. *)
Lemma list_entities_classifies_witness :
  let infos1 := [sensor_info 1 "a"; sensor_info 2 "b"; sensor_info 3 "c"] in
  let infos2 := [sensor_info 2 "b"; sensor_info 3 "c"; sensor_info 4 "d"] in
  let ops := [OpSetup "sensor"; OpListEntities "sensor" "SensorInfo" infos1] in
  (is_Some (current (session ops) "sensor") ∧
   NoDup (EntityInfo.key <$> of_platform "SensorInfo" infos2)) ∧
  pass_as_classified "sensor" "SensorInfo" infos2 (session ops).
Proof.
  intros infos1 infos2 ops.
  assert (H1 : is_Some (current (session ops) "sensor")).
  { eexists. vm_compute. reflexivity. }
  assert (H2 : NoDup (EntityInfo.key <$> of_platform "SensorInfo" infos2)).
  { apply (bool_decide_unpack _). vm_compute. reflexivity. }
  split; [done|].
  exact (list_entities_classifies ops "sensor" "SensorInfo" infos2 H1 H2).
Defined.

(** C1 as stated fails when the list names a key twice: the second
    occurrence of a key of the current generation is no longer found in
    the dictionary the first occurrence was popped from, and an entity is
    built for it. *)
Lemma list_entities_duplicate_key_counterexample :
  let ops := [OpSetup "sensor"; OpListEntities "sensor" "SensorInfo" [sensor_info 1 "a"]] in
  ¬ pass_as_classified "sensor" "SensorInfo"
      [sensor_info 1 "a"; sensor_info 1 "a"] (session ops).
Proof.
  intros ops (cur & mid & new_infos & entry_data' & new & Hcur & Hdiff & _).
  vm_compute in Hcur. injection Hcur as <-.
  vm_compute in Hdiff. discriminate Hdiff.
Qed.

(** C5: in every session, a pass leaves a state in which, for every
    kind, no key is in both generations; for the kind of the pass, the
    previous generation holds exactly the keys removed by the pass and
    the current generation exactly the keys of the incoming list. *)
Theorem generations_apart_after_pass (ops : list SnapshotOp)
    (component_key : string) (info_type : PyClass) (infos : list EntityInfo.t)
    (cur : list (Z * EntityInfo.t)) :
  current (session ops) component_key = Some cur →
  ∃ entry_data' effects cur' prev',
    async_list_entities component_key info_type infos (session ops)
      = Ok (entry_data', effects) ∧
    generations_disjoint entry_data' ∧
    current entry_data' component_key = Some cur' ∧
    previous entry_data' component_key = Some prev' ∧
    PyDict.keys prev' = to_remove cur (of_platform info_type infos) ∧
    (∀ k, k ∈ PyDict.keys cur' ↔ k ∈ EntityInfo.key <$> of_platform info_type infos) ∧
    (∀ k, ¬ (k ∈ PyDict.keys cur' ∧ k ∈ PyDict.keys prev')).
Proof.
  intros Hcur. destruct (session_inv ops) as [Hinv _].
  destruct (pass_keeps_invariant component_key info_type infos (session ops) cur Hinv Hcur)
    as (entry_data' & effects & cur' & prev' & Hrun & [_ Hdis] & Hrest).
  by exists entry_data', effects, cur', prev'.
Qed.

Lemma generations_apart_after_pass_witness :
  let infos1 := [sensor_info 1 "a"; sensor_info 2 "b"; sensor_info 3 "c"] in
  let infos2 := [sensor_info 2 "b"; sensor_info 3 "c"; sensor_info 4 "d"] in
  let ops := [OpSetup "sensor"; OpListEntities "sensor" "SensorInfo" infos1] in
  let cur := (λ info, (EntityInfo.key info, info)) <$> infos1 in
  current (session ops) "sensor" = Some cur ∧
  ∃ entry_data' effects cur' prev',
    async_list_entities "sensor" "SensorInfo" infos2 (session ops)
      = Ok (entry_data', effects) ∧
    generations_disjoint entry_data' ∧
    current entry_data' "sensor" = Some cur' ∧
    previous entry_data' "sensor" = Some prev' ∧
    PyDict.keys prev' = to_remove cur (of_platform "SensorInfo" infos2) ∧
    (∀ k, k ∈ PyDict.keys cur' ↔ k ∈ EntityInfo.key <$> of_platform "SensorInfo" infos2) ∧
    (∀ k, ¬ (k ∈ PyDict.keys cur' ∧ k ∈ PyDict.keys prev')).
Proof.
  intros infos1 infos2 ops cur.
  assert (H1 : current (session ops) "sensor" = Some cur) by (vm_compute; reflexivity).
  split; [done|].
  exact (generations_apart_after_pass ops "sensor" "SensorInfo" infos2 cur H1).
Defined.

(** ** More on the reconnect state machine *)

Lemma count_call_app (c : RL.Call) (calls1 calls2 : list RL.Call) :
  count_call c (calls1 ++ calls2) = (count_call c calls1 + count_call c calls2)%nat.
Proof. unfold count_call. by rewrite filter_app, length_app. Qed.

Lemma count_call_zero (c : RL.Call) (calls : list RL.Call) :
  count_call c calls = 0%nat ↔ c ∉ calls.
Proof.
  unfold count_call. split.
  - intros Hlen Hin. apply length_zero_iff_nil in Hlen.
    by apply (filter_nil_not_elem_of _ _ c Hlen).
  - intros Hnot. rewrite filter_none; [done|]. intros x Hx ->. done.
Qed.

Section reconnect_more.
Variable float_pow : Z → Q.

Lemma step_connects_iff (ev : RL.Event) (self : RL.t) :
  RL.CliConnect ∈ (RL.step float_pow ev self).2 ↔
  ∃ entry_loaded device_disabled outcome,
    ev = RL.EvLoopTurn entry_loaded device_disabled outcome ∧
    turn_attempts entry_loaded device_disabled self = true.
Proof.
  destruct self as [connected zc event loop tries wait].
  destruct ev as [| |loaded disabled outcome|has| | |name records]; cbn [RL.step].
  - split; [intros Hin; by apply elem_of_nil in Hin | intros (? & ? & ? & [=] & _)].
  - split; [|intros (? & ? & ? & [=] & _)].
    unfold RL.stop, RL._stop_zc_listen. cbn. intros Hin.
    destruct wait, zc; cbn in Hin; apply (bool_decide_pack _) in Hin; by vm_compute in Hin.
  - unfold turn_attempts, RL._reconnect_loop_turn, RL._reconnect_once.
    cbn [RL._loop_task RL._reconnect_event RL._connected RL.set_reconnect_event].
    destruct loop, event, connected, loaded, disabled; cbn [andb negb fst snd app];
      try (split; [intros Hin; by apply elem_of_nil in Hin
                  | intros (? & ? & ? & [= <- <- <-] & [=])]).
    split; [intros _; by eexists _, _, _|]. intros _.
    unfold RL._try_connect, RL._start_zc_listen, RL._stop_zc_listen.
    destruct outcome as [|error|]; destruct zc, wait; cbn; apply list_elem_of_here.
  - split; [|intros (? & ? & ? & [=] & _)].
    unfold RL._on_disconnect, RL._start_zc_listen. intros Hin.
    destruct has, zc; cbn in Hin; apply (bool_decide_pack _) in Hin; by vm_compute in Hin.
  - split; [|intros (? & ? & ? & [=] & _)].
    destruct wait as [[|w]|]; cbn [RL._wait_task]; intros Hin;
      try (by apply elem_of_nil in Hin).
    unfold RL._wait_and_start_reconnect_begin in Hin. cbn [snd RL._tries] in Hin.
    apply elem_of_app in Hin as [Hin|Hin].
    + destruct (bool_decide _); [|by apply elem_of_nil in Hin].
      apply list_elem_of_singleton in Hin. discriminate.
    + apply list_elem_of_singleton in Hin. discriminate.
  - split; [|intros (? & ? & ? & [=] & _)].
    destruct wait as [[|w]|]; cbn; intros Hin; by apply elem_of_nil in Hin.
  - split; [|intros (? & ? & ? & [=] & _)].
    unfold RL.async_update_records. cbn. intros Hin.
    destruct name; [|by apply elem_of_nil in Hin].
    destruct connected, event; cbn in Hin; try (by apply elem_of_nil in Hin).
    destruct (existsb _ records); by apply elem_of_nil in Hin.
Qed.

End reconnect_more.

Section reconnect_invariants.
Variable float_pow : Z → Q.

Lemma run_single (ev : RL.Event) (self : RL.t) :
  RL.run float_pow [ev] self = RL.step float_pow ev self.
Proof.
  unfold RL.run. cbn [foldl fst snd].
  by destruct (RL.step float_pow ev self) as [self' calls].
Qed.

Lemma run_snoc (evs : list RL.Event) (ev : RL.Event) (self : RL.t) :
  RL.run float_pow (evs ++ [ev]) self =
  ((RL.step float_pow ev (RL.run float_pow evs self).1).1,
   (RL.run float_pow evs self).2 ++ (RL.step float_pow ev (RL.run float_pow evs self).1).2).
Proof. by rewrite run_app, run_single. Qed.

Lemma run_cons (ev : RL.Event) (evs : list RL.Event) (self : RL.t) :
  RL.run float_pow (ev :: evs) self =
  ((RL.run float_pow evs (RL.step float_pow ev self).1).1,
   (RL.step float_pow ev self).2 ++ (RL.run float_pow evs (RL.step float_pow ev self).1).2).
Proof.
  change (ev :: evs) with ([ev] ++ evs). by rewrite run_app, run_single.
Qed.

Lemma step_listener (ev : RL.Event) (self : RL.t) :
  (count_call RL.ZcAddListener (RL.step float_pow ev self).2
   + (if RL._zc_listening self then 1 else 0))%nat =
  (count_call RL.ZcRemoveListener (RL.step float_pow ev self).2
   + (if RL._zc_listening (RL.step float_pow ev self).1 then 1 else 0))%nat.
Proof.
  destruct self as [connected zc event loop tries wait].
  destruct ev as [| |loaded disabled outcome|has| | |name records]; cbn [RL.step].
  - reflexivity.
  - unfold RL.stop, RL._stop_zc_listen. by destruct wait, zc.
  - unfold RL._reconnect_loop_turn, RL._reconnect_once.
    cbn [RL._loop_task RL._reconnect_event RL._connected RL.set_reconnect_event].
    destruct loop, event, connected, loaded, disabled; cbn [andb negb fst snd app];
      try reflexivity.
    unfold RL._try_connect, RL._start_zc_listen, RL._stop_zc_listen.
    destruct outcome as [|error|]; [| destruct error |]; destruct zc, wait; reflexivity.
  - unfold RL._on_disconnect, RL._start_zc_listen. by destruct has, zc.
  - destruct wait as [[|w]|]; cbn [RL._wait_task]; try reflexivity.
    unfold RL._wait_and_start_reconnect_begin. cbn [fst snd RL._tries RL._zc_listening RL.set_wait_task].
    rewrite !count_call_app. by destruct (bool_decide _).
  - by destruct wait as [[|w]|].
  - unfold RL.async_update_records. cbn.
    destruct name; [|reflexivity].
    destruct connected, event; cbn; try reflexivity.
    by destruct (existsb _ records).
Qed.

(** The zeroconf listener is never registered twice and never removed
    without being registered: after any sequence of events, it has been
    added once more than removed while [_zc_listening] holds, and
    equally often otherwise. *)
Theorem listener_registered_once (evs : list RL.Event) :
  count_call RL.ZcAddListener (RL.run float_pow evs RL.__init__).2 =
  (count_call RL.ZcRemoveListener (RL.run float_pow evs RL.__init__).2
   + (if RL._zc_listening (RL.run float_pow evs RL.__init__).1 then 1 else 0))%nat.
Proof.
  induction evs as [|ev evs IH] using rev_ind; [reflexivity|].
  rewrite run_snoc. cbn [fst snd]. rewrite !count_call_app.
  pose proof (step_listener ev (RL.run float_pow evs RL.__init__).1) as Hstep.
  lia.
Qed.


End reconnect_invariants.

Section reconnect_quiet.
Variable float_pow : Z → Q.

Lemma no_attempt_no_connect (ev : RL.Event) (self : RL.t) :
  (∀ entry_loaded device_disabled, turn_attempts entry_loaded device_disabled self = false) →
  count_call RL.CliConnect (RL.step float_pow ev self).2 = 0%nat.
Proof.
  intros Hno. apply count_call_zero. intros Hin.
  apply step_connects_iff in Hin as (l & d & o & _ & Hturn).
  by rewrite Hno in Hturn.
Qed.

Lemma step_keeps_connected (ev : RL.Event) (self : RL.t) :
  quiet_event ev = true → RL._connected self = true →
  RL._connected (RL.step float_pow ev self).1 = true.
Proof.
  destruct self as [connected zc event loop tries wait]. cbn [RL._connected].
  intros Hev ->.
  destruct ev as [| |loaded disabled outcome|has| | |name records];
    try discriminate; cbn [RL.step].
  - unfold RL.stop, RL._stop_zc_listen. by destruct zc.
  - unfold RL._reconnect_loop_turn, RL._reconnect_once.
    cbn [RL._loop_task RL._reconnect_event RL._connected RL.set_reconnect_event].
    by destruct loop, event.
  - destruct has; [discriminate|reflexivity].
  - by destruct wait as [[|w]|].
  - by destruct wait as [[|w]|].
  - unfold RL.async_update_records. cbn. by destruct name.
Qed.

(** A successful attempt calls the login callback, stops the zeroconf
    listener and leaves the object connected; from then on nothing tries
    to connect until the connection is lost or [start()] is called. *)
Theorem no_attempt_while_connected (entry_loaded device_disabled : bool)
    (self : RL.t) (evs : list RL.Event) :
  turn_attempts entry_loaded device_disabled self = true →
  forallb quiet_event evs = true →
  let connected :=
    RL.step float_pow (RL.EvLoopTurn entry_loaded device_disabled RL.Connected) self in
  RL.OnLogin ∈ connected.2 ∧
  RL._connected connected.1 = true ∧
  RL._zc_listening connected.1 = false ∧
  count_call RL.CliConnect (RL.run float_pow evs connected.1).2 = 0%nat ∧
  RL._connected (RL.run float_pow evs connected.1).1 = true.
Proof.
  intros Hturn Hevs connected.
  assert (Hconn : RL.OnLogin ∈ connected.2 ∧ RL._connected connected.1 = true ∧
                  RL._zc_listening connected.1 = false).
  { subst connected. destruct self as [c zc e l t w].
    unfold turn_attempts in Hturn. cbn in Hturn.
    destruct l, e, c, entry_loaded, device_disabled; try discriminate.
    cbn [RL.step]. unfold RL._reconnect_loop_turn, RL._reconnect_once, RL._try_connect,
      RL._stop_zc_listen.
    destruct zc; cbn; (split; [|done]); apply (bool_decide_unpack _); by vm_compute. }
  destruct Hconn as (Hlogin & Hc & Hzc). split; [done|]. split; [done|]. split; [done|].
  clearbody connected. revert Hevs Hc. generalize connected.1. clear.
  induction evs as [|ev evs IH]; intros self Hevs Hc; [done|].
  cbn [forallb] in Hevs. apply andb_true_iff in Hevs as [Hev Hevs].
  rewrite run_cons. cbn [fst snd]. rewrite count_call_app.
  rewrite no_attempt_no_connect.
  - apply IH; [done|]. by apply step_keeps_connected.
  - intros l d. unfold turn_attempts. rewrite Hc.
    by destruct (RL._loop_task self), (RL._reconnect_event self).
Qed.

End reconnect_quiet.

(** ** The loop tasks *)

Section loop_tasks.
Variable float_pow : Z → Q.
Implicit Types (s : LoopTasks.t) (ev : LoopTasks.Event).

Lemma object_step_loop_task (ev : RL.Event) (self : RL.t) :
  ev ≠ RL.EvStart → ev ≠ RL.EvStop →
  RL._loop_task (RL.step float_pow ev self).1 = RL._loop_task self.
Proof.
  destruct self as [connected zc event loop tries wait]. cbn [RL._loop_task].
  intros Hstart Hstop.
  destruct ev as [| |loaded disabled outcome|has| | |name records]; try done; cbn [RL.step].
  - unfold RL._reconnect_loop_turn, RL._reconnect_once, RL._try_connect,
      RL._start_zc_listen, RL._stop_zc_listen.
    cbn [RL._loop_task RL._reconnect_event RL._connected RL.set_reconnect_event].
    destruct loop, event, connected, loaded, disabled; cbn [andb negb fst snd]; try reflexivity;
      destruct outcome as [|error|], zc, wait; reflexivity.
  - unfold RL._on_disconnect, RL._start_zc_listen. by destruct has, zc.
  - by destruct wait as [[|w]|].
  - by destruct wait as [[|w]|].
  - unfold RL.async_update_records. cbn.
    destruct name; [|reflexivity].
    destruct connected, event; cbn; try reflexivity.
    by destruct (existsb _ records).
Qed.


Lemma loop_tasks_step_object ev s :
  (∀ task l d o, ev ≠ LoopTasks.EvLoopTurn task l d o) →
  LoopTasks.self (LoopTasks.step float_pow ev s).1
    = (RL.step float_pow (LoopTasks.object_event ev) (LoopTasks.self s)).1 ∧
  (LoopTasks.step float_pow ev s).2
    = (RL.step float_pow (LoopTasks.object_event ev) (LoopTasks.self s)).2 ∧
  length (LoopTasks.tasks (LoopTasks.step float_pow ev s).1) =
    match ev with
    | LoopTasks.EvStart => S (length (LoopTasks.tasks s))
    | LoopTasks.EvStop =>
        if RL._loop_task (LoopTasks.self s)
        then pred (length (LoopTasks.tasks s)) else length (LoopTasks.tasks s)
    | _ => length (LoopTasks.tasks s)
    end.
Proof.
  intros Hturn.
  assert (Hwake : ∀ before after tasks,
            length (LoopTasks.wake before after tasks) = length tasks).
  { intros before after tasks. unfold LoopTasks.wake.
    destruct (_ && _); [apply length_fmap|done]. }
  destruct ev as [| |task l d o|has| | |name records];
    try (by destruct (Hturn task l d o)); cbn [LoopTasks.step LoopTasks.object_event];
    destruct (RL.step float_pow _ (LoopTasks.self s)) as [self' calls];
    cbn [fst snd LoopTasks.self LoopTasks.tasks]; rewrite Hwake;
    (split; [done|]); (split; [done|]); try done.
  - rewrite length_app. cbn. lia.
  - destruct (RL._loop_task (LoopTasks.self s)); [|done].
    destruct (LoopTasks.tasks s) as [|task tasks] using rev_ind; [done|].
    rewrite removelast_last, length_app. cbn. lia.
Qed.



Lemma loop_tasks_run_cons ev (evs : list LoopTasks.Event) s :
  LoopTasks.run float_pow (ev :: evs) s =
  ((LoopTasks.run float_pow evs (LoopTasks.step float_pow ev s).1).1,
   (LoopTasks.step float_pow ev s).2
   ++ (LoopTasks.run float_pow evs (LoopTasks.step float_pow ev s).1).2).
Proof.
  cbn [LoopTasks.run]. destruct (LoopTasks.step float_pow ev s) as [s' calls].
  cbn [fst snd]. by destruct (LoopTasks.run float_pow evs s') as [s'' calls'].
Qed.




Lemma object_step_event_mono (ev : RL.Event) (self : RL.t) :
  (∀ l d o, ev ≠ RL.EvLoopTurn l d o) →
  RL._reconnect_event self = true →
  RL._reconnect_event (RL.step float_pow ev self).1 = true.
Proof.
  destruct self as [connected zc event loop tries wait]. cbn [RL._reconnect_event].
  intros Hturn ->.
  destruct ev as [| |l d o|has| | |name records]; cbn [RL.step].
  - reflexivity.
  - unfold RL.stop, RL._stop_zc_listen. by destruct zc.
  - by destruct (Hturn l d o).
  - unfold RL._on_disconnect, RL._start_zc_listen. by destruct has, zc.
  - by destruct wait as [[|w]|].
  - by destruct wait as [[|w]|].
  - unfold RL.async_update_records. cbn. destruct name; [|reflexivity].
    by destruct connected.
Qed.

Lemma single_task_turn l d o s :
  LoopTasks.single_task s →
  LoopTasks.single_task (LoopTasks.step float_pow (LoopTasks.EvLoopTurn 0 l d o) s).1 ∧
  LoopTasks.self (LoopTasks.step float_pow (LoopTasks.EvLoopTurn 0 l d o) s).1
    = (RL.step float_pow (RL.EvLoopTurn l d o) (LoopTasks.self s)).1 ∧
  (LoopTasks.step float_pow (LoopTasks.EvLoopTurn 0 l d o) s).2
    = (RL.step float_pow (RL.EvLoopTurn l d o) (LoopTasks.self s)).2.
Proof.
  destruct s as [[connected zc event loop tries wait] tasks].
  unfold LoopTasks.single_task. cbn [LoopTasks.self LoopTasks.tasks RL._loop_task].
  intros Hinv. cbn [LoopTasks.step RL.step].
  cbn [LoopTasks.self LoopTasks.tasks].
  destruct tasks as [|task [|task' tasks]]; [| |done].
  - subst loop. cbn [lookup list_lookup]. done.
  - destruct Hinv as [-> Hpass]. cbn [lookup list_lookup]. rewrite Hpass.
    unfold RL._reconnect_loop_turn.
    cbn [RL._loop_task RL._reconnect_event andb negb].
    destruct event; cbn [negb]; [|done].
    unfold RL._reconnect_once, RL._try_connect, RL._start_zc_listen, RL._stop_zc_listen.
    cbn [RL._loop_task RL._reconnect_event RL._connected RL.set_reconnect_event].
    destruct connected, l, d; cbn [negb]; try done;
      destruct o as [|error|], zc, wait; done.
Qed.

Lemma single_task_start s :
  LoopTasks.single_task s → RL._loop_task (LoopTasks.self s) = false →
  LoopTasks.single_task (LoopTasks.step float_pow LoopTasks.EvStart s).1 ∧
  LoopTasks.self (LoopTasks.step float_pow LoopTasks.EvStart s).1
    = (RL.step float_pow RL.EvStart (LoopTasks.self s)).1 ∧
  (LoopTasks.step float_pow LoopTasks.EvStart s).2
    = (RL.step float_pow RL.EvStart (LoopTasks.self s)).2.
Proof.
  destruct s as [[connected zc event loop tries wait] tasks].
  unfold LoopTasks.single_task. cbn [LoopTasks.self LoopTasks.tasks RL._loop_task].
  intros Hinv ->. cbn [LoopTasks.step LoopTasks.object_event RL.step].
  destruct tasks as [|task [|task' tasks]]; [|by destruct Hinv|done].
  unfold LoopTasks.wake. by destruct event.
Qed.

Lemma single_task_stop s :
  LoopTasks.single_task s →
  LoopTasks.single_task (LoopTasks.step float_pow LoopTasks.EvStop s).1 ∧
  LoopTasks.self (LoopTasks.step float_pow LoopTasks.EvStop s).1
    = (RL.step float_pow RL.EvStop (LoopTasks.self s)).1 ∧
  (LoopTasks.step float_pow LoopTasks.EvStop s).2
    = (RL.step float_pow RL.EvStop (LoopTasks.self s)).2.
Proof.
  destruct s as [[connected zc event loop tries wait] tasks].
  unfold LoopTasks.single_task. cbn [LoopTasks.self LoopTasks.tasks RL._loop_task].
  intros Hinv. cbn [LoopTasks.step LoopTasks.object_event RL.step].
  unfold RL.stop, RL._stop_zc_listen.
  destruct tasks as [|task [|task' tasks]]; [| |done].
  - subst loop. destruct zc, wait, event; cbn; done.
  - destruct Hinv as [-> _]. destruct zc, wait, event; cbn; done.
Qed.

(** An event that is neither [start()], [stop()] nor a turn. *)
Lemma single_task_other ev s :
  LoopTasks.single_task s →
  ev ≠ LoopTasks.EvStart → ev ≠ LoopTasks.EvStop →
  (∀ task l d o, ev ≠ LoopTasks.EvLoopTurn task l d o) →
  LoopTasks.single_task (LoopTasks.step float_pow ev s).1 ∧
  LoopTasks.self (LoopTasks.step float_pow ev s).1
    = (RL.step float_pow (LoopTasks.object_event ev) (LoopTasks.self s)).1 ∧
  (LoopTasks.step float_pow ev s).2
    = (RL.step float_pow (LoopTasks.object_event ev) (LoopTasks.self s)).2.
Proof.
  intros Hinv Hstart Hstop Hturn.
  destruct (loop_tasks_step_object ev s Hturn) as (Hself & Hcalls & _).
  split; [|by split].
  assert (Htasks : LoopTasks.tasks (LoopTasks.step float_pow ev s).1
            = LoopTasks.wake (LoopTasks.self s)
                (LoopTasks.self (LoopTasks.step float_pow ev s).1) (LoopTasks.tasks s)).
  { destruct ev as [| |task l d o|has| | |name records]; try done;
      [by destruct (Hturn task l d o)|..];
      cbn [LoopTasks.step LoopTasks.object_event];
      by destruct (RL.step float_pow _ (LoopTasks.self s)). }
  assert (Hloop : RL._loop_task (RL.step float_pow (LoopTasks.object_event ev) (LoopTasks.self s)).1
                  = RL._loop_task (LoopTasks.self s)).
  { apply object_step_loop_task; by destruct ev. }
  assert (Hmono : RL._reconnect_event (LoopTasks.self s) = true →
                  RL._reconnect_event
                    (RL.step float_pow (LoopTasks.object_event ev) (LoopTasks.self s)).1 = true).
  { apply object_step_event_mono. intros l d o Heq.
    destruct ev as [| |task l' d' o'|has| | |name records]; try done.
    by destruct (Hturn task l' d' o'). }
  unfold LoopTasks.single_task in *. rewrite Htasks, Hself, Hloop.
  set (self' := (RL.step float_pow _ (LoopTasks.self s)).1) in *.
  unfold LoopTasks.wake.
  destruct (LoopTasks.tasks s) as [|task [|task' tasks]]; [| |done].
  - by destruct (negb _ && _).
  - destruct Hinv as [Hl Hpass].
    destruct (RL._reconnect_event (LoopTasks.self s)) eqn:Hevent.
    + rewrite (Hmono eq_refl). cbn [negb andb]. split; [done|].
      destruct task; cbn in *; rewrite ?(Hmono eq_refl); done.
    + cbn [negb andb]. destruct (RL._reconnect_event self') eqn:Hevent';
        (split; [done|]); destruct task; cbn in *; rewrite ?Hevent'; done.
Qed.

(** With a single loop task, the object and the calls are those of
    [RL.step]: the flags of the object tell all about the loop. *)
Lemma single_task_step ev s :
  LoopTasks.single_task s →
  (ev = LoopTasks.EvStart → RL._loop_task (LoopTasks.self s) = false) →
  LoopTasks.turn_of_first ev = true →
  LoopTasks.single_task (LoopTasks.step float_pow ev s).1 ∧
  LoopTasks.self (LoopTasks.step float_pow ev s).1
    = (RL.step float_pow (LoopTasks.object_event ev) (LoopTasks.self s)).1 ∧
  (LoopTasks.step float_pow ev s).2
    = (RL.step float_pow (LoopTasks.object_event ev) (LoopTasks.self s)).2.
Proof.
  intros Hinv Hstart Hturn.
  destruct ev as [| |task l d o|has| | |name records].
  - apply single_task_start; [done|]. by apply Hstart.
  - by apply single_task_stop.
  - cbn in Hturn. apply bool_decide_eq_true in Hturn as ->. by apply single_task_turn.
  - by apply single_task_other.
  - by apply single_task_other.
  - by apply single_task_other.
  - by apply single_task_other.
Qed.

(** The reconnect logic with [start()] never called twice in a row is
    the one of [RL.run]: as long as no [start()] happens while a loop
    task is stored, the object and the calls of the loop tasks are those
    of the events in [RL.run]. *)
Lemma single_task_run (evs : list LoopTasks.Event) : ∀ s,
  LoopTasks.single_task s →
  LoopTasks.starts_apart float_pow evs s = true →
  forallb LoopTasks.turn_of_first evs = true →
  LoopTasks.single_task (LoopTasks.run float_pow evs s).1 ∧
  (LoopTasks.self (LoopTasks.run float_pow evs s).1, (LoopTasks.run float_pow evs s).2)
    = RL.run float_pow (LoopTasks.object_event <$> evs) (LoopTasks.self s).
Proof.
  induction evs as [|ev evs IH]; intros s Hinv Hstarts Hturns; [done|].
  cbn [LoopTasks.starts_apart] in Hstarts. apply andb_true_iff in Hstarts as [Hstart Hstarts].
  cbn [forallb] in Hturns. apply andb_true_iff in Hturns as [Hturn Hturns].
  destruct (single_task_step ev s Hinv) as (Hinv' & Hself & Hcalls); [|done|].
  { intros ->. by apply negb_true_iff in Hstart. }
  destruct (IH _ Hinv' Hstarts Hturns) as [Hlast Hrun].
  rewrite loop_tasks_run_cons, fmap_cons, run_cons. cbn [fst snd].
  split; [done|]. rewrite <- Hself, <- Hcalls, <- Hrun. done.
Qed.

End loop_tasks.



Lemma no_attempt_while_connected_witness :
  let evs := [RL.EvZeroconf (Some "node"%string) [{| RL.is_pointer := true;
                 RL.alias := "node._esphomelib._tcp.local." |}];
              RL.EvLoopTurn true false (RL.ConnectionError RL.OtherAPIConnectionError);
              RL.EvSleepOver] in
  (turn_attempts true false (started true 2) = true ∧ forallb quiet_event evs = true) ∧
  count_call RL.CliConnect
    (RL.run exact_pow evs
       (RL.step exact_pow (RL.EvLoopTurn true false RL.Connected) (started true 2)).1).2
    = 0%nat.
Proof.
  intros evs. split; [by split|].
  destruct (no_attempt_while_connected exact_pow true false (started true 2) evs eq_refl eq_refl)
    as (_ & _ & _ & H & _).
  exact H.
Defined.

(** A zeroconf record update makes no call and touches nothing but the
    reconnect event.  The event is set afterwards exactly if it was set
    before, or the object is not connected, the device name is known and
    one of the records is a pointer record with the alias of the device:
    records of other devices never wake the loop, and no record does
    while the object is connected. *)
Theorem discovery_wakes_own_device (device_name : option string)
    (records : list RL.RecordUpdate) (self : RL.t) :
  let after := RL.async_update_records device_name records self in
  after.2 = [] ∧
  RL._connected after.1 = RL._connected self ∧
  RL._zc_listening after.1 = RL._zc_listening self ∧
  RL._loop_task after.1 = RL._loop_task self ∧
  RL._tries after.1 = RL._tries self ∧
  RL._wait_task after.1 = RL._wait_task self ∧
  (RL._reconnect_event after.1 = true ↔
     RL._reconnect_event self = true ∨
     (RL._connected self = false ∧
      ∃ name record,
        device_name = Some name ∧ record ∈ records ∧
        RL.is_pointer record = true ∧
        RL.alias record = (name +:+ "._esphomelib._tcp.local.")%string)).
Proof.
  destruct self as [connected zc event loop tries wait].
  unfold RL.async_update_records. cbn [RL._connected RL._reconnect_event].
  destruct device_name as [name|].
  2:{ cbn. repeat split; try done; [by left|].
      intros [?|(_ & ? & ? & [=] & _)]. done. }
  destruct connected; cbn [orb].
  { cbn. repeat split; try done; [by left|]. intros [?|([=] & _)]. done. }
  destruct event; cbn [orb].
  { cbn. repeat split; try done. by left. }
  destruct (existsb _ records) eqn:Hex; cbn.
  - repeat split; try done. intros _. right. split; [done|].
    apply existsb_exists in Hex as (record & Hin & Hrec).
    apply andb_true_iff in Hrec as [Hp Ha]. apply bool_decide_eq_true in Ha.
    exists name, record. by rewrite <- list_elem_of_In in Hin.
  - repeat split; try done. intros [?|(_ & name' & record & [= <-] & Hin & Hp & Ha)]; [done|].
    assert (Hnone : existsb (λ r, RL.is_pointer r &&
              bool_decide (RL.alias r = (name +:+ "._esphomelib._tcp.local.")%string)) records
              = true); [|congruence].
    apply existsb_exists. exists record. rewrite <- list_elem_of_In in *.
    split; [done|]. rewrite Hp. by apply bool_decide_eq_true.
Qed.

(** A lost connection is retried at once: when the disconnect hook finds
    the entry data, it resets the attempt counter, starts the zeroconf
    listener, and the next turn of a running loop tries to connect; a
    failure of that first attempt is logged as a warning.  A disconnect
    hook that finds no entry data changes nothing. *)
Theorem disconnect_triggers_reconnect (self : RL.t) (outcome : RL.ConnectOutcome) :
  RL._loop_task self = true →
  let lost := RL._on_disconnect true self in
  let turn := RL._reconnect_loop_turn true false outcome lost.1 in
  RL._tries lost.1 = 0 ∧
  RL._connected lost.1 = false ∧
  RL._zc_listening lost.1 = true ∧
  count_call RL.CliConnect turn.2 = 1%nat ∧
  (∀ error, outcome = RL.ConnectionError error →
     RL.LogCantConnect RL.WARNING ∈ turn.2 ∧ RL._tries turn.1 = 1) ∧
  RL._on_disconnect false self = (self, []).
Proof.
  destruct self as [connected zc event loop tries wait]. cbn [RL._loop_task].
  intros ->. unfold RL._on_disconnect, RL._start_zc_listen.
  cbn [negb RL._zc_listening].
  destruct zc; cbn [negb fst snd]; (split; [done|]); (split; [done|]); (split; [done|]).
  all: unfold RL._reconnect_loop_turn, RL._reconnect_once, RL._try_connect,
         RL._start_zc_listen, RL._stop_zc_listen; cbn.
  all: destruct outcome as [|error|]; [| destruct error |]; destruct wait; cbn.
  all: split; [by vm_compute|]; split; [|done].
  all: intros error' [=]; subst; (split; [|done]).
  all: apply (bool_decide_unpack _); by vm_compute.
Qed.

Lemma disconnect_triggers_reconnect_witness :
  let self := (RL.step exact_pow (RL.EvLoopTurn true false RL.Connected) (started true 4)).1 in
  RL._loop_task self = true ∧
  count_call RL.CliConnect
    (RL._reconnect_loop_turn true false RL.Connected (RL._on_disconnect true self).1).2
    = 1%nat.
Proof.
  intros self. split; [reflexivity|].
  destruct (disconnect_triggers_reconnect self RL.Connected eq_refl) as (_ & _ & _ & H & _).
  exact H.
Defined.

Lemma wait_table_bounds (j k : Z) :
  0 ≤ j ≤ k → k ≤ 10 →
  1 ≤ wait_table j ∧ wait_table j ≤ wait_table k ∧ wait_table k ≤ 60 ∧
  (7 ≤ j → wait_table j = 60).
Proof.
  intros Hj Hk.
  assert (Hjc : j = 0 ∨ j = 1 ∨ j = 2 ∨ j = 3 ∨ j = 4 ∨ j = 5 ∨ j = 6 ∨
                j = 7 ∨ j = 8 ∨ j = 9 ∨ j = 10) by lia.
  assert (Hkc : k = 0 ∨ k = 1 ∨ k = 2 ∨ k = 3 ∨ k = 4 ∨ k = 5 ∨ k = 6 ∨
                k = 7 ∨ k = 8 ∨ k = 9 ∨ k = 10) by lia.
  repeat (destruct Hjc as [-> | Hjc]); try subst j;
    repeat (destruct Hkc as [-> | Hkc]); try subst k;
    cbn [wait_table]; lia.
Qed.

(** The wait grows with the number of failures and is capped at one
    minute: it is at least 1 second, never decreases from one failure to
    the next, never exceeds 60 seconds, and is 60 seconds from the
    seventh failure on. *)
Theorem wait_time_capped (float_pow : Z → Q) (n m : Z) :
  float_pow_accurate float_pow →
  0 ≤ n ≤ m →
  1 ≤ wait_time float_pow n ∧
  wait_time float_pow n ≤ wait_time float_pow m ∧
  wait_time float_pow m ≤ 60 ∧
  (7 ≤ n → wait_time float_pow n = 60).
Proof.
  intros Hacc Hnm. rewrite !wait_time_table by (done || lia).
  destruct (wait_table_bounds (Z.min n 10) (Z.min m 10)) as (H1 & H2 & H3 & H4); [lia..|].
  repeat split; [done | done | done |]. intros Hn. apply H4. lia.
Qed.

Lemma wait_time_capped_witness :
  (float_pow_accurate exact_pow ∧ 0 ≤ 3 ≤ 8) ∧
  1 ≤ wait_time exact_pow 3 ∧
  wait_time exact_pow 3 ≤ wait_time exact_pow 8 ∧
  wait_time exact_pow 8 ≤ 60 ∧
  (7 ≤ 3 → wait_time exact_pow 3 = 60).
Proof.
  split; [split; [exact exact_pow_accurate | lia]|].
  apply (wait_time_capped exact_pow 3 8 exact_pow_accurate). lia.
Defined.

(** ** More on [EsphomeEnumMapper] *)

Lemma subscript_KeyError {K V : Type} `{EqDecision K} (d : list (K * V)) (k : K) :
  k ∉ PyDict.keys d → subscript d k = Raise KeyError.
Proof. intros Hno. apply pydict_get_None in Hno. unfold subscript. by rewrite Hno. Qed.

Section enum_mapper_more.
Context {ValT : Type} `{EqDecision ValT}.
Implicit Types (mapping : list (Z * option ValT)).

(** Values outside the mapping raise [KeyError] in both directions (no
    default is substituted), while [None] is accepted by [from_hass] as
    well, because the item [None: None] is stored in the mapping before
    the inverse is built from it; this holds also for a mapping that has
    [None] among its values. *)
Theorem enum_mapper_unknown_raises mapping (e : Z) (v : ValT) :
  e ∉ PyDict.keys mapping →
  Some v ∉ PyDict.values mapping →
  let mapper := EnumMapper.__init__ mapping in
  EnumMapper.from_esphome mapper (Some e) = Raise KeyError ∧
  EnumMapper.from_hass mapper (Some v) = Raise KeyError ∧
  EnumMapper.from_hass mapper None = Ok None.
Proof.
  intros He Hv mapper. split; [|split].
  - unfold EnumMapper.from_esphome. apply subscript_KeyError.
    subst mapper. rewrite enum_mapper_mapping_items.
    unfold PyDict.keys in *. rewrite fmap_app, <- list_fmap_compose.
    intros Hin. apply elem_of_app in Hin as [Hin|Hin].
    + apply list_elem_of_fmap in Hin as ([e' v'] & [= ->] & Hin).
      apply He. apply list_elem_of_fmap. by exists (e', v').
    + apply list_elem_of_singleton in Hin. discriminate.
  - unfold EnumMapper.from_hass. apply subscript_KeyError.
    subst mapper. rewrite enum_mapper_inverse_items.
    intros Hin. apply (proj1 (dict_of_items_keys _ _)) in Hin.
    rewrite fmap_app, <- list_fmap_compose in Hin.
    apply elem_of_app in Hin as [Hin|Hin].
    + apply list_elem_of_fmap in Hin as ([e' v'] & Heq & Hin). cbn in Heq.
      apply Hv. apply list_elem_of_fmap. exists (e', v'). by split.
    + apply list_elem_of_singleton in Hin. discriminate.
  - apply enum_mapper_from_hass_None.
Qed.

(** When several enum keys share a value other than [None], [from_hass]
    answers with the one that comes last in the mapping.  For the value
    [None] it answers [None], whatever enum keys map to [None]: the item
    [None: None] comes after them all. *)
Theorem enum_mapper_last_key_wins (mapping1 mapping2 : list (Z * option ValT)) (e : Z)
    (v : option ValT) :
  v ∉ PyDict.values mapping2 →
  EnumMapper.from_hass (EnumMapper.__init__ (mapping1 ++ (e, v) :: mapping2)) v
    = Ok (match v with Some _ => Some e | None => None end).
Proof.
  intros Hv. destruct v as [v|].
  - by apply enum_mapper_from_hass_last.
  - apply enum_mapper_from_hass_None.
Qed.
End enum_mapper_more.

Lemma enum_mapper_unknown_raises_witness :
  let mapping : list (Z * option string) := [(0, None); (1, Some "on"%string)] in
  ((5 ∉ PyDict.keys mapping) ∧ (Some "dim"%string ∉ PyDict.values mapping)) ∧
  EnumMapper.from_esphome (EnumMapper.__init__ mapping) (Some 5) = Raise KeyError ∧
  EnumMapper.from_hass (EnumMapper.__init__ mapping) (Some "dim"%string) = Raise KeyError ∧
  EnumMapper.from_hass (EnumMapper.__init__ mapping) None = Ok None.
Proof.
  intros mapping.
  assert (H1 : 5 ∉ PyDict.keys mapping).
  { apply (bool_decide_unpack _). by vm_compute. }
  assert (H2 : Some "dim"%string ∉ PyDict.values mapping).
  { apply (bool_decide_unpack _). by vm_compute. }
  split; [done|]. exact (enum_mapper_unknown_raises mapping 5 "dim"%string H1 H2).
Defined.

Lemma enum_mapper_last_key_wins_witness :
  let mapping2 : list (Z * option string) := [(2, Some "auto"%string)] in
  ((Some "on"%string ∉ PyDict.values mapping2) ∧ (None ∉ PyDict.values mapping2)) ∧
  EnumMapper.from_hass
    (EnumMapper.__init__
       ([(0, Some "off"%string); (1, Some "on"%string)] ++ (3, Some "on"%string) :: mapping2))
    (Some "on"%string) = Ok (Some 3) ∧
  EnumMapper.from_hass
    (EnumMapper.__init__ ([(0, None)] ++ (1, None) :: mapping2)) None = Ok None.
Proof.
  intros mapping2.
  assert (H1 : Some "on"%string ∉ PyDict.values mapping2).
  { apply (bool_decide_unpack _). by vm_compute. }
  assert (H2 : None ∉ PyDict.values mapping2).
  { apply (bool_decide_unpack _). by vm_compute. }
  split; [done|]. split.
  - exact (enum_mapper_last_key_wins [(0, Some "off"%string); (1, Some "on"%string)]
             mapping2 3 (Some "on"%string) H1).
  - exact (enum_mapper_last_key_wins [(0, None)] mapping2 1 None H2).
Defined.

(** ** [DomainData] *)

Section domain_data.
Context {EntryData : Type}.
Implicit Types (self : DomainData.t EntryData) (entry_data : EntryData).

(** Setting the data of an entry that is not loaded succeeds; the data
    can then be read back, the entry counts as loaded, the other entries
    and the stores are untouched, and setting it a second time raises
    [ValueError]. *)
Theorem set_entry_data_once self (entry_id : string) entry_data entry_data2 :
  DomainData.is_entry_loaded self entry_id = false →
  ∃ self',
    DomainData.set_entry_data self entry_id entry_data = Ok self' ∧
    DomainData.get_entry_data self' entry_id = Ok entry_data ∧
    DomainData.is_entry_loaded self' entry_id = true ∧
    DomainData.set_entry_data self' entry_id entry_data2 = Raise ValueError ∧
    DomainData._stores self' = DomainData._stores self ∧
    ∀ other, other ≠ entry_id →
      DomainData.get_entry_data self' other = DomainData.get_entry_data self other.
Proof.
  unfold DomainData.is_entry_loaded, DomainData.set_entry_data,
    DomainData.get_entry_data, subscript_map.
  intros ->. eexists. split; [reflexivity|]. cbn [DomainData._entry_datas DomainData._stores].
  rewrite lookup_insert_eq.
  rewrite bool_decide_eq_true_2 by (by eexists).
  repeat split. intros other Hne. by rewrite lookup_insert_ne.
Qed.

Lemma pop_entry_data_run self (entry_id : string) entry_data entry_data2 :
  DomainData.get_entry_data self entry_id = Ok entry_data →
  ∃ self',
    DomainData.pop_entry_data self entry_id = Ok (entry_data, self') ∧
    DomainData.is_entry_loaded self' entry_id = false ∧
    DomainData.get_entry_data self' entry_id = Raise KeyError ∧
    DomainData.pop_entry_data self' entry_id = Raise KeyError ∧
    (∃ self'', DomainData.set_entry_data self' entry_id entry_data2 = Ok self'') ∧
    DomainData._stores self' = DomainData._stores self ∧
    ∀ other, other ≠ entry_id →
      DomainData.get_entry_data self' other = DomainData.get_entry_data self other.
Proof.
  unfold DomainData.is_entry_loaded, DomainData.set_entry_data, DomainData.pop_entry_data,
    DomainData.get_entry_data, subscript_map.
  destruct (DomainData._entry_datas self !! entry_id) as [d|] eqn:Hd; [|discriminate].
  intros [= ->]. eexists. split; [reflexivity|].
  cbn [DomainData._entry_datas DomainData._stores]. rewrite lookup_delete_eq.
  rewrite bool_decide_eq_false_2 by (intros [? [=]]).
  repeat split; [by eexists|]. intros other Hne. by rewrite lookup_delete_ne.
Qed.

(** Popping the data of a loaded entry returns it and unloads the entry:
    reading or popping it again raises [KeyError], the other entries and
    the stores are untouched, and the data can be set anew. *)
Theorem pop_entry_data_unloads self (entry_id : string) entry_data entry_data2 :
  DomainData.get_entry_data self entry_id = Ok entry_data →
  ∃ self',
    DomainData.pop_entry_data self entry_id = Ok (entry_data, self') ∧
    DomainData.is_entry_loaded self' entry_id = false ∧
    DomainData.get_entry_data self' entry_id = Raise KeyError ∧
    DomainData.pop_entry_data self' entry_id = Raise KeyError ∧
    (∃ self'', DomainData.set_entry_data self' entry_id entry_data2 = Ok self'') ∧
    DomainData._stores self' = DomainData._stores self ∧
    ∀ other, other ≠ entry_id →
      DomainData.get_entry_data self' other = DomainData.get_entry_data self other.
Proof. exact (pop_entry_data_run self entry_id entry_data entry_data2). Qed.

(** The store of an entry is made once: the first call creates the store
    with the key "esphome.<entry_id>", every later call returns that
    store and changes nothing, also after the entry has been unloaded. *)
Theorem store_created_once self (entry_id : string) :
  let first := DomainData.get_or_create_store self entry_id in
  DomainData.get_or_create_store first.2 entry_id = first ∧
  DomainData._entry_datas first.2 = DomainData._entry_datas self ∧
  (DomainData._stores self !! entry_id = None →
     first.1 = {| DomainData.store_version := 1;
                  DomainData.store_key := ("esphome." +:+ entry_id)%string |}) ∧
  (∀ entry_data self', DomainData.pop_entry_data first.2 entry_id = Ok (entry_data, self') →
     DomainData.get_or_create_store self' entry_id = (first.1, self')).
Proof.
  unfold DomainData.get_or_create_store, DomainData.pop_entry_data.
  destruct (DomainData._stores self !! entry_id) as [store|] eqn:Hs; cbn [fst snd].
  - rewrite Hs. repeat split; [done|].
    intros entry_data self'.
    destruct (DomainData._entry_datas self !! entry_id); [|discriminate].
    intros Heq. injection Heq as _ <-. cbn [DomainData._stores]. by rewrite Hs.
  - cbn [DomainData._stores DomainData._entry_datas]. rewrite lookup_insert_eq.
    repeat split.
    intros entry_data self'.
    destruct (DomainData._entry_datas self !! entry_id); [|discriminate].
    intros Heq. injection Heq as _ <-. cbn [DomainData._stores]. by rewrite lookup_insert_eq.
Qed.

(** An unloaded entry is never reconnected: once its data has been
    popped, the disconnect hook of its reconnect logic changes nothing,
    and a turn of the loop only clears the event and makes no call. *)
Theorem unloaded_entry_not_reconnected self self' (entry_id : string) entry_data
    (device_disabled : bool) (outcome : RL.ConnectOutcome) (logic : RL.t) :
  DomainData.pop_entry_data self entry_id = Ok (entry_data, self') →
  on_disconnect_in self' entry_id logic = (logic, []) ∧
  (loop_turn_in self' entry_id device_disabled outcome logic).2 = [] ∧
  RL._connected (loop_turn_in self' entry_id device_disabled outcome logic).1
    = RL._connected logic ∧
  RL._tries (loop_turn_in self' entry_id device_disabled outcome logic).1
    = RL._tries logic.
Proof.
  intros Hpop.
  destruct (pop_entry_data_run self entry_id entry_data entry_data) as
    (self2 & Hpop2 & Hloaded & Hget & _).
  { unfold DomainData.pop_entry_data, DomainData.get_entry_data, subscript_map in *.
    destruct (_ !! entry_id); [|discriminate]. by injection Hpop as -> _. }
  rewrite Hpop in Hpop2. injection Hpop2 as <-.
  unfold on_disconnect_in, _entry_data, loop_turn_in. rewrite Hget, Hloaded.
  split; [reflexivity|].
  destruct logic as [connected zc event loop tries wait].
  unfold RL._reconnect_loop_turn, RL._reconnect_once.
  cbn [RL._loop_task RL._reconnect_event RL._connected RL.set_reconnect_event].
  by destruct loop, event, connected.
Qed.
End domain_data.

Lemma set_entry_data_once_witness :
  DomainData.is_entry_loaded (DomainData.new (EntryData := Z)) "abc" = false ∧
  ∃ self',
    DomainData.set_entry_data DomainData.new "abc" 7 = Ok self' ∧
    DomainData.get_entry_data self' "abc" = Ok 7 ∧
    DomainData.set_entry_data self' "abc" 8 = Raise ValueError.
Proof.
  split; [reflexivity|].
  destruct (set_entry_data_once (DomainData.new (EntryData := Z)) "abc" 7 8 eq_refl)
    as (self' & H1 & H2 & _ & H3 & _).
  by exists self'.
Defined.

Lemma store_created_once_witness :
  let self : DomainData.t Z :=
    {| DomainData._entry_datas := {["abc"%string := 7]}; DomainData._stores := ∅ |} in
  let first := DomainData.get_or_create_store self "abc" in
  (DomainData._stores self !! "abc"%string = None ∧
   DomainData.pop_entry_data first.2 "abc" = Ok (7, ({| DomainData._entry_datas := ∅; DomainData._stores := DomainData._stores first.2 |} : DomainData.t Z))) ∧
  first.1 = {| DomainData.store_version := 1; DomainData.store_key := "esphome.abc" |} ∧
  DomainData.get_or_create_store
    (({| DomainData._entry_datas := ∅; DomainData._stores := DomainData._stores first.2 |} : DomainData.t Z)) "abc"
    = (first.1, ({| DomainData._entry_datas := ∅; DomainData._stores := DomainData._stores first.2 |} : DomainData.t Z)).
Proof.
  intros self first.
  assert (H1 : DomainData._stores self !! "abc"%string = None) by reflexivity.
  assert (H2 : DomainData.pop_entry_data first.2 "abc"
               = Ok (7, ({| DomainData._entry_datas := ∅; DomainData._stores := DomainData._stores first.2 |} : DomainData.t Z)))
    by (vm_compute; reflexivity).
  split; [done|].
  destruct (store_created_once self "abc") as (_ & _ & Hnew & Hpop).
  split; [exact (Hnew H1)|exact (Hpop _ _ H2)].
Defined.

Lemma pop_entry_data_unloads_witness :
  let self : DomainData.t Z :=
    {| DomainData._entry_datas := {["abc"%string := 7]}; DomainData._stores := ∅ |} in
  DomainData.get_entry_data self "abc" = Ok 7 ∧
  ∃ self',
    DomainData.pop_entry_data self "abc" = Ok (7, self') ∧
    DomainData.get_entry_data self' "abc" = Raise KeyError.
Proof.
  intros self.
  assert (H : DomainData.get_entry_data self "abc" = Ok 7) by (vm_compute; reflexivity).
  split; [exact H|].
  destruct (pop_entry_data_unloads self "abc" 7 7 H) as (self' & H1 & _ & H2 & _).
  by exists self'.
Defined.

Lemma unloaded_entry_not_reconnected_witness :
  let self : DomainData.t Z :=
    {| DomainData._entry_datas := {["abc"%string := 7]}; DomainData._stores := ∅ |} in
  let self' : DomainData.t Z :=
    {| DomainData._entry_datas := delete "abc"%string {["abc"%string := 7]};
       DomainData._stores := ∅ |} in
  DomainData.pop_entry_data self "abc" = Ok (7, self') ∧
  on_disconnect_in self' "abc" (started true 2) = (started true 2, []) ∧
  (loop_turn_in self' "abc" false RL.Connected (started true 2)).2 = [].
Proof.
  intros self self'.
  assert (H : DomainData.pop_entry_data self "abc" = Ok (7, self')) by reflexivity.
  split; [exact H|].
  destruct (unloaded_entry_not_reconnected self self' "abc" 7 false RL.Connected
              (started true 2) H) as (H1 & H2 & _).
  by split.
Defined.

(** ** More on the entity reconciliation *)

Lemma pydict_get_filter {K V : Type} `{EqDecision K} (P : K → Prop)
    `{!∀ k, Decision (P k)} (k : K) (d : list (K * V)) :
  P k → PyDict.get k (filter (λ kv, P kv.1) d) = PyDict.get k d.
Proof.
  intros Hk. induction d as [|[k' v'] d IH]; [done|].
  destruct (decide (P k')) as [Hk'|Hk'].
  - rewrite filter_cons_True by done. cbn [PyDict.get]. by rewrite IH.
  - rewrite filter_cons_False by done. cbn [PyDict.get].
    rewrite decide_False by (by intros ->). done.
Qed.

Lemma foldl_set_elem {K V : Type} `{EqDecision K} (k : K) (v : V) (items : list (K * V)) :
  ∀ d, (k, v) ∈ foldl (λ d kv, PyDict.set kv.1 kv.2 d) d items →
       (k, v) ∈ d ∨ (k, v) ∈ items.
Proof.
  induction items as [|[k1 v1] items IH]; intros d Hin; [by left|].
  cbn [foldl fst snd] in Hin. apply IH in Hin as [Hin|Hin].
  - apply pydict_elem_set in Hin as [->|Hin]; [right; left | by left].
  - right. by right.
Qed.

Lemma pydict_get_is_Some {K V : Type} `{EqDecision K} (k : K) (d : list (K * V)) :
  k ∈ PyDict.keys d → ∃ v, PyDict.get k d = Some v.
Proof.
  intros Hin. destruct (PyDict.get k d) as [v|] eqn:Hget; [by exists v|].
  by apply pydict_get_None in Hget.
Qed.

Section static_info.
Variables (component_key : string) (info_type : PyClass).
Implicit Types (cur : list (Z * EntityInfo.t)) (infos : list EntityInfo.t).

Lemma static_info_after_run infos entry_data r cur entry_data' effects (key : Z) :
  info entry_data !! component_key = Some r →
  heap entry_data !! r = Some cur →
  async_list_entities component_key info_type infos entry_data = Ok (entry_data', effects) →
  _static_info entry_data' {| _component_key := component_key; _key := key |} =
  match PyDict.get key
          (foldl (λ d kv, PyDict.set kv.1 kv.2 d) []
             ((λ info, (EntityInfo.key info, info)) <$> of_platform info_type infos)) with
  | Some info => Ok info
  | None =>
      subscript (filter (λ kv, kv.1 ∉ EntityInfo.key <$> of_platform info_type infos) cur) key
  end.
Proof.
  intros Hr Hh Hrun.
  assert (Hlt : (r < length (heap entry_data))%nat) by (by eapply lookup_lt_Some).
  rewrite (async_list_entities_run component_key info_type infos entry_data r cur Hr Hh) in Hrun.
  injection Hrun as <- _.
  unfold _static_info, subscript_map, deref. cbn [_component_key _key info old_info heap].
  rewrite !lookup_insert_eq. cbn [mbind result_bind].
  rewrite list_lookup_insert_eq by (rewrite length_insert, length_app; simpl; lia).
  rewrite list_lookup_insert_ne by lia.
  rewrite list_lookup_insert_eq by (rewrite length_app; simpl; lia).
  cbn [default from_option id]. unfold id.
  by rewrite reconcile_fold_new, reconcile_fold_old.
Qed.

(** The descriptor of every entity of the current generation stays
    readable across a pass: if the incoming list has the key, the
    entity reads a descriptor of the incoming list with that key; if
    not (the entity is being removed), it still reads its old
    descriptor, from the previous generation. *)
Theorem static_info_survives_pass infos entry_data cur (key : Z) :
  current entry_data component_key = Some cur →
  key ∈ PyDict.keys cur →
  ∃ entry_data' effects info,
    async_list_entities component_key info_type infos entry_data = Ok (entry_data', effects) ∧
    _static_info entry_data' {| _component_key := component_key; _key := key |} = Ok info ∧
    (key ∈ EntityInfo.key <$> of_platform info_type infos →
       info ∈ of_platform info_type infos ∧ EntityInfo.key info = key) ∧
    (key ∉ EntityInfo.key <$> of_platform info_type infos →
       PyDict.get key cur = Some info).
Proof.
  intros Hcur Hkey. pose proof Hcur as Hcur'.
  apply current_Some in Hcur' as (r & Hr & Hh).
  destruct (async_list_entities_total component_key info_type infos entry_data)
    as (entry_data' & effects & Hrun); [by eexists|].
  pose proof (static_info_after_run infos entry_data r cur entry_data' effects key Hr Hh Hrun)
    as Hsi.
  exists entry_data', effects.
  destruct (PyDict.get key (foldl _ [] _)) as [info|] eqn:Hget.
  - exists info. split; [done|]. split; [done|]. split.
    + intros _. apply pydict_get_Some_elem, foldl_set_elem in Hget as [Hin|Hin].
      * by apply elem_of_nil in Hin.
      * apply list_elem_of_fmap in Hin as (info' & [= -> ->] & Hin). done.
    + intros Hno. exfalso. apply pydict_get_Some_elem in Hget.
      assert (Hk : key ∈ PyDict.keys (foldl (λ d kv, PyDict.set kv.1 kv.2 d) []
                ((λ info, (EntityInfo.key info, info)) <$> of_platform info_type infos))).
      { apply list_elem_of_fmap. by exists (key, info). }
      apply foldl_set_keys in Hk as [Hk|Hk]; [by apply elem_of_nil in Hk|].
      rewrite items_keys in Hk. done.
  - apply pydict_get_None in Hget.
    assert (Hno : key ∉ EntityInfo.key <$> of_platform info_type infos).
    { intros Hin. apply Hget. apply foldl_set_keys. right. by rewrite items_keys. }
    destruct (pydict_get_is_Some key cur Hkey) as [info Hinfo].
    exists info. split; [done|]. split.
    + rewrite Hsi. unfold subscript.
      assert (Hf : PyDict.get key
                (filter (λ kv : Z * EntityInfo.t,
                           kv.1 ∉ EntityInfo.key <$> of_platform info_type infos) cur)
              = PyDict.get key cur).
      { exact (pydict_get_filter
                 (λ k, k ∉ EntityInfo.key <$> of_platform info_type infos) key cur Hno). }
      by rewrite Hf, Hinfo.
    + split; [done|]. intros _. done.
Qed.

(** An entity whose key is neither in the current generation nor in the
    incoming list has no descriptor after the pass: the previous
    generation is kept for one pass only, so reading the descriptor of
    an entity removed a pass earlier raises [KeyError]. *)
Theorem static_info_gone_after_second_pass infos entry_data cur (key : Z) :
  current entry_data component_key = Some cur →
  key ∉ PyDict.keys cur →
  key ∉ EntityInfo.key <$> of_platform info_type infos →
  ∃ entry_data' effects,
    async_list_entities component_key info_type infos entry_data = Ok (entry_data', effects) ∧
    _static_info entry_data' {| _component_key := component_key; _key := key |}
      = Raise KeyError.
Proof.
  intros Hcur Hkey Hno. pose proof Hcur as Hcur'.
  apply current_Some in Hcur' as (r & Hr & Hh).
  destruct (async_list_entities_total component_key info_type infos entry_data)
    as (entry_data' & effects & Hrun); [by eexists|].
  exists entry_data', effects. split; [done|].
  rewrite (static_info_after_run infos entry_data r cur entry_data' effects key Hr Hh Hrun).
  destruct (PyDict.get key (foldl _ [] _)) as [info|] eqn:Hget.
  - exfalso. apply pydict_get_Some_elem in Hget.
    assert (Hk : key ∈ PyDict.keys (foldl (λ d kv, PyDict.set kv.1 kv.2 d) []
              ((λ info, (EntityInfo.key info, info)) <$> of_platform info_type infos))).
    { apply list_elem_of_fmap. by exists (key, info). }
    apply foldl_set_keys in Hk as [Hk|Hk]; [by apply elem_of_nil in Hk|].
    rewrite items_keys in Hk. done.
  - apply subscript_KeyError.
    assert (Hf : PyDict.keys
              (filter (λ kv : Z * EntityInfo.t,
                         kv.1 ∉ EntityInfo.key <$> of_platform info_type infos) cur)
            = filter (λ k, k ∉ EntityInfo.key <$> of_platform info_type infos)
                (PyDict.keys cur)).
    { exact (pydict_keys_filter
               (λ k, k ∉ EntityInfo.key <$> of_platform info_type infos) cur). }
    rewrite Hf. intros Hin. apply list_elem_of_filter in Hin as [_ Hin]. done.
Qed.
End static_info.

Lemma static_info_survives_pass_witness :
  let infos1 := [sensor_info 1 "a"; sensor_info 2 "b"] in
  let infos2 := [sensor_info 2 "B"] in
  let entry_data := session [OpSetup "sensor"; OpListEntities "sensor" "SensorInfo" infos1] in
  let cur := (λ info, (EntityInfo.key info, info)) <$> infos1 in
  (current entry_data "sensor" = Some cur ∧ 1 ∈ PyDict.keys cur) ∧
  ∃ entry_data' effects info,
    async_list_entities "sensor" "SensorInfo" infos2 entry_data = Ok (entry_data', effects) ∧
    _static_info entry_data' {| _component_key := "sensor"; _key := 1 |} = Ok info ∧
    (1 ∈ EntityInfo.key <$> of_platform "SensorInfo" infos2 →
       info ∈ of_platform "SensorInfo" infos2 ∧ EntityInfo.key info = 1) ∧
    (1 ∉ EntityInfo.key <$> of_platform "SensorInfo" infos2 →
       PyDict.get 1 cur = Some info).
Proof.
  intros infos1 infos2 entry_data cur.
  assert (H1 : current entry_data "sensor" = Some cur) by (vm_compute; reflexivity).
  assert (H2 : 1 ∈ PyDict.keys cur) by (apply (bool_decide_unpack _); by vm_compute).
  split; [done|].
  exact (static_info_survives_pass "sensor" "SensorInfo" infos2 entry_data cur 1 H1 H2).
Defined.

Lemma static_info_gone_after_second_pass_witness :
  let infos1 := [sensor_info 1 "a"; sensor_info 2 "b"] in
  let infos2 := [sensor_info 2 "B"] in
  let entry_data :=
    session [OpSetup "sensor"; OpListEntities "sensor" "SensorInfo" infos1;
             OpListEntities "sensor" "SensorInfo" infos2] in
  let cur := (λ info, (EntityInfo.key info, info)) <$> infos2 in
  (current entry_data "sensor" = Some cur ∧ (1 ∉ PyDict.keys cur) ∧
   (1 ∉ EntityInfo.key <$> of_platform "SensorInfo" infos2)) ∧
  ∃ entry_data' effects,
    async_list_entities "sensor" "SensorInfo" infos2 entry_data = Ok (entry_data', effects) ∧
    _static_info entry_data' {| _component_key := "sensor"; _key := 1 |} = Raise KeyError.
Proof.
  intros infos1 infos2 entry_data cur.
  assert (H1 : current entry_data "sensor" = Some cur) by (vm_compute; reflexivity).
  assert (H2 : 1 ∉ PyDict.keys cur) by (apply (bool_decide_unpack _); by vm_compute).
  assert (H3 : 1 ∉ EntityInfo.key <$> of_platform "SensorInfo" infos2)
    by (apply (bool_decide_unpack _); by vm_compute).
  split; [done|].
  exact (static_info_gone_after_second_pass "sensor" "SensorInfo" infos2 entry_data cur 1
           H1 H2 H3).
Defined.

Section pass_more.
Variables (component_key : string) (info_type : PyClass).
Implicit Types (cur : list (Z * EntityInfo.t)) (infos : list EntityInfo.t).

Lemma list_entities_iter_of_platform (old_infos new_infos : nat) infos :
  ∀ acc,
    foldl (list_entities_iter component_key info_type old_infos new_infos) acc infos =
    foldl (list_entities_iter component_key info_type old_infos new_infos) acc
          (of_platform info_type infos).
Proof.
  induction infos as [|info infos IH]; intros acc; [done|].
  destruct (isinstance (EntityInfo.cls info) info_type) eqn:Hi.
  - rewrite of_platform_cons_in by done. cbn [foldl]. apply IH.
  - rewrite of_platform_cons_out by done. cbn [foldl]. rewrite <- IH.
    f_equal. unfold list_entities_iter. destruct acc as [h add]. by rewrite Hi.
Qed.

Lemma pass_other_platform_frame infos (entry_data : RuntimeEntryData) :
  async_list_entities component_key info_type infos entry_data =
  async_list_entities component_key info_type (of_platform info_type infos) entry_data.
Proof.
  unfold async_list_entities, list_entities_diff.
  destruct (subscript_map (info entry_data) component_key) as [r|e]; [|done].
  cbn [mbind result_bind]. unfold alloc.
  by rewrite list_entities_iter_of_platform.
Qed.

(** A pass looks at the descriptors of its own platform only: the
    descriptors of other classes in the list change neither the entry
    data nor the notifications. *)
Theorem pass_ignores_other_platforms infos (entry_data : RuntimeEntryData) :
  async_list_entities component_key info_type infos entry_data =
  async_list_entities component_key info_type (of_platform info_type infos) entry_data.
Proof. exact (pass_other_platform_frame infos entry_data). Qed.

Lemma reconcile_fold_add_members infos : ∀ old new add entity,
  entity ∈ (foldl (reconcile_iter component_key info_type) (old, new, add) infos).2 →
  entity ∈ add ∨
  ∃ info, info ∈ of_platform info_type infos ∧ entity = new_entity component_key info.
Proof.
  induction infos as [|info infos IH]; intros old new add entity Hin; [by left|].
  cbn [foldl] in Hin. unfold reconcile_iter at 2 in Hin.
  destruct (isinstance (EntityInfo.cls info) info_type) eqn:Hi; cbn [negb] in Hin.
  - rewrite of_platform_cons_in by done.
    destruct (PyDict.contains (EntityInfo.key info) old).
    + apply IH in Hin as [Hin|(info' & Hin' & ->)]; [by left|].
      right. exists info'. split; [by right | done].
    + apply IH in Hin as [Hin|(info' & Hin' & ->)].
      * apply elem_of_app in Hin as [Hin|Hin]; [by left|].
        apply list_elem_of_singleton in Hin as ->.
        right. exists info. split; [left | done].
      * right. exists info'. split; [by right | done].
  - rewrite of_platform_cons_out by done. exact (IH old new add entity Hin).
Qed.

(** Whatever the list (also with a key named twice), in every session a
    pass sends removal notifications only for keys of the current
    generation that the list does not name, builds entities only for
    keys the list names, and ends with the one call that hands the new
    entities over. *)
Theorem pass_never_removes_reported (ops : list SnapshotOp) infos cur
    (entry_data' : RuntimeEntryData) (effects : list Effect) :
  current (session ops) component_key = Some cur →
  async_list_entities component_key info_type infos (session ops)
    = Ok (entry_data', effects) →
  ∃ removals add_entities,
    effects = removals ++ [AddEntities add_entities] ∧
    (∀ effect, effect ∈ removals →
       ∃ key, effect = RemoveEntity component_key key ∧
              key ∈ PyDict.keys cur ∧
              key ∉ EntityInfo.key <$> of_platform info_type infos) ∧
    (∀ key, key ∈ PyDict.keys cur →
       key ∉ EntityInfo.key <$> of_platform info_type infos →
       RemoveEntity component_key key ∈ removals) ∧
    (∀ entity, entity ∈ add_entities →
       _component_key entity = component_key ∧
       _key entity ∈ EntityInfo.key <$> of_platform info_type infos).
Proof.
  intros Hcur Hrun. pose proof Hcur as Hcur'.
  apply current_Some in Hcur' as (r & Hr & Hh).
  destruct (session_inv ops) as [_ Hkeyed].
  assert (Hk : keyed cur) by (by apply (Forall_lookup_1 _ _ _ _ Hkeyed Hh)).
  rewrite (async_list_entities_run component_key info_type infos (session ops) r cur Hr Hh)
    in Hrun.
  injection Hrun as _ <-.
  rewrite (reconcile_fold_removals component_key info_type cur infos Hk).
  eexists _, _. split; [reflexivity|]. split; [|split].
  - intros effect Hin. apply list_elem_of_fmap in Hin as (key & -> & Hin).
    unfold to_remove in Hin. apply list_elem_of_filter in Hin as [Hno Hin].
    by exists key.
  - intros key Hin Hno. apply list_elem_of_fmap. exists key. split; [done|].
    unfold to_remove. by apply list_elem_of_filter.
  - intros entity Hin.
    apply (reconcile_fold_add_members infos cur [] [] entity) in Hin
      as [Hin|(info & Hin & ->)].
    + by apply elem_of_nil in Hin.
    + split; [done|]. cbn. apply list_elem_of_fmap. by exists info.
Qed.

(** A pass with no descriptor of the platform (an empty list, say)
    removes every entity: one removal notification per descriptor of the
    current generation, in order, an empty batch of additions, an empty
    current generation, and the old one as the previous generation. *)
Theorem empty_pass_removes_all infos (entry_data : RuntimeEntryData) cur :
  current entry_data component_key = Some cur →
  of_platform info_type infos = [] →
  ∃ entry_data',
    async_list_entities component_key info_type infos entry_data =
      Ok (entry_data',
          ((λ info, RemoveEntity component_key (EntityInfo.key info)) <$> PyDict.values cur)
          ++ [AddEntities []]) ∧
    current entry_data' component_key = Some [] ∧
    previous entry_data' component_key = Some cur.
Proof.
  intros Hcur Hnone. apply current_Some in Hcur as (r & Hr & Hh).
  assert (Hlt : (r < length (heap entry_data))%nat) by (by eapply lookup_lt_Some).
  rewrite pass_other_platform_frame, Hnone.
  rewrite (async_list_entities_run component_key info_type [] entry_data r cur Hr Hh).
  cbn [foldl fst snd]. eexists. split; [reflexivity|].
  unfold current, previous. cbn [info old_info heap].
  rewrite !lookup_insert_eq. cbn [mbind option_bind]. split.
  - apply list_lookup_insert_eq. rewrite length_insert, length_app. simpl. lia.
  - rewrite list_lookup_insert_ne by lia.
    apply list_lookup_insert_eq. rewrite length_app. simpl. lia.
Qed.
End pass_more.

Lemma pass_never_removes_reported_witness :
  let infos1 := [sensor_info 1 "a"; sensor_info 2 "b"] in
  let infos2 := [sensor_info 2 "B"; sensor_info 2 "B"; sensor_info 3 "c"] in
  let ops := [OpSetup "sensor"; OpListEntities "sensor" "SensorInfo" infos1] in
  let cur := (λ info, (EntityInfo.key info, info)) <$> infos1 in
  let after := after_pass "sensor" "SensorInfo" infos2 (session ops) in
  let effects := pass_effects "sensor" "SensorInfo" infos2 (session ops) in
  (current (session ops) "sensor" = Some cur ∧
   async_list_entities "sensor" "SensorInfo" infos2 (session ops) = Ok (after, effects)) ∧
  ∃ removals add_entities,
    effects = removals ++ [AddEntities add_entities] ∧
    (∀ effect, effect ∈ removals →
       ∃ key, effect = RemoveEntity "sensor" key ∧
              key ∈ PyDict.keys cur ∧
              key ∉ EntityInfo.key <$> of_platform "SensorInfo" infos2).
Proof.
  intros infos1 infos2 ops cur after effects.
  assert (H1 : current (session ops) "sensor" = Some cur) by (vm_compute; reflexivity).
  assert (H2 : async_list_entities "sensor" "SensorInfo" infos2 (session ops)
               = Ok (after, effects)) by (vm_compute; reflexivity).
  split; [done|].
  destruct (pass_never_removes_reported "sensor" "SensorInfo" ops infos2 cur after effects H1 H2)
    as (removals & add_entities & Heq & Hrem & _).
  by exists removals, add_entities.
Defined.

Lemma empty_pass_removes_all_witness :
  let infos1 := [sensor_info 1 "a"; sensor_info 2 "b"] in
  let entry_data := session [OpSetup "sensor"; OpListEntities "sensor" "SensorInfo" infos1] in
  let cur := (λ info, (EntityInfo.key info, info)) <$> infos1 in
  (current entry_data "sensor" = Some cur ∧ of_platform "SensorInfo" [] = []) ∧
  ∃ entry_data',
    async_list_entities "sensor" "SensorInfo" [] entry_data =
      Ok (entry_data', [RemoveEntity "sensor" 1; RemoveEntity "sensor" 2; AddEntities []]) ∧
    current entry_data' "sensor" = Some [] ∧
    previous entry_data' "sensor" = Some cur.
Proof.
  intros infos1 entry_data cur.
  assert (H1 : current entry_data "sensor" = Some cur) by (vm_compute; reflexivity).
  split; [done|].
  exact (empty_pass_removes_all "sensor" "SensorInfo" [] entry_data cur H1 eq_refl).
Defined.

(** ** More on states *)

Section states_more.
Variables (component_key : string) (state_type : PyClass).
Implicit Types (entry_data : RuntimeEntryData) (d : list (Z * EntityState.t)).

Lemma entity_state_step (new_state : EntityState.t) entry_data d :
  state entry_data !! component_key = Some d →
  state (apply_op entry_data (OpEntityState component_key state_type new_state))
    !! component_key =
  Some (if isinstance (EntityState.cls new_state) state_type
        then PyDict.set (EntityState.key new_state) new_state d else d).
Proof.
  intros Hd. cbn [apply_op]. unfold async_entity_state, subscript_map.
  destruct (isinstance (EntityState.cls new_state) state_type); cbn [negb]; [|done].
  rewrite Hd. cbn [mbind result_bind state]. apply lookup_insert_eq.
Qed.

Lemma receive_states_other (states : list EntityState.t) (key : Z) : ∀ entry_data d,
  state entry_data !! component_key = Some d →
  states_for state_type key states = [] →
  ∃ d', state (receive_states component_key state_type states entry_data)
          !! component_key = Some d' ∧
        PyDict.get key d' = PyDict.get key d.
Proof.
  induction states as [|st states IH]; intros entry_data d Hd Hnone.
  - by exists d.
  - unfold receive_states. cbn [foldl].
    pose proof (entity_state_step st entry_data d Hd) as Hstep.
    unfold states_for in Hnone.
    destruct (decide (isinstance (EntityState.cls st) state_type = true
                      ∧ EntityState.key st = key)) as [Hst|Hst].
    { by rewrite filter_cons_True in Hnone. }
    rewrite filter_cons_False in Hnone by done.
    destruct (IH _ _ Hstep Hnone) as (d' & Hd' & Hget).
    exists d'. split; [exact Hd'|]. rewrite Hget.
    destruct (isinstance (EntityState.cls st) state_type) eqn:Hi; [|done].
    apply pydict_get_set_ne. intros Heq. apply Hst. by split.
Qed.

Lemma receive_states_defined (states : list EntityState.t) : ∀ entry_data d,
  state entry_data !! component_key = Some d →
  ∃ d', state (receive_states component_key state_type states entry_data)
          !! component_key = Some d'.
Proof.
  induction states as [|st states IH]; intros entry_data d Hd; [by exists d|].
  unfold receive_states. cbn [foldl].
  exact (IH _ _ (entity_state_step st entry_data d Hd)).
Qed.

(** Last value wins, over any sequence of states: after a list of states
    has been received, an entity reads the last state of the list that is
    of the platform's state class and has the entity's key; states of
    other classes or keys in between do not disturb it.  If the list has
    no such state, the entity reads what it read before. *)
Theorem state_last_value_wins (states1 states2 : list EntityState.t)
    (new_state : EntityState.t) entry_data d :
  state entry_data !! component_key = Some d →
  isinstance (EntityState.cls new_state) state_type = true →
  states_for state_type (EntityState.key new_state) states2 = [] →
  let entity := {| _component_key := component_key;
                   _key := EntityState.key new_state |} in
  _state (receive_states component_key state_type (states1 ++ new_state :: states2) entry_data)
         entity = Ok new_state ∧
  (states_for state_type (EntityState.key new_state) states1 = [] →
   _state (receive_states component_key state_type (states1 ++ states2) entry_data) entity
     = _state entry_data entity).
Proof.
  intros Hd Hcls Hnone entity. split.
  - assert (Hsplit : receive_states component_key state_type
                       (states1 ++ new_state :: states2) entry_data =
                     receive_states component_key state_type states2
                       (apply_op (receive_states component_key state_type states1 entry_data)
                          (OpEntityState component_key state_type new_state))).
    { unfold receive_states. by rewrite foldl_app. }
    rewrite Hsplit.
    destruct (receive_states_defined states1 entry_data d Hd) as (d1 & Hd1).
    pose proof (entity_state_step new_state _ d1 Hd1) as Hstep. rewrite Hcls in Hstep.
    destruct (receive_states_other states2 (EntityState.key new_state) _ _ Hstep Hnone)
      as (d2 & Hd2 & Hget).
    unfold _state, subscript_map, entity.
    cbn [_component_key _key]. rewrite Hd2. cbn [mbind result_bind].
    apply subscript_Ok. rewrite Hget. apply pydict_get_set_eq.
  - intros Hnone1.
    assert (Hall : states_for state_type (EntityState.key new_state) (states1 ++ states2) = []).
    { unfold states_for in *. by rewrite filter_app, Hnone1, Hnone. }
    destruct (receive_states_other (states1 ++ states2) (EntityState.key new_state)
                entry_data d Hd Hall) as (d' & Hd' & Hget).
    unfold _state, subscript_map, entity. cbn [_component_key _key].
    rewrite Hd', Hd. cbn [mbind result_bind]. unfold subscript. by rewrite Hget.
Qed.

(** For an entity of a platform that is set up, a wrapped state
    property never yields NaN, whatever the wrapped property does:
    without a state for the entity it is [None] (the wrapped property is
    not even read); and the wrapped property that reads the value of the
    state gives [None] for NaN and the value otherwise. *)
Theorem state_property_hides_nan
    (func : RuntimeEntryData → EsphomeEntity → result StateValue)
    entry_data d (key : Z) :
  state entry_data !! component_key = Some d →
  let entity := {| _component_key := component_key; _key := key |} in
  esphome_state_property func entry_data entity ≠ Ok (Some VNan) ∧
  (key ∉ PyDict.keys d → esphome_state_property func entry_data entity = Ok None) ∧
  (∀ st, PyDict.get key d = Some st →
     esphome_state_property state_value entry_data entity =
       Ok (match EntityState.value st with VNan => None | value => Some value end)).
Proof.
  intros Hd entity. unfold esphome_state_property, _has_state, subscript_map, entity.
  cbn [_component_key _key]. rewrite Hd. cbn [mbind result_bind].
  split; [|split].
  - destruct (PyDict.contains key d); cbn [negb]; [|done].
    destruct (func entry_data _) as [val|e]; cbn [mbind result_bind]; [|done].
    by destruct val.
  - intros Hno. apply pydict_contains_false in Hno. by rewrite Hno.
  - intros st Hst.
    assert (Hin : PyDict.contains key d = true).
    { apply pydict_contains_true. apply pydict_get_Some_elem in Hst.
      apply list_elem_of_fmap. by exists (key, st). }
    rewrite Hin. cbn [negb]. unfold state_value, _state, subscript_map, subscript.
    cbn [_component_key _key]. rewrite Hd. cbn [mbind result_bind]. rewrite Hst.
    cbn [mbind result_bind]. by destruct (EntityState.value st).
Qed.
End states_more.

Lemma state_last_value_wins_witness :
  let states1 := [sensor_state 7 (VInt 1); sensor_state 8 (VInt 5)] in
  let states2 := [sensor_state 8 (VInt 6);
                  {| EntityState.cls := "SwitchState"; EntityState.key := 7;
                     EntityState.value := VBool true |}] in
  let new_state := sensor_state 7 (VInt 2) in
  (state sensor_entry_data !! "sensor" = Some [] ∧
   isinstance (EntityState.cls new_state) "SensorState" = true ∧
   states_for "SensorState" (EntityState.key new_state) states2 = []) ∧
  _state (receive_states "sensor" "SensorState" (states1 ++ new_state :: states2)
            sensor_entry_data)
         {| _component_key := "sensor"; _key := 7 |} = Ok new_state.
Proof.
  intros states1 states2 new_state.
  assert (H1 : state sensor_entry_data !! "sensor" = Some ([] : list (Z * EntityState.t)))
    by (vm_compute; reflexivity).
  assert (H2 : states_for "SensorState" (EntityState.key new_state) states2 = [])
    by (vm_compute; reflexivity).
  split; [done|].
  exact (proj1 (state_last_value_wins "sensor" "SensorState" states1 states2 new_state
                  sensor_entry_data [] H1 eq_refl H2)).
Defined.

Lemma state_property_hides_nan_witness :
  let entry_data :=
    receive_states "sensor" "SensorState" [sensor_state 7 VNan; sensor_state 8 (VInt 5)]
      sensor_entry_data in
  let d := [(7, sensor_state 7 VNan); (8, sensor_state 8 (VInt 5))] in
  state entry_data !! "sensor" = Some d ∧
  esphome_state_property state_value entry_data {| _component_key := "sensor"; _key := 7 |}
    = Ok None ∧
  esphome_state_property state_value entry_data {| _component_key := "sensor"; _key := 8 |}
    = Ok (Some (VInt 5)) ∧
  esphome_state_property state_value entry_data {| _component_key := "sensor"; _key := 9 |}
    = Ok None.
Proof.
  intros entry_data d.
  assert (H : state entry_data !! "sensor" = Some d) by (vm_compute; reflexivity).
  split; [exact H|].
  destruct (state_property_hides_nan "sensor" state_value entry_data d 7 H) as (_ & _ & H7).
  destruct (state_property_hides_nan "sensor" state_value entry_data d 8 H) as (_ & _ & H8).
  destruct (state_property_hides_nan "sensor" state_value entry_data d 9 H) as (_ & H9 & _).
  split; [exact (H7 _ eq_refl)|]. split; [exact (H8 _ eq_refl)|].
  apply H9. apply (bool_decide_unpack _). by vm_compute.
Defined.

(** ** More on the service synchronisation *)

Section services_more.
Implicit Types (entry_data : EntryData.t) (services : list UserService.t).

Lemma service_items_keys services :
  ((λ serv, (UserService.key serv, serv)) <$> services).*1 = UserService.key <$> services.
Proof. by rewrite <- list_fmap_compose. Qed.

Lemma setup_services_run entry_data device_info services :
  EntryData.device_info entry_data = Some device_info →
  NoDup (UserService.key <$> services) →
  let old := EntryData.services entry_data in
  ∃ entry_data' registrations,
    _setup_services entry_data services =
      Ok (entry_data',
          (AsyncRemove DOMAIN ∘ removed_name device_info
             <$> (omap (replaced_by old) services ++ absent_services old services))
          ++ registrations) ∧
    removed registrations = [] ∧
    registered registrations = filter recognized (new_or_changed old services) ∧
    EntryData.device_info entry_data' = Some device_info ∧
    EntryData.services entry_data' = (λ serv, (UserService.key serv, serv)) <$> services.
Proof.
  intros Hdi Hnd old.
  destruct (setup_services_calls entry_data device_info services Hdi)
    as (entry_data' & registrations & Hrun & Hrem & Hreg).
  rewrite services_diff_classifies in Hrun, Hreg by done. cbn [fst snd] in Hrun, Hreg.
  exists entry_data', registrations. split; [exact Hrun|]. split; [done|]. split; [done|].
  unfold _setup_services in Hrun. rewrite Hdi in Hrun.
  destruct (services_diff (EntryData.services entry_data) services) as [tu tr].
  destruct (register_all _ tr) as [regs|e]; cbn [mbind result_bind] in Hrun; [|discriminate].
  injection Hrun as <- _. cbn [EntryData.device_info EntryData.services].
  split; [done|]. apply dict_of_items_fresh. by rewrite service_items_keys.
Qed.

(** For incoming services with pairwise distinct keys, [_setup_services]
    first removes, in this order, the registered services that an
    incoming service with the same key and another structure replaces and
    the registered services whose key is not incoming; then it registers
    the incoming services that are new or changed, as far as their
    argument types are known.  A service that is registered already and
    unchanged causes no call.  Afterwards the incoming services are the
    registered ones. *)
Theorem services_removed_then_registered entry_data device_info services :
  EntryData.device_info entry_data = Some device_info →
  NoDup (UserService.key <$> services) →
  let old := EntryData.services entry_data in
  ∃ entry_data' registrations,
    _setup_services entry_data services =
      Ok (entry_data',
          (AsyncRemove DOMAIN ∘ removed_name device_info
             <$> (omap (replaced_by old) services ++ absent_services old services))
          ++ registrations) ∧
    removed registrations = [] ∧
    registered registrations = filter recognized (new_or_changed old services) ∧
    EntryData.device_info entry_data' = Some device_info ∧
    EntryData.services entry_data' = (λ serv, (UserService.key serv, serv)) <$> services.
Proof. exact (setup_services_run entry_data device_info services). Qed.

(** Synchronising the same services twice is idle the second time: for
    incoming services with pairwise distinct keys, the second call makes
    no call at all and leaves the entry data as it is (so a service
    skipped for an argument of unknown type is not tried again). *)
Theorem setup_services_idempotent entry_data device_info services :
  EntryData.device_info entry_data = Some device_info →
  NoDup (UserService.key <$> services) →
  ∃ entry_data' calls,
    _setup_services entry_data services = Ok (entry_data', calls) ∧
    _setup_services entry_data' services = Ok (entry_data', []).
Proof.
  intros Hdi Hnd.
  destruct (setup_services_run entry_data device_info services Hdi Hnd)
    as (entry_data' & registrations & Hrun & _ & _ & Hdi' & Hserv).
  eexists entry_data', _. split; [exact Hrun|].
  set (items := (λ serv, (UserService.key serv, serv)) <$> services) in *.
  assert (Hget : ∀ s, s ∈ services → PyDict.get (UserService.key s) items = Some s).
  { intros s Hs. apply pydict_elem_get.
    - unfold PyDict.wf, PyDict.keys, items. by rewrite service_items_keys.
    - apply list_elem_of_fmap. by exists s. }
  unfold _setup_services. rewrite Hdi', Hserv.
  rewrite services_diff_classifies by done.
  assert (H1 : omap (replaced_by items) services = []).
  { rewrite (omap_ext_in _ (λ _, None)).
    - clear. induction services as [|s l IH]; [done|]. by rewrite omap_cons_match.
    - intros s Hs. unfold replaced_by. rewrite (Hget s Hs).
      by rewrite decide_False by (intros Hne; by apply Hne). }
  assert (H2 : absent_services items services = []).
  { unfold absent_services. rewrite filter_none; [done|].
    intros [k s] Hin Hno. apply Hno. cbn [fst].
    apply list_elem_of_fmap in Hin as (s' & [= -> ->] & Hin).
    apply list_elem_of_fmap. by exists s'. }
  assert (H3 : new_or_changed items services = []).
  { unfold new_or_changed. apply filter_none. intros s Hs Hne. by apply Hne, Hget. }
  rewrite H1, H2, H3. cbn [app fmap list_fmap register_all mbind result_bind].
  f_equal. f_equal. destruct entry_data' as [di servs]. cbn in *. subst.
  f_equal. apply dict_of_items_fresh. unfold items. by rewrite service_items_keys.
Qed.

(** For a device whose name has no dash, a service that one
    synchronisation registers and the next one no longer lists is gone
    from the registry afterwards: it is removed under the name it was
    registered under. *)
Theorem dashless_service_unregistered (device_name : string) (service : UserService.t)
    (registry : gmap string UserService.t) :
  "-"%char ∉ list_ascii_of_string device_name →
  recognized service →
  let device_info := {| DeviceInfo.name := device_name |} in
  ∃ entry_data1 calls1 entry_data2 calls2,
    _setup_services (entry_of device_name) [service] = Ok (entry_data1, calls1) ∧
    _setup_services entry_data1 [] = Ok (entry_data2, calls2) ∧
    foldl apply_service_call registry calls1 !! registered_name device_info service
      = Some service ∧
    foldl apply_service_call registry (calls1 ++ calls2)
      !! registered_name device_info service = None ∧
    EntryData.services entry_data2 = [].
Proof.
  intros Hdash Hrec device_info.
  unfold _setup_services, entry_of, services_diff. cbn [EntryData.device_info EntryData.services].
  cbn [foldl setup_services_iter PyDict.get app PyDict.values fmap list_fmap register_all].
  unfold _register_service. cbn [EntryData.device_info].
  fold device_info. fold (registered_name device_info service).
  destruct (register_args_recognized (registered_name device_info service)
              (UserService.args service) [] [] Hrec) as [[schema fields] ->].
  cbn [mbind result_bind app dict_of_items foldl PyDict.set fst snd fmap list_fmap
       PyDict.get PyDict.values].
  eexists _, _, _, _. split; [reflexivity|]. split; [reflexivity|].
  cbn [EntryData.services PyDict.values fmap list_fmap snd app].
  change (DeviceInfo.name device_info +:+ "_" +:+ UserService.name service)%string
    with (removed_name device_info service).
  rewrite (names_agree_without_dash device_info service Hdash).
  cbn [foldl apply_service_call app]. split; [|split; [|reflexivity]].
  - apply lookup_insert_eq.
  - apply lookup_delete_eq.
Qed.
End services_more.

Lemma services_removed_then_registered_witness :
  let entry_data :=
    {| EntryData.device_info := Some {| DeviceInfo.name := "node" |};
       EntryData.services := [(1, play_service); (3, ring_service)] |} in
  let changed := {| UserService.name := "ring"; UserService.key := 3;
                    UserService.args :=
                      [{| UserServiceArg.name := "times";
                          UserServiceArg.type := UserServiceArgType.INT |}] |} in
  (EntryData.device_info entry_data = Some {| DeviceInfo.name := "node" |} ∧
   NoDup (UserService.key <$> [changed; odd_service])) ∧
  ∃ entry_data' registrations,
    _setup_services entry_data [changed; odd_service] =
      Ok (entry_data',
          [AsyncRemove DOMAIN "node_ring"; AsyncRemove DOMAIN "node_play"] ++ registrations) ∧
    removed registrations = [] ∧
    registered registrations = [changed].
Proof.
  intros entry_data changed.
  assert (H : NoDup (UserService.key <$> [changed; odd_service])).
  { apply (bool_decide_unpack _). by vm_compute. }
  split; [done|].
  destruct (services_removed_then_registered entry_data {| DeviceInfo.name := "node" |}
              [changed; odd_service] eq_refl H)
    as (entry_data' & registrations & Hrun & Hrem & Hreg & _).
  exists entry_data', registrations. split; [exact Hrun|]. split; [exact Hrem|].
  rewrite Hreg. vm_compute. reflexivity.
Defined.

Lemma setup_services_idempotent_witness :
  let batch := [play_service; odd_service; ring_service] in
  (EntryData.device_info (entry_of "node") = Some {| DeviceInfo.name := "node" |} ∧
   NoDup (UserService.key <$> batch)) ∧
  ∃ entry_data' calls,
    _setup_services (entry_of "node") batch = Ok (entry_data', calls) ∧
    _setup_services entry_data' batch = Ok (entry_data', []).
Proof.
  intros batch.
  assert (H : NoDup (UserService.key <$> batch)).
  { apply (bool_decide_unpack _). by vm_compute. }
  split; [done|].
  exact (setup_services_idempotent (entry_of "node") {| DeviceInfo.name := "node" |}
           batch eq_refl H).
Defined.

Lemma dashless_service_unregistered_witness :
  (("-"%char ∉ list_ascii_of_string "node") ∧ recognized play_service) ∧
  ∃ entry_data1 calls1 entry_data2 calls2,
    _setup_services (entry_of "node") [play_service] = Ok (entry_data1, calls1) ∧
    _setup_services entry_data1 [] = Ok (entry_data2, calls2) ∧
    foldl apply_service_call ∅ (calls1 ++ calls2) !! "node_play"%string = None.
Proof.
  assert (H1 : "-"%char ∉ list_ascii_of_string "node").
  { apply (bool_decide_unpack _). by vm_compute. }
  assert (H2 : recognized play_service).
  { apply (bool_decide_unpack _). by vm_compute. }
  split; [done|].
  destruct (dashless_service_unregistered "node" play_service ∅ H1 H2)
    as (e1 & c1 & e2 & c2 & R1 & R2 & _ & Hgone & _).
  by exists e1, c1, e2, c2.
Defined.

(** ** Service calls and events sent by the device *)

Lemma str_cut_Some sep s head rest :
  str_cut sep s = Some (head, rest) →
  s = (head +:+ String sep rest)%string ∧ sep ∉ list_ascii_of_string head.
Proof.
  revert head. induction s as [|c s IH]; intros head; cbn [str_cut]; [done|].
  destruct (decide (c = sep)) as [->|Hne].
  - intros [= <- <-]. split; [done|]. cbn. apply not_elem_of_nil.
  - destruct (str_cut sep s) as [[h r]|] eqn:Hcut; cbn; [|done].
    intros [= <- <-]. destruct (IH h eq_refl) as [-> Hh]. split; [done|].
    cbn. rewrite not_elem_of_cons. split; [by intros ->|done].
Qed.

Lemma str_cut_None sep s :
  str_cut sep s = None ↔ sep ∉ list_ascii_of_string s.
Proof.
  induction s as [|c s IH]; cbn [str_cut list_ascii_of_string].
  - split; [intros _; apply not_elem_of_nil|done].
  - rewrite not_elem_of_cons. destruct (decide (c = sep)) as [->|Hne].
    + split; [done|]. by intros [? _].
    + destruct (str_cut sep s) as [[h r]|]; cbn.
      * split; [done|]. intros [_ Hs]. by apply IH in Hs.
      * split; [|done]. intros _. split; [by intros ->|]. by apply IH.
Qed.

Lemma str_cut_app sep head rest :
  sep ∉ list_ascii_of_string head →
  str_cut sep (head +:+ String sep rest) = Some (head, rest).
Proof.
  induction head as [|c head IH]; cbn [list_ascii_of_string]; intros Hno.
  - change (str_cut sep (String sep rest) = Some (EmptyString, rest)).
    cbn [str_cut]. by destruct (decide (sep = sep)).
  - apply not_elem_of_cons in Hno as [Hc Hno].
    change (str_cut sep (String c (head +:+ String sep rest)) = Some (String c head, rest)).
    cbn [str_cut]. destruct (decide (c = sep)) as [->|_]; [done|].
    by rewrite (IH Hno).
Qed.

Section service_call_facts.
Context {Value : Type}.
Variable render_complex :
  PyDict.t string string → PyDict.t string string → option (PyDict.t string Value).
Variable async_fire_raises : string → PyDict.t string Value → bool.
Implicit Types (service : HomeassistantServiceCall.t Value).

(** An event reaches the bus only under the esphome domain: whenever
    [async_on_service_call] fires an event, the packet was marked as an
    event, the event type is the packet's service text as it came, and
    that text is [esphome.] followed by a name other than
    [tag_scanned]. *)
Theorem bus_events_under_esphome host device_id service calls event_type :
  async_on_service_call render_complex async_fire_raises host device_id service = Ok calls →
  event_type ∈ fired_events calls →
  HomeassistantServiceCall.is_event service = true ∧
  event_type = HomeassistantServiceCall.service service ∧
  ∃ name, event_type = ("esphome." +:+ name)%string ∧ name ≠ "tag_scanned"%string.
Proof.
  unfold async_on_service_call, str_split_once.
  destruct (str_cut "." (HomeassistantServiceCall.service service))
    as [[domain service_name]|] eqn:Hcut; [|done].
  apply str_cut_Some in Hcut as [Hserv _].
  destruct (rendered_service_data render_complex service) as [service_data|].
  2: { intros [= <-]. cbn. by intros ?%elem_of_nil. }
  destruct (HomeassistantServiceCall.is_event service).
  2: { intros [= <-]. cbn. by intros ?%elem_of_nil. }
  destruct (decide (domain ≠ "esphome"%string)) as [Hd|Hd].
  { intros [= <-]. cbn. by intros ?%elem_of_nil. }
  destruct (decide (service_name = "tag_scanned"%string)) as [Hn|Hn].
  { destruct (subscript service_data "tag_id"%string); cbn; [|done].
    intros [= <-]. cbn. by intros ?%elem_of_nil. }
  destruct (async_fire_raises _ service_data); [done|].
  intros [= <-]. cbn. intros ->%list_elem_of_singleton.
  split; [done|]. split; [done|]. exists service_name. split; [|done].
  rewrite Hserv. destruct (decide (domain = "esphome"%string)) as [->|Hne]; [done|].
  by destruct Hd.
Qed.

(** [async_on_service_call] raises in three cases only.  It raises
    [ValueError] exactly when the service text has no dot, whatever else
    the packet holds; it raises [KeyError] exactly when the packet is the
    event [esphome.tag_scanned] and the service data, after rendering,
    have no item [tag_id]; and the exception of the bus leaves it
    exactly when the packet is another event under the esphome domain
    whose templates render and the bus refuses to fire it. *)
Theorem service_call_raises_iff host device_id service e :
  async_on_service_call render_complex async_fire_raises host device_id service = Raise e ↔
  (e = ValueError ∧
   "."%char ∉ list_ascii_of_string (HomeassistantServiceCall.service service)) ∨
  (e = KeyError ∧
   HomeassistantServiceCall.is_event service = true ∧
   HomeassistantServiceCall.service service = "esphome.tag_scanned"%string ∧
   ∃ service_data,
     rendered_service_data render_complex service = Some service_data ∧
     PyDict.get "tag_id"%string service_data = None) ∨
  (e = MaxLengthExceeded ∧
   HomeassistantServiceCall.is_event service = true ∧
   (∃ name, HomeassistantServiceCall.service service = ("esphome." +:+ name)%string ∧
            name ≠ "tag_scanned"%string) ∧
   ∃ service_data,
     rendered_service_data render_complex service = Some service_data ∧
     async_fire_raises (HomeassistantServiceCall.service service) service_data = true).
Proof.
  unfold async_on_service_call, str_split_once.
  destruct (str_cut "." (HomeassistantServiceCall.service service))
    as [[domain service_name]|] eqn:Hcut.
  - assert (Hdot : ¬ ("."%char ∉ list_ascii_of_string (HomeassistantServiceCall.service service))).
    { intros Hno. apply str_cut_None in Hno. congruence. }
    assert (Hname : ∀ name,
      HomeassistantServiceCall.service service = ("esphome." +:+ name)%string →
      domain = "esphome"%string ∧ service_name = name).
    { intros name Heq. rewrite Heq in Hcut.
      change ("esphome." +:+ name)%string
        with ("esphome" +:+ String "."%char name)%string in Hcut.
      rewrite str_cut_app in Hcut.
      - by injection Hcut as <- <-.
      - apply (bool_decide_unpack _). by vm_compute. }
    apply str_cut_Some in Hcut as [Hserv Hhead].
    destruct (rendered_service_data render_complex service) as [service_data|].
    2: { split; [done|]. intros [[_ ?]|[(_ & _ & _ & sd & ? & _)|(_ & _ & _ & sd & ? & _)]]; done. }
    destruct (HomeassistantServiceCall.is_event service).
    2: { split; [done|]. intros [[_ ?]|[(_ & ? & _)|(_ & ? & _)]]; done. }
    destruct (decide (domain ≠ "esphome"%string)) as [Hd|Hd].
    { split; [done|].
      intros [[_ ?]|[(_ & _ & Heq & _)|(_ & _ & (name & Heq & _) & _)]]; [done| |].
      - destruct (Hname "tag_scanned"%string Heq) as [? _]. by destruct Hd.
      - destruct (Hname name Heq) as [? _]. by destruct Hd. }
    assert (domain = "esphome"%string) as ->.
    { destruct (decide (domain = "esphome"%string)); [done|]. by destruct Hd. }
    destruct (decide (service_name = "tag_scanned"%string)) as [->|Hn].
    + unfold subscript.
      destruct (PyDict.get "tag_id"%string service_data) as [tag_id|] eqn:Hget; cbn.
      * split; [done|].
        intros [[_ ?]|[(_ & _ & _ & sd & [= <-] & Hnone)|(_ & _ & (name & Heq & Hne) & _)]];
          [done|congruence|].
        destruct (Hname name Heq) as [_ <-]. done.
      * split.
        -- intros [= <-]. right. left. split; [done|]. split; [done|]. split; [done|].
           by exists service_data.
        -- intros [[_ ?]|[(-> & _)|(_ & _ & (name & Heq & Hne) & _)]]; [done..|].
           destruct (Hname name Heq) as [_ <-]. done.
    + destruct (async_fire_raises _ service_data) eqn:Hfire.
      * split.
        -- intros [= <-]. right. right. split; [done|]. split; [done|].
           split; [by exists service_name|]. by exists service_data.
        -- intros [[_ ?]|[(_ & _ & Heq & _)|(-> & _)]]; [done| |done].
           destruct (Hname "tag_scanned"%string Heq) as [_ ?]. done.
      * split; [done|].
        intros [[_ ?]|[(_ & _ & Heq & _)|(_ & _ & _ & sd & [= <-] & Hr)]]; [done| |congruence].
        destruct (Hname "tag_scanned"%string Heq) as [_ ?]. done.
  - apply str_cut_None in Hcut. split.
    + intros [= <-]. by left.
    + intros [[-> _]|[(_ & _ & Heq & _)|(_ & _ & (name & Heq & _) & _)]]; [done| |].
      * rewrite Heq in Hcut. exfalso. apply Hcut.
        apply (bool_decide_unpack _). by vm_compute.
      * rewrite Heq in Hcut. exfalso. apply Hcut.
        change ("esphome." +:+ name)%string
          with (String "e" (String "s" (String "p" (String "h" (String "o" (String "m"
                 (String "e" (String "." name)))))))).
        cbn [list_ascii_of_string]. rewrite !elem_of_cons. tauto.
Qed.

(** A packet that is no event becomes one blocking service call: the
    domain is the text before the first dot of the service text, the
    service name is all that follows it (further dots included), and the
    data are the rendered service data. *)
Theorem service_call_dispatch host device_id service domain service_name service_data :
  HomeassistantServiceCall.is_event service = false →
  "."%char ∉ list_ascii_of_string domain →
  HomeassistantServiceCall.service service = (domain +:+ "." +:+ service_name)%string →
  rendered_service_data render_complex service = Some service_data →
  async_on_service_call render_complex async_fire_raises host device_id service =
    Ok [ServicesAsyncCall domain service_name service_data].
Proof.
  intros Hev Hdot Hserv Hdata. unfold async_on_service_call, str_split_once.
  rewrite Hserv. change ("." +:+ service_name)%string with (String "."%char service_name).
  rewrite (str_cut_app _ _ _ Hdot). by rewrite Hdata, Hev.
Qed.
End service_call_facts.

Lemma bus_events_under_esphome_witness :
  let render : PyDict.t string string → PyDict.t string string → option (PyDict.t string string) :=
    λ data_template _, Some data_template in
  let too_long : string → PyDict.t string string → bool :=
    λ event_type _, bool_decide (64 < String.length event_type)%nat in
  let service :=
    {| HomeassistantServiceCall.service := "esphome.button_pressed";
       HomeassistantServiceCall.is_event := true;
       HomeassistantServiceCall.data := [("button", "1")];
       HomeassistantServiceCall.data_template := [("room", "{{ room }}")];
       HomeassistantServiceCall.variables := [] |}%string in
  let calls := [BusAsyncFire "esphome.button_pressed"
                  [("button", "1"); ("room", "{{ room }}")]]%string in
  (async_on_service_call render too_long "node.local" None service = Ok calls ∧
   "esphome.button_pressed"%string ∈ fired_events calls) ∧
  ∃ name, "esphome.button_pressed"%string = ("esphome." +:+ name)%string
          ∧ name ≠ "tag_scanned"%string.
Proof.
  intros render too_long service calls.
  assert (H1 : async_on_service_call render too_long "node.local" None service = Ok calls)
    by (vm_compute; reflexivity).
  assert (H2 : "esphome.button_pressed"%string ∈ fired_events calls)
    by (apply (bool_decide_unpack _); by vm_compute).
  split; [done|].
  exact (proj2 (proj2 (bus_events_under_esphome render too_long "node.local" None service calls
                         "esphome.button_pressed" H1 H2))).
Defined.

Lemma service_call_dispatch_witness :
  let render : PyDict.t string string → PyDict.t string string → option (PyDict.t string string) :=
    λ _ _, None in
  let too_long : string → PyDict.t string string → bool :=
    λ event_type _, bool_decide (64 < String.length event_type)%nat in
  let service :=
    {| HomeassistantServiceCall.service := "light.turn_on.now";
       HomeassistantServiceCall.is_event := false;
       HomeassistantServiceCall.data := [("entity_id", "light.desk")];
       HomeassistantServiceCall.data_template := [];
       HomeassistantServiceCall.variables := [] |}%string in
  (HomeassistantServiceCall.is_event service = false ∧
   ("."%char ∉ list_ascii_of_string "light") ∧
   HomeassistantServiceCall.service service = ("light" +:+ "." +:+ "turn_on.now")%string ∧
   rendered_service_data render service = Some [("entity_id", "light.desk")]%string) ∧
  async_on_service_call render too_long "node.local" (Some "device-1"%string) service =
    Ok [ServicesAsyncCall "light" "turn_on.now" [("entity_id", "light.desk")]]%string.
Proof.
  intros render too_long service.
  assert (H : "."%char ∉ list_ascii_of_string "light")
    by (apply (bool_decide_unpack _); by vm_compute).
  split; [done|].
  exact (service_call_dispatch render too_long "node.local" (Some "device-1"%string) service
           "light" "turn_on.now" _ eq_refl H eq_refl eq_refl).
Defined.

(** ** Forwarding Home Assistant states to the device *)

Lemma pydict_contains_get {K V : Type} `{EqDecision K} (k : K) (d : list (K * V)) :
  PyDict.contains k d = match PyDict.get k d with Some _ => true | None => false end.
Proof.
  destruct (PyDict.get k d) as [v|] eqn:Hget.
  - destruct (PyDict.contains k d) eqn:Hc; [done|].
    apply pydict_contains_false, pydict_get_None in Hc. congruence.
  - by apply pydict_contains_false, pydict_get_None.
Qed.

Section state_forwarding.
Import StateEvent.
Implicit Types (attribute : option string) (event : StateEvent.t).

(** With no attribute tracked, an event that carries a new state is
    forwarded as the text of the new state, under the entity id of the
    event, unless there is an old state with the same text: then nothing
    is sent.  The handler does not raise on such an event. *)
Theorem state_change_forwarded attribute event new entity_id :
  truthy attribute = None →
  new_state event = Some (Some new) →
  StateEvent.entity_id event = Some entity_id →
  ∃ calls,
    send_home_assistant_state_event attribute event = inr calls ∧
    (calls = [] ∨
     calls = [SendHomeAssistantState entity_id attribute (State.state new)]) ∧
    (calls = [] ↔
     ∃ old, old_state event = Some (Some old) ∧ State.state old = State.state new).
Proof.
  intros Hattr Hnew Hid.
  unfold send_home_assistant_state_event, tracked_unchanged, _send_home_assistant_state.
  rewrite Hnew, Hid, Hattr. cbn [mjoin option_join].
  destruct (old_state event) as [[old|]|].
  - destruct (decide (State.state old = State.state new)) as [Heq|Hne].
    + rewrite bool_decide_true by done. eexists. split; [done|]. split; [by left|].
      split; [|done]. intros _. by exists old.
    + rewrite bool_decide_false by done.
      eexists. split; [done|]. split; [by right|].
      split; [done|]. intros (old' & [= <-] & Heq). done.
  - eexists. split; [done|]. split; [by right|].
    split; [done|]. intros (old' & [=] & _).
  - eexists. split; [done|]. split; [by right|].
    split; [done|]. intros (old' & [=] & _).
Qed.

(** With an attribute tracked, an event that carries a new state sends
    at most the value the attribute has in the new state, [on] or [off]
    for a boolean and the text of the value otherwise.  Nothing is sent
    exactly when the new state has no such attribute, or when the old
    state has the attribute with an equal value.  The handler does not
    raise on such an event. *)
Theorem attribute_change_forwarded attribute a event new entity_id :
  truthy attribute = Some a →
  new_state event = Some (Some new) →
  StateEvent.entity_id event = Some entity_id →
  ∃ calls,
    send_home_assistant_state_event attribute event = inr calls ∧
    (calls = [] ∨
     ∃ v, PyDict.get a (State.attributes new) = Some v ∧
          calls = [SendHomeAssistantState entity_id attribute
                     match v with
                     | ABool b => if b then "on"%string else "off"%string
                     | _ => py_str v
                     end]) ∧
    (calls = [] ↔
     PyDict.get a (State.attributes new) = None ∨
     ∃ old x y, old_state event = Some (Some old) ∧
                PyDict.get a (State.attributes old) = Some x ∧
                PyDict.get a (State.attributes new) = Some y ∧
                py_eq x y = true).
Proof.
  intros Hattr Hnew Hid.
  unfold send_home_assistant_state_event, tracked_unchanged, _send_home_assistant_state.
  rewrite Hnew, Hid, Hattr. cbn [mjoin option_join].
  rewrite !pydict_contains_get.
  destruct (PyDict.get a (State.attributes new)) as [y|] eqn:Hy.
  - assert (Hsend : ∀ calls,
      calls = [SendHomeAssistantState entity_id attribute
                 match y with
                 | ABool b => if b then "on"%string else "off"%string
                 | _ => py_str y
                 end] →
      (calls = [] ∨
       ∃ v, Some y = Some v ∧
            calls = [SendHomeAssistantState entity_id attribute
                       match v with
                       | ABool b => if b then "on"%string else "off"%string
                       | _ => py_str v
                       end])).
    { intros calls ->. right. by exists y. }
    destruct (old_state event) as [[old|]|].
    + rewrite (pydict_contains_get a (State.attributes old)).
      destruct (PyDict.get a (State.attributes old)) as [x|] eqn:Hx.
      * destruct (py_eq x y) eqn:Heq.
        -- eexists. split; [done|]. split; [by left|]. split; [|done].
           intros _. right. by exists old, x, y.
        -- cbn [negb]. eexists. split; [done|].
           split; [by apply Hsend|]. split; [done|].
           intros [[=]|(old' & x' & y' & [= <-] & Hx' & [= <-] & Heq')].
           congruence.
      * cbn [negb]. eexists. split; [done|].
        split; [by apply Hsend|]. split; [done|].
        intros [[=]|(old' & x' & y' & [= <-] & Hx' & _)]. congruence.
    + cbn [negb]. eexists. split; [done|].
      split; [by apply Hsend|]. split; [done|].
      intros [[=]|(old' & x' & y' & [=] & _)].
    + cbn [negb]. eexists. split; [done|].
      split; [by apply Hsend|]. split; [done|].
      intros [[=]|(old' & x' & y' & [=] & _)].
  - exists []. split.
    { destruct (old_state event) as [[old|]|]; [|done..].
      by destruct (PyDict.contains a (State.attributes old)). }
    split; [by left|]. split; [by left|done].
Qed.

(** The event of a removed entity (an old state, and [None] as the new
    state) makes the handler raise [AttributeError] when no attribute is
    tracked, or when the tracked attribute is one of the old state:
    nothing is sent to the device. *)
Theorem removed_entity_event_raises attribute event old :
  old_state event = Some (Some old) →
  new_state event = Some None →
  (truthy attribute = None ∨
   ∃ a, truthy attribute = Some a ∧ a ∈ PyDict.keys (State.attributes old)) →
  send_home_assistant_state_event attribute event = inl AttributeError.
Proof.
  intros Hold Hnew Hattr.
  unfold send_home_assistant_state_event, tracked_unchanged.
  rewrite Hold, Hnew. destruct Hattr as [->|(a & -> & Hin)]; [done|].
  apply pydict_contains_true in Hin. by rewrite Hin.
Qed.
End state_forwarding.

Lemma state_change_forwarded_witness :
  let event :=
    {| StateEvent.old_state := Some (Some {| State.state := "off"; State.attributes := [] |});
       StateEvent.new_state := Some (Some {| State.state := "on"; State.attributes := [] |});
       StateEvent.entity_id := Some "light.desk" |}%string in
  (StateEvent.truthy (Some EmptyString) = None ∧
   StateEvent.new_state event
     = Some (Some {| State.state := "on"; State.attributes := [] |})%string ∧
   StateEvent.entity_id event = Some "light.desk"%string) ∧
  ∃ calls,
    StateEvent.send_home_assistant_state_event (Some EmptyString) event = inr calls ∧
    (calls = [] ∨
     calls = [StateEvent.SendHomeAssistantState "light.desk" (Some EmptyString) "on"]%string).
Proof.
  intros event. split; [done|].
  destruct (state_change_forwarded (Some EmptyString) event
              {| State.state := "on"; State.attributes := [] |}%string
              "light.desk"%string eq_refl eq_refl eq_refl)
    as (calls & Hrun & Hcalls & _).
  by exists calls.
Defined.

Lemma attribute_change_forwarded_witness :
  let old := {| State.state := "on";
                State.attributes := [("brightness", AInt 1); ("eco", ABool false)] |}%string in
  let new := {| State.state := "on";
                State.attributes := [("brightness", ABool true); ("eco", ABool true)] |}%string in
  let event := λ entity_id,
    {| StateEvent.old_state := Some (Some old);
       StateEvent.new_state := Some (Some new);
       StateEvent.entity_id := Some entity_id |} in
  (StateEvent.truthy (Some "brightness"%string) = Some "brightness"%string ∧
   StateEvent.new_state (event "light.desk"%string) = Some (Some new) ∧
   StateEvent.entity_id (event "light.desk"%string) = Some "light.desk"%string) ∧
  StateEvent.send_home_assistant_state_event (Some "brightness"%string)
    (event "light.desk"%string) = inr [] ∧
  StateEvent.send_home_assistant_state_event (Some "eco"%string)
    (event "light.desk"%string)
    = inr [StateEvent.SendHomeAssistantState "light.desk" (Some "eco") "on"]%string.
Proof.
  intros old new event. split; [done|].
  destruct (attribute_change_forwarded (Some "brightness"%string) "brightness"%string
              (event "light.desk"%string) new "light.desk"%string eq_refl eq_refl eq_refl)
    as (calls & Hrun & _ & Hiff).
  split; [|vm_compute; reflexivity].
  rewrite Hrun. f_equal. apply Hiff. right.
  exists old, (AInt 1), (ABool true). by vm_compute.
Defined.

Lemma removed_entity_event_raises_witness :
  let old := {| State.state := "on"; State.attributes := [("brightness", AInt 1)] |}%string in
  let event :=
    {| StateEvent.old_state := Some (Some old);
       StateEvent.new_state := Some None;
       StateEvent.entity_id := Some "light.desk"%string |} in
  (StateEvent.old_state event = Some (Some old) ∧
   StateEvent.new_state event = Some None ∧
   StateEvent.truthy None = None) ∧
  StateEvent.send_home_assistant_state_event None event = inl StateEvent.AttributeError.
Proof.
  intros old event. split; [done|].
  exact (removed_entity_event_raises None event old eq_refl eq_refl (or_introl eq_refl)).
Defined.
